(** * Tissue Forge vertex-model mesh: inventories, topology edits, actors

    A shallow embedding of [source/models/vertex/solver/tfMesh.cpp] and of
    the two constraint actors [tfConvexPolygonConstraint.cpp] and
    [tfSurfaceAreaConstraint.cpp].

    C++ objects live in a store keyed by their address; a [Mesh] holds
    addresses in its four inventories, so aliasing between the inventories,
    the parent and child lists and the arguments of an operation is kept.
    An address with no object behind it plays the part of a null or invalid
    pointer: where the source tests [!obj] the model fails cleanly, where
    the source dereferences without a test and the outcome turns on it the
    model answers [NullDeref]; a relation list read through such a pointer
    for a log entry or a scan is taken as empty. *)

From stdpp Require Import gmap list strings.
From Stdlib Require Import ZArith QArith Lia.
From Stdlib Require SpecFloat.

Local Open Scope Z_scope.

(** ** Mesh objects *)

Definition addr := nat.
Definition MeshId := nat.

(** [MeshObj::Type] *)
Inductive ObjType := VERTEX | SURFACE | BODY | STRUCTURE.

Global Instance ObjType_eq_dec : EqDecision ObjType.
Proof. solve_decision. Defined.

(** The part of [MeshObj] the mesh container reads and writes: [objId]
    (an [int], -1 when unstored), the back-reference [mesh], the dynamic
    type, what [parents()] and [children()] return and what [validate()]
    answers.  For a Surface [parents] is its [vertices] (line 313), for a
    Body its [surfaces] (line 320); for a Vertex [children] is its
    [surfaces] (lines 374, 536-541). *)
Record MeshObj := mkMeshObj {
  objId : Z;
  mesh : option MeshId;
  objType : ObjType;
  parents : list addr;
  children : list addr;
  validate : bool
}.

Definition with_objId (i : Z) (o : MeshObj) : MeshObj :=
  mkMeshObj i (mesh o) (objType o) (parents o) (children o) (validate o).
Definition with_mesh (m : option MeshId) (o : MeshObj) : MeshObj :=
  mkMeshObj (objId o) m (objType o) (parents o) (children o) (validate o).
Definition with_parents (ps : list addr) (o : MeshObj) : MeshObj :=
  mkMeshObj (objId o) (mesh o) (objType o) ps (children o) (validate o).
Definition with_children (cs : list addr) (o : MeshObj) : MeshObj :=
  mkMeshObj (objId o) (mesh o) (objType o) (parents o) cs (validate o).

Abbreviation Store := (gmap addr MeshObj).

(** ** The solver collaborator *)

Inductive MeshLogEventType := Create | Destroy.

Record MeshLogEvent := mkMeshLogEvent {
  ev_type : MeshLogEventType;
  ev_objIds : list Z;
  ev_objTypes : list ObjType;
  ev_name : string
}.

(** Modelled from the spec: [MeshSolver] (tfMeshSolver.h is not among the
    sources).  Section 6: the solver receives [log], [setDirty] and
    [positionChanged]; the hooks record what they are given and report
    success. *)
Record MeshSolver := mkMeshSolver {
  solverDirty : bool;
  solverLog : list MeshLogEvent;
  solverPositionChanges : nat
}.

Definition solver_setDirty (b : bool) (s : MeshSolver) : MeshSolver :=
  mkMeshSolver b (solverLog s) (solverPositionChanges s).
Definition solver_log (e : MeshLogEvent) (s : MeshSolver) : MeshSolver :=
  mkMeshSolver (solverDirty s) (solverLog s ++ [e]) (solverPositionChanges s).
Definition solver_positionChanged (s : MeshSolver) : MeshSolver :=
  mkMeshSolver (solverDirty s) (solverLog s) (S (solverPositionChanges s)).

(** ** The mesh *)

(** One inventory: the slot vector ([std::vector<T*>], a null slot is
    [None]) and its [std::set<unsigned int>] of available identifiers. *)
Record Inventory := mkInventory {
  inv : list (option addr);
  availIds : gset nat
}.

Record Mesh := mkMesh {
  vertexInv : Inventory;
  surfaceInv : Inventory;
  bodyInv : Inventory;
  structureInv : Inventory;
  isDirty : bool;
  _solver : option MeshSolver
}.

Definition vertices (m : Mesh) := inv (vertexInv m).
Definition surfaces (m : Mesh) := inv (surfaceInv m).
Definition bodies (m : Mesh) := inv (bodyInv m).
Definition structures (m : Mesh) := inv (structureInv m).
Definition vertexIdsAvail (m : Mesh) := availIds (vertexInv m).
Definition surfaceIdsAvail (m : Mesh) := availIds (surfaceInv m).
Definition bodyIdsAvail (m : Mesh) := availIds (bodyInv m).
Definition structureIdsAvail (m : Mesh) := availIds (structureInv m).

Definition inventory (k : ObjType) (m : Mesh) : Inventory :=
  match k with
  | VERTEX => vertexInv m
  | SURFACE => surfaceInv m
  | BODY => bodyInv m
  | STRUCTURE => structureInv m
  end.

Definition set_inventory (k : ObjType) (I : Inventory) (m : Mesh) : Mesh :=
  match k with
  | VERTEX => mkMesh I (surfaceInv m) (bodyInv m) (structureInv m) (isDirty m) (_solver m)
  | SURFACE => mkMesh (vertexInv m) I (bodyInv m) (structureInv m) (isDirty m) (_solver m)
  | BODY => mkMesh (vertexInv m) (surfaceInv m) I (structureInv m) (isDirty m) (_solver m)
  | STRUCTURE => mkMesh (vertexInv m) (surfaceInv m) (bodyInv m) I (isDirty m) (_solver m)
  end.

Definition set_isDirty (b : bool) (m : Mesh) : Mesh :=
  mkMesh (vertexInv m) (surfaceInv m) (bodyInv m) (structureInv m) b (_solver m).
Definition set_solver_state (s : option MeshSolver) (m : Mesh) : Mesh :=
  mkMesh (vertexInv m) (surfaceInv m) (bodyInv m) (structureInv m) (isDirty m) s.

(** [if(_solver) _solver->hook(...)] *)
Definition notify (f : MeshSolver -> MeshSolver) (m : Mesh) : Mesh :=
  set_solver_state (f <$> _solver m) m.

(** The objects and the mesh under study. *)
Record State := mkState {
  objs : Store;
  msh : Mesh
}.

(** [FVector3] over the floating-point type [F] of the build. *)
Record FVector3 (F : Type) := mkFVector3 { vx : F; vy : F; vz : F }.
Arguments mkFVector3 {F} _ _ _.
Arguments vx {F} _.
Arguments vy {F} _.
Arguments vz {F} _.

(** The mesh state together with the particle backend: [w_pos v] is the
    position of the particle of the Vertex at address [v]. *)
Record World (F : Type) := mkWorld {
  w_state : State;
  w_pos : addr -> FVector3 F
}.
Arguments mkWorld {F} _ _.
Arguments w_state {F} _.
Arguments w_pos {F} _.

(** What [Mesh::findVertex] does: return a Vertex, return [NULL], or
    call through a null slot. *)
Inductive FindResult :=
  | Found (v : addr)
  | NotFound
  | FindNullDeref.

(** [HRESULT], an integer status code. *)
Definition HRESULT := Z.

(** What a call produces: a returned value, a dereference of a pointer
    with no object behind it, or an exhausted recursion budget. *)
Inductive Result (A : Type) :=
  | Done (a : A)
  | NullDeref
  | OutOfFuel.
Arguments Done {A} a.
Arguments NullDeref {A}.
Arguments OutOfFuel {A}.

Definition Outcome := Result HRESULT.

(** [*availIds.begin()]: the least element of the ordered set. *)
Definition set_begin (s : gset nat) : option nat :=
  match elements s with
  | [] => None
  | x :: l => Some (foldr Nat.min x l)
  end.

(** ** Sample meshes

    Small stores and the rational numbers as scalars, on which the
    statements below are run. *)

Definition unstored (k : ObjType) (ps cs : list addr) (sound : bool) : MeshObj :=
  mkMeshObj (-1) None k ps cs sound.

Definition emptyInv : Inventory := mkInventory [] ∅.
Definition emptyMesh : Mesh := mkMesh emptyInv emptyInv emptyInv emptyInv false None.

Local Open Scope nat_scope.

(** A triangle: Surface 10 on the vertices 1, 2 and 3. *)
Definition triangle_store : Store :=
  <[1 := unstored VERTEX [] [10] true]>
  (<[2 := unstored VERTEX [] [10] true]>
  (<[3 := unstored VERTEX [] [10] true]>
  (<[10 := unstored SURFACE [1; 2; 3] [] true]> ∅))).

(** Two triangles, Surfaces 10 and 11, that share the edge of the
    vertices 2 and 3, and a loose Vertex 5. *)
Definition hinge_store : Store :=
  <[1 := unstored VERTEX [] [10] true]>
  (<[2 := unstored VERTEX [] [10; 11] true]>
  (<[3 := unstored VERTEX [] [10; 11] true]>
  (<[4 := unstored VERTEX [] [11] true]>
  (<[5 := unstored VERTEX [] [] true]>
  (<[10 := unstored SURFACE [1; 2; 3] [] true]>
  (<[11 := unstored SURFACE [3; 2; 4] [] true]> ∅)))))).

(** A quadrilateral: Surface 10 on the vertices 1, 2, 3 and 4. *)
Definition quad_store : Store :=
  <[1 := unstored VERTEX [] [10] true]>
  (<[2 := unstored VERTEX [] [10] true]>
  (<[3 := unstored VERTEX [] [10] true]>
  (<[4 := unstored VERTEX [] [10] true]>
  (<[10 := unstored SURFACE [1; 2; 3; 4] [] true]> ∅)))).

(** Objects on which calls fail: Vertex 1 is unsound; Surface 10 is
    unsound on sound vertices; Vertex 5 lists Surface 11, which is never
    added to the mesh. *)
Definition faulty_store : Store :=
  <[1 := unstored VERTEX [] [] false]>
  (<[2 := unstored VERTEX [] [10] true]>
  (<[3 := unstored VERTEX [] [10] true]>
  (<[4 := unstored VERTEX [] [10] true]>
  (<[5 := unstored VERTEX [] [11] true]>
  (<[10 := unstored SURFACE [2; 3; 4] [] false]>
  (<[11 := unstored SURFACE [5; 2; 3] [] true]> ∅)))))).

(** The corners of the unit square, by vertex address. *)
Definition square_positions (v : addr) : FVector3 Q :=
  match v with
  | 2 => mkFVector3 1%Q 0%Q 0%Q
  | 3 => mkFVector3 1%Q 1%Q 0%Q
  | 4 => mkFVector3 0%Q 1%Q 0%Q
  | _ => mkFVector3 0%Q 0%Q 0%Q
  end.

Local Close Scope nat_scope.

(** The status codes of the COM convention, a block increment and the
    address of the mesh, for the sample runs. *)
Definition sample_S_OK : HRESULT := 0.
Definition sample_E_FAIL : HRESULT := -2147467259.
Definition sample_INCR : nat := 4%nat.
Definition sample_mesh : MeshId := 7%nat.

(** The squared distance stands for the length of the relative position
    in the sample queries: it is never negative. *)
Definition Q_relativeLength (p pos : FVector3 Q) : Q :=
  ((vx p - vx pos) * (vx p - vx pos) + (vy p - vy pos) * (vy p - vy pos)
   + (vz p - vz pos) * (vz p - vz pos))%Q.

(** A Surface bounded on both sides, by the Bodies at 20 and 21, and its
    normal. *)
Definition twice_bound (h : Store) (s : addr) : option addr * option addr :=
  (Some 20%nat, Some 21%nat).
Definition unit_normal (w : World Q) (s : addr) : FVector3 Q :=
  mkFVector3 0%Q 0%Q 1%Q.

(** In [hinge_store] Surface 11 touches Surface 10 along its first two
    boundary indices. *)
Definition hinge_labels (h : Store) (s other : addr) : list nat := [1%nat; 1%nat; 0%nat].

Definition Qltb (a b : Q) : bool := negb (Qle_bool b a).
Definition Q_isZero (v : FVector3 Q) : bool :=
  Qeq_bool (vx v) 0 && Qeq_bool (vy v) 0 && Qeq_bool (vz v) 0.

(** [FloatP_t] is declared outside the sources; as a C++ floating-point
    type it is IEEE 754 binary64 ([double]) or binary32 ([float]), with
    rounding to nearest, ties to even, as [SpecFloat] defines them. *)
Definition binary64_add := SpecFloat.SFadd 53 1024.
Definition binary64_sub := SpecFloat.SFsub 53 1024.
Definition binary64_mul := SpecFloat.SFmul 53 1024.
Definition binary32_add := SpecFloat.SFadd 24 128.
Definition binary32_sub := SpecFloat.SFsub 24 128.
Definition binary32_mul := SpecFloat.SFmul 24 128.

(** The rational number a floating-point number stands for. *)
Definition SF2Q (x : SpecFloat.spec_float) : Q :=
  match x with
  | SpecFloat.S754_finite s m e =>
      (inject_Z (if s then Z.neg m else Z.pos m) * Qpower 2 e)%Q
  | _ => 0%Q
  end.

Definition float_zero : FVector3 SpecFloat.spec_float :=
  mkFVector3 (SpecFloat.S754_zero false) (SpecFloat.S754_zero false)
    (SpecFloat.S754_zero false).

(** Vertex 1 at [x = -1] and Vertex 2 at [x = 1 + 2^-52], the binary64
    number next above 1; one half. *)
Definition binary64_positions (v : addr) : FVector3 SpecFloat.spec_float :=
  match v with
  | 1%nat => mkFVector3 (SpecFloat.S754_finite true (2 ^ 52) (-52))
               (SpecFloat.S754_zero false) (SpecFloat.S754_zero false)
  | 2%nat => mkFVector3 (SpecFloat.S754_finite false (2 ^ 52 + 1) (-52))
               (SpecFloat.S754_zero false) (SpecFloat.S754_zero false)
  | _ => float_zero
  end.
Definition binary64_half : SpecFloat.spec_float := SpecFloat.S754_finite false (2 ^ 52) (-53).

(** The same in binary32: Vertex 2 at [x = 1 + 2^-23]. *)
Definition binary32_positions (v : addr) : FVector3 SpecFloat.spec_float :=
  match v with
  | 1%nat => mkFVector3 (SpecFloat.S754_finite true (2 ^ 23) (-23))
               (SpecFloat.S754_zero false) (SpecFloat.S754_zero false)
  | 2%nat => mkFVector3 (SpecFloat.S754_finite false (2 ^ 23 + 1) (-23))
               (SpecFloat.S754_zero false) (SpecFloat.S754_zero false)
  | _ => float_zero
  end.
Definition binary32_half : SpecFloat.spec_float := SpecFloat.S754_finite false (2 ^ 23) (-24).

(** ** Storage checks, identifier allocation, add and remove

    [tf_port.h] and [tfMesh.h] are not among the sources: the two status
    codes and the inventory block increment are parameters. *)
Section TissueForge.

Variables S_OK E_FAIL : HRESULT.
Variable TFMESHINV_INCR : nat.

(** The address of the [Mesh] whose member functions run ([this]). *)
Variable this : MeshId.

Definition Mesh_checkUnstoredObj (h : Store) (obj : addr) : HRESULT :=
  match h !! obj with
  | None => E_FAIL
  | Some o =>
      if (0 <=? objId o) || bool_decide (mesh o ≠ None) then E_FAIL else S_OK
  end.

Definition Mesh_checkStoredObj (h : Store) (obj : addr) (m : MeshId) : HRESULT :=
  match h !! obj with
  | None => E_FAIL
  | Some o =>
      if (objId o <? 0) || bool_decide (mesh o = None)
         || bool_decide (mesh o ≠ Some m)
      then E_FAIL else S_OK
  end.

(** The growth loop of [Mesh_invIdAndAlloc] (lines 84-88), one iteration
    per new slot [i]. *)
Definition grow_step (res : nat) (acc : Inventory) (i : nat) : Inventory :=
  mkInventory (inv acc ++ [None])
              (if bool_decide (i ≠ res) then {[i]} ∪ availIds acc else availIds acc).

(** [Mesh_invIdAndAlloc(inv, availIds, obj)].  Identifiers are [int] and
    [unsigned int] in the source; the model does not bound them.  Writing
    [inv[objId]] past the end is undefined in the source and does nothing
    here. *)
Definition Mesh_invIdAndAlloc (I : Inventory) (obj : option addr) (h : Store)
  : nat * Inventory * Store :=
  match set_begin (availIds I) with
  | Some id =>
      let '(slots, h') :=
        match obj with
        | Some a => (<[id := Some a]> (inv I), alter (with_objId (Z.of_nat id)) a h)
        | None => (inv I, h)
        end in
      (id, mkInventory slots (availIds I ∖ {[id]}), h')
  | None =>
      let res := length (inv I) in
      let I1 := foldl (grow_step res) I (seq res TFMESHINV_INCR) in
      match obj with
      | Some a =>
          (res, mkInventory (<[res := Some a]> (inv I1)) (availIds I1),
           alter (with_objId (Z.of_nat res)) a h)
      | None => (res, I1, h)
      end
  end.

(** The Create entry of [Mesh_addObj] (lines 116-122): the object, then
    its parents. *)
Definition create_event (h : Store) (o : MeshObj) (id : Z) : MeshLogEvent :=
  let ps := omap (fun p => h !! p) (parents o) in
  mkMeshLogEvent Create (id :: map objId ps) (objType o :: map objType ps) "".

(** [Mesh_addObj(mesh, inv, availIds, obj, _solver)]; [k] names the
    inventory pair the caller passes. *)
Definition Mesh_addObj (k : ObjType) (obj : addr) (st : State) : HRESULT * State :=
  if negb (Mesh_checkUnstoredObj (objs st) obj =? S_OK)
     || negb (from_option validate false (objs st !! obj))
  then (E_FAIL, st)
  else
    let '(id, I', h1) :=
      Mesh_invIdAndAlloc (inventory k (msh st)) (Some obj) (objs st) in
    let h2 := alter (fun o => with_mesh (Some this) (with_objId (Z.of_nat id) o)) obj h1 in
    let m1 := set_inventory k I' (msh st) in
    let m2 :=
      match h2 !! obj with
      | Some o => notify (solver_log (create_event h2 o (Z.of_nat id))) m1
      | None => m1
      end in
    (S_OK, mkState h2 m2).

(** [isDirty = true;] *)
Definition mark_dirty (st : State) : State :=
  mkState (objs st) (set_isDirty true (msh st)).

(** [Mesh::add] on a Vertex *)
Definition add_Vertex (obj : addr) (st : State) : Outcome * State :=
  let m1 := set_isDirty true (msh st) in
  let m2 := notify (solver_setDirty true) m1 in
  let '(r, st') := Mesh_addObj VERTEX obj (mkState (objs st) m2) in
  (Done r, st').

(** The loop shared by the composite adds:
    [for(auto &p : ...) if(p->objId < 0 && add(p) != S_OK) return E_FAIL;] *)
Fixpoint add_unstored (addp : addr -> State -> Outcome * State)
    (ps : list addr) (st : State) : Outcome * State :=
  match ps with
  | [] => (Done S_OK, st)
  | p :: ps' =>
      match objs st !! p with
      | None => (NullDeref, st)
      | Some o =>
          if objId o <? 0 then
            match addp p st with
            | (Done r, st') =>
                if r =? S_OK then add_unstored addp ps' st' else (Done E_FAIL, st')
            | other => other
            end
          else add_unstored addp ps' st
      end
  end.

(** The tail of every composite add: [Mesh_addObj] on the composite. *)
Definition add_self (k : ObjType) (obj : addr) (r : Outcome * State) : Outcome * State :=
  match r with
  | (Done hr, st1) =>
      if hr =? S_OK then
        let '(r2, st2) := Mesh_addObj k obj st1 in
        if r2 =? S_OK then (Done S_OK, st2) else (Done E_FAIL, st2)
      else (Done E_FAIL, st1)
  | other => other
  end.

(** [Mesh::add] on a Surface *)
Definition add_Surface (obj : addr) (st : State) : Outcome * State :=
  let st1 := mark_dirty st in
  match objs st !! obj with
  | None => (NullDeref, st1)
  | Some o => add_self SURFACE obj (add_unstored add_Vertex (parents o) st1)
  end.

(** [Mesh::add] on a Body *)
Definition add_Body (obj : addr) (st : State) : Outcome * State :=
  let st1 := mark_dirty st in
  match objs st !! obj with
  | None => (NullDeref, st1)
  | Some o => add_self BODY obj (add_unstored add_Surface (parents o) st1)
  end.

(** [Mesh::add] on a Structure: an unstored parent is added as a Structure
    or as a Body by its dynamic type; the recursion follows the parents,
    so it carries a budget. *)
Fixpoint add_Structure (fuel : nat) (obj : addr) (st : State) : Outcome * State :=
  match fuel with
  | O => (OutOfFuel, st)
  | S fuel' =>
      let st1 := mark_dirty st in
      match objs st !! obj with
      | None => (NullDeref, st1)
      | Some o =>
          let add_parent p s :=
            match objType <$> (objs s !! p) with
            | Some STRUCTURE => add_Structure fuel' p s
            | Some BODY => add_Body p s
            | _ => (Done E_FAIL, s)
            end in
          add_self STRUCTURE obj (add_unstored add_parent (parents o) st1)
      end
  end.

(** The cascade of [removeObj]:
    [for(auto &c : obj->children()) if(removeObj(c) != S_OK) return E_FAIL;] *)
Fixpoint remove_each (rm : addr -> State -> Outcome * State)
    (cs : list addr) (st : State) : Outcome * State :=
  match cs with
  | [] => (Done S_OK, st)
  | c :: cs' =>
      match rm c st with
      | (Done r, st') =>
          if r =? S_OK then remove_each rm cs' st' else (Done E_FAIL, st')
      | other => other
      end
  end.

(** The Destroy entry of [removeObj] (line 237). *)
Definition destroy_event (o : MeshObj) : MeshLogEvent :=
  mkMeshLogEvent Destroy [objId o] [objType o] "".

(** Lines 211-230 of [removeObj]: the slot of [o] in the inventory of its
    dynamic type is nulled and its identifier made available. *)
Definition clear_slot (o : MeshObj) (m : Mesh) : Mesh :=
  let I := inventory (objType o) m in
  let i := Z.to_nat (objId o) in
  set_inventory (objType o)
    (mkInventory (<[i := None]> (inv I)) ({[i]} ∪ availIds I)) m.

(** Lines 211-239: slot, Destroy notification, then [objId = -1] and
    [mesh = NULL]. *)
Definition unstore (obj : addr) (o : MeshObj) (st : State) : State :=
  mkState (<[obj := with_mesh None (with_objId (-1) o)]> (objs st))
          (notify (solver_log (destroy_event o)) (clear_slot o (msh st))).

(** [Mesh::removeObj].  The four branches on the dynamic type differ only
    in the inventory they touch; [TF_MESH_OBJINVCHECK] is the bounds
    test. *)
Fixpoint removeObj (fuel : nat) (obj : addr) (st : State) : Outcome * State :=
  match fuel with
  | O => (OutOfFuel, st)
  | S fuel' =>
      let st1 := mark_dirty st in
      if negb (Mesh_checkStoredObj (objs st1) obj this =? S_OK) then (Done E_FAIL, st1)
      else
        match objs st1 !! obj with
        | None => (Done E_FAIL, st1)
        | Some o =>
            if (length (inv (inventory (objType o) (msh st1))) <=? Z.to_nat (objId o))%nat
            then (Done E_FAIL, st1)
            else remove_each (removeObj fuel') (children o) (unstore obj o st1)
        end
  end.

(** [Mesh::remove] on a Vertex, a Surface or a Body *)
Definition remove := removeObj.

(** [TF_MESH_GETPART(idx, inv)] *)
Definition TF_MESH_GETPART (idx : nat) (slots : list (option addr)) : option addr :=
  if (length slots <=? idx)%nat then None else mjoin (slots !! idx).

Definition getVertex (m : Mesh) (idx : nat) := TF_MESH_GETPART idx (vertices m).
Definition getSurface (m : Mesh) (idx : nat) := TF_MESH_GETPART idx (surfaces m).
Definition getBody (m : Mesh) (idx : nat) := TF_MESH_GETPART idx (bodies m).
Definition getStructure (m : Mesh) (idx : nat) := TF_MESH_GETPART idx (structures m).

(** ** Floating-point arithmetic and the particle backend

    The scalar type ([float] or [FloatP_t]), its operations and the
    particle queries are parameters: nothing below depends on rounding. *)
Variable F : Type.
Variable flit : Q -> F.
Variables fadd fsub fmul fdiv : F -> F -> F.
Variable fneg : F -> F.
Variable fsqrt : F -> F.
Variables fleb fltb : F -> F -> bool.

Definition vadd (a b : FVector3 F) : FVector3 F :=
  mkFVector3 (fadd (vx a) (vx b)) (fadd (vy a) (vy b)) (fadd (vz a) (vz b)).
Definition vsub (a b : FVector3 F) : FVector3 F :=
  mkFVector3 (fsub (vx a) (vx b)) (fsub (vy a) (vy b)) (fsub (vz a) (vz b)).
Definition vscale (a : FVector3 F) (c : F) : FVector3 F :=
  mkFVector3 (fmul (vx a) c) (fmul (vy a) c) (fmul (vz a) c).
Definition vdiv (a : FVector3 F) (c : F) : FVector3 F :=
  mkFVector3 (fdiv (vx a) c) (fdiv (vy a) c) (fdiv (vz a) c).
Definition vneg (a : FVector3 F) : FVector3 F :=
  mkFVector3 (fneg (vx a)) (fneg (vy a)) (fneg (vz a)).
Definition vdot (a b : FVector3 F) : F :=
  fadd (fadd (fmul (vx a) (vx b)) (fmul (vy a) (vy b))) (fmul (vz a) (vz b)).
Definition vcross (a b : FVector3 F) : FVector3 F :=
  mkFVector3 (fsub (fmul (vy a) (vz b)) (fmul (vz a) (vy b)))
             (fsub (fmul (vz a) (vx b)) (fmul (vx a) (vz b)))
             (fsub (fmul (vx a) (vy b)) (fmul (vy a) (vx b))).
Definition vzero : FVector3 F := mkFVector3 (flit 0) (flit 0) (flit 0).
(** [normalized()]: the vector times the inverse of its length. *)
Definition vnormalized (a : FVector3 F) : FVector3 F :=
  vscale a (fdiv (flit 1) (fsqrt (vdot a a))).

(** Magnum's [isZero()], a test against a tolerance. *)
Variable visZero : FVector3 F -> bool.

(** [particle()->relativePosition(pos).length()], from the position of
    the particle and [pos]. *)
Variable relativeLength : FVector3 F -> FVector3 F -> F.

(** The loop of [Mesh::findVertex] over the slots of [vertices]. *)
Fixpoint findVertex_loop (posOf : addr -> FVector3 F) (pos : FVector3 F) (tol : F)
    (slots : list (option addr)) : FindResult :=
  match slots with
  | [] => NotFound
  | None :: _ => FindNullDeref
  | Some v :: rest =>
      if fleb (relativeLength (posOf v) pos) tol then Found v
      else findVertex_loop posOf pos tol rest
  end.

(** [Mesh::findVertex(pos, tol)] *)
Definition findVertex (w : World F) (pos : FVector3 F) (tol : F) : FindResult :=
  findVertex_loop (w_pos w) pos tol (vertices (msh (w_state w))).

(** ** Relations between objects and vertex geometry *)

Fixpoint erase_first (x : addr) (l : list addr) : list addr :=
  match l with
  | [] => []
  | y :: l' => if decide (x = y) then l' else y :: erase_first x l'
  end.

(** Modelled from the spec: [addChild], [removeChild] and [removeParent]
    of the mesh objects (tfVertex.cpp and tfSurface.cpp are not among the
    sources).  Registering appends the reference to the relation list;
    detaching erases its first occurrence and fails when there is none. *)
Definition addChild (obj c : addr) (h : Store) : Store :=
  alter (fun o => with_children (children o ++ [c]) o) obj h.

Definition removeChild (obj c : addr) (h : Store) : Outcome * Store :=
  match h !! obj with
  | None => (NullDeref, h)
  | Some o =>
      if bool_decide (c ∈ children o)
      then (Done S_OK, <[obj := with_children (erase_first c (children o)) o]> h)
      else (Done E_FAIL, h)
  end.

Definition removeParent (obj p : addr) (h : Store) : Outcome * Store :=
  match h !! obj with
  | None => (NullDeref, h)
  | Some o =>
      if bool_decide (p ∈ parents o)
      then (Done S_OK, <[obj := with_parents (erase_first p (parents o)) o]> h)
      else (Done E_FAIL, h)
  end.

(** Modelled from the spec: [Vertex::sharedSurfaces] (tfVertex.cpp): the
    Surfaces of this vertex that the other vertex bounds as well, each
    once, in the order of this vertex's list. *)
Definition sharedSurfaces (h : Store) (v other : addr) : list addr :=
  remove_dups
    (filter (fun s => other ∈ from_option parents [] (h !! s))
            (from_option children [] (h !! v))).

(** Modelled from the spec: [Vertex::getPosition] and
    [Vertex::setPosition] read and write the position of the vertex's
    particle; writing reports success. *)
Definition getPosition (w : World F) (v : addr) : FVector3 F := w_pos w v.

Definition setPosition (v : addr) (pos : FVector3 F) (w : World F) : HRESULT * World F :=
  (S_OK, mkWorld (w_state w) (fun a => if decide (a = v) then pos else w_pos w a)).

Definition set_objs (h : Store) (w : World F) : World F :=
  mkWorld (mkState h (msh (w_state w))) (w_pos w).
Definition set_state (st : State) (w : World F) : World F :=
  mkWorld st (w_pos w).

(** [if(_solver) { positionChanged(); log(Create, ids, types, tag); }]
    at the end of an editing operation. *)
Definition edit_event (h : Store) (a b : addr) (tag : string) : MeshLogEvent :=
  let os := omap (fun p => h !! p) [a; b] in
  mkMeshLogEvent Create (map objId os) (map objType os) tag.

Definition notify_edit (a b : addr) (tag : string) (st : State) : State :=
  mkState (objs st)
    (notify (fun sv => solver_log (edit_event (objs st) a b tag) (solver_positionChanged sv))
            (msh st)).

(** ** Topology editing *)

(** [i + 1 >= size ? i + 1 - size : i + 1] *)
Definition next_index (n i : nat) : nat :=
  if (n <=? i + 1)%nat then (i + 1 - n)%nat else (i + 1)%nat.

(** The adjacency loop of [Mesh::merge] on two vertices (lines 521-533):
    [true] when it returns [E_FAIL], [false] when it breaks or runs out. *)
Fixpoint merge_scan (toKeep toRemove : addr) (vs : list addr) (idxs : list nat) : bool :=
  match idxs with
  | [] => false
  | i :: rest =>
      let vt :=
        if bool_decide (vs !! i = Some toKeep) then Some toRemove
        else if bool_decide (vs !! i = Some toRemove) then Some toKeep
        else None in
      match vt with
      | Some t => bool_decide (vs !! next_index (length vs) i ≠ Some t)
      | None => merge_scan toKeep toRemove vs rest
      end
  end.

Definition merge_rejects (toKeep toRemove : addr) (vs : list addr) : bool :=
  merge_scan toKeep toRemove vs (seq 0 (length vs)).

(** Lines 536-542: every child of [toRemove] is detached, both ways. *)
Fixpoint detach_children (v : addr) (cs : list addr) (h : Store) : Outcome * Store :=
  match cs with
  | [] => (Done S_OK, h)
  | c :: cs' =>
      match removeChild v c h with
      | (Done r, h1) =>
          if negb (r =? S_OK) then (Done E_FAIL, h1)
          else
            match removeParent c v h1 with
            | (Done r', h2) =>
                if negb (r' =? S_OK) then (Done E_FAIL, h2)
                else detach_children v cs' h2
            | other => other
            end
      | other => other
      end
  end.

(** [Mesh::merge(Vertex *toKeep, Vertex *toRemove, const float &lenCf)] *)
Definition merge_Vertex (fuel : nat) (toKeep toRemove : addr) (lenCf : F)
    (w : World F) : Outcome * World F :=
  let h := objs (w_state w) in
  match h !! toKeep, h !! toRemove with
  | Some _, Some ro =>
      match sharedSurfaces h toKeep toRemove with
      | [] => (Done E_FAIL, w)
      | s :: _ =>
          if merge_rejects toKeep toRemove (from_option parents [] (h !! s))
          then (Done E_FAIL, w)
          else
            match detach_children toRemove (children ro) h with
            | (Done r, h1) =>
                if negb (r =? S_OK) then (Done E_FAIL, set_objs h1 w)
                else
                  match remove fuel toRemove (w_state (set_objs h1 w)) with
                  | (Done r2, st2) =>
                      let w2 := set_state st2 w in
                      if negb (r2 =? S_OK) then (Done E_FAIL, w2)
                      else
                        let posToKeep := getPosition w2 toKeep in
                        let newPos :=
                          vadd posToKeep
                               (vscale (vsub (getPosition w2 toRemove) posToKeep) lenCf) in
                        let '(r3, w3) := setPosition toKeep newPos w2 in
                        if negb (r3 =? S_OK) then (Done E_FAIL, w3)
                        else (Done S_OK,
                              set_state (notify_edit toKeep toRemove "merge" (w_state w3)) w3)
                  | (other, st2) => (other, set_state st2 w)
                  end
            | (other, h1) => (other, set_objs h1 w)
            end
      end
  | _, _ => (NullDeref, w)
  end.

(** The inner loop of [Mesh::insert] (lines 366-377): the first index
    whose vertex and cyclic successor are [v1] and [v2] in either order. *)
Fixpoint insert_scan (v1 v2 : addr) (vs : list addr) (idxs : list nat) : option nat :=
  match idxs with
  | [] => None
  | i :: rest =>
      let nidx := next_index (length vs) i in
      if bool_decide ((vs !! i = Some v1 /\ vs !! nidx = Some v2) \/
                      (vs !! i = Some v2 /\ vs !! nidx = Some v1))
      then Some i
      else insert_scan v1 v2 vs rest
  end.

(** [vec.insert(vec.begin() + k, x)] *)
Definition vector_insert (k : nat) (x : addr) (vs : list addr) : list addr :=
  take k vs ++ x :: drop k vs.

Definition insert_on_surface (toInsert v1 v2 : addr) (h : Store) (s1 : addr) : Store :=
  match h !! s1 with
  | None => h
  | Some so =>
      let vs := parents so in
      match insert_scan v1 v2 vs (seq 0 (length vs)) with
      | Some i =>
          let k := if bool_decide (S i = length vs) then 0%nat else S i in
          addChild toInsert s1 (<[s1 := with_parents (vector_insert k toInsert vs) so]> h)
      | None => h
      end
  end.

(** [Mesh::insert(toInsert, v1, v2)] *)
Definition Mesh_insert (toInsert v1 v2 : addr) (st : State) : Outcome * State :=
  match objs st !! v1 with
  | None => (NullDeref, st)
  | Some o1 =>
      let h1 := foldl (insert_on_surface toInsert v1 v2) (objs st) (children o1) in
      match add_Vertex toInsert (mkState h1 (msh st)) with
      | (Done r, st2) =>
          if negb (r =? S_OK) then (Done E_FAIL, st2)
          else (Done S_OK, notify_edit v1 v2 "insert" st2)
      | other => other
      end
  end.

(** [Surface::contiguousEdgeLabels] is in tfSurface.cpp, not among the
    sources: for a Surface and another one it labels each boundary
    index, 0 where the two do not touch. *)
Variable contiguousEdgeLabels : Store -> addr -> addr -> list nat.

(** Lines 401-405 of [Mesh::replace] on a Surface: the gathering of the
    contacting Surfaces, with the test as the source writes it. *)
Definition gather_step (toReplace : addr) (connectedSurfaces : list addr) (s : addr)
  : list addr :=
  if bool_decide (s ≠ toReplace) && bool_decide (s ∈ connectedSurfaces)
  then connectedSurfaces ++ [s]
  else connectedSurfaces.

Definition gather_connected (h : Store) (toReplace : addr) : list addr :=
  foldl (fun acc v => foldl (gather_step toReplace) acc (from_option children [] (h !! v)))
        [] (from_option parents [] (h !! toReplace)).

(** Lines 414-423: the vertices of [s] labelled 1; [None] when a label
    above 1 is met. *)
Fixpoint labelled_vertices (labels : list nat) (vs : list addr) (i : nat)
  : option (list addr) :=
  match labels with
  | [] => Some []
  | lab :: labels' =>
      if (0 <? lab)%nat then
        if (1 <? lab)%nat then None
        else (fun l => from_option (fun v => v :: l) l (vs !! i))
               <$> labelled_vertices labels' vs (S i)
      else labelled_vertices labels' vs (S i)
  end.

(** [vec.insert(std::find(vec.begin(), vec.end(), x0), x)] *)
Fixpoint insert_before (x0 x : addr) (vs : list addr) : list addr :=
  match vs with
  | [] => [x]
  | y :: vs' => if decide (y = x0) then x :: y :: vs' else y :: insert_before x0 x vs'
  end.

(** Lines 411-432 for one contacting Surface [s]. *)
Definition replace_on_surface (toInsert toReplace : addr)
    (acc : Outcome * Store * list addr) (s : addr) : Outcome * Store * list addr :=
  match acc with
  | (Done r, h, totalToRemove) =>
      if negb (r =? S_OK) then acc
      else
        match h !! s with
        | None => (NullDeref, h, totalToRemove)
        | Some so =>
            match labelled_vertices (contiguousEdgeLabels h s toReplace) (parents so) 0 with
            | None => (Done E_FAIL, h, totalToRemove)
            | Some [] => (NullDeref, h, totalToRemove)
            | Some (v0 :: rest) =>
                let h1 := <[s := with_parents (insert_before v0 toInsert (parents so)) so]> h in
                let h2 := addChild toInsert s h1 in
                let h3 := foldl (fun hh v => (removeChild v s (removeParent s v hh).2).2)
                                h2 (v0 :: rest) in
                (Done S_OK, h3, totalToRemove ++ v0 :: rest)
            end
        end
  | other => other
  end.

(** [Mesh::replace(Vertex *toInsert, Surface *toReplace)] *)
Definition replace_Surface (fuel : nat) (toInsert toReplace : addr) (st : State)
  : Outcome * State :=
  let connectedSurfaces := gather_connected (objs st) toReplace in
  match foldl (replace_on_surface toInsert toReplace) (Done S_OK, objs st, [])
              connectedSurfaces with
  | (Done r, h1, totalToRemove) =>
      let st1 := mkState h1 (msh st) in
      if negb (r =? S_OK) then (Done E_FAIL, st1)
      else
        match removeObj fuel toReplace st1 with
        | (Done r1, st2) =>
            if negb (r1 =? S_OK) then (Done E_FAIL, st2)
            else
              match remove_each (removeObj fuel) totalToRemove st2 with
              | (Done r2, st3) =>
                  if negb (r2 =? S_OK) then (Done E_FAIL, st3)
                  else
                    match add_Vertex toInsert st3 with
                    | (Done r3, st4) =>
                        if negb (r3 =? S_OK) then (Done E_FAIL, st4)
                        else (Done S_OK, notify_edit toInsert toReplace "replace" st4)
                    | other => other
                    end
              | other => other
              end
        | other => other
        end
  | (other, h1, _) => (other, mkState h1 (msh st))
  end.

(** Modelled from the spec: object construction (the constructors, the
    particle-type factory and the Surface and Body type descriptors are
    not among the sources).  Objects are created unregistered, with
    identifier -1 and no mesh (section 3, Lifecycle); a Surface is built
    from a vertex list and a Body from a surface list, and the
    constructor makes the internal connections (line 496); a Surface is
    sound when its boundary has at least 3 vertices. *)
Definition fresh_addr (h : Store) : addr :=
  S (map_fold (fun k _ m => Nat.max k m) 0%nat h).

Definition new_Vertex (pos : FVector3 F) (w : World F) : addr * World F :=
  let h := objs (w_state w) in
  let a := fresh_addr h in
  (a, mkWorld (mkState (<[a := mkMeshObj (-1) None VERTEX [] [] true]> h) (msh (w_state w)))
              (fun b => if decide (b = a) then pos else w_pos w b)).

Definition new_composite (k : ObjType) (sound : bool) (ps : list addr) (w : World F)
  : option addr * World F :=
  let h := objs (w_state w) in
  let a := fresh_addr h in
  let h1 := <[a := mkMeshObj (-1) None k ps [] sound]> h in
  (Some a, set_objs (foldl (fun hh p => addChild p a hh) h1 ps) w).

Definition SurfaceType_call (vs : list addr) (w : World F) : option addr * World F :=
  new_composite SURFACE (3 <=? length vs)%nat vs w.

Definition BodyType_call (ss : list addr) (w : World F) : option addr * World F :=
  new_composite BODY true ss w.

(** Modelled from the spec: the two cyclic neighbours of a vertex on a
    boundary and the neighbours of a vertex over all its Surfaces, each
    once.  They stand for [Surface::neighborVertices] and
    [Vertex::neighborVertices] in the sample runs. *)
Definition index_of (v : addr) (vs : list addr) : option nat :=
  fst <$> list_find (fun x => x = v) vs.

Definition prev_index (n i : nat) : nat :=
  if (i =? 0)%nat then (n - 1)%nat else (i - 1)%nat.

Definition cyclic_neighbours (h : Store) (s v : addr) : option (addr * addr) :=
  let vs := from_option parents [] (h !! s) in
  match index_of v vs with
  | Some i =>
      match vs !! next_index (length vs) i, vs !! prev_index (length vs) i with
      | Some va, Some vb => Some (va, vb)
      | _, _ => None
      end
  | None => None
  end.

Definition vertex_neighbours (h : Store) (v : addr) : list addr :=
  remove_dups
    (concat (map (fun s =>
                    match cyclic_neighbours h s v with
                    | Some (va, vb) => [va; vb]
                    | None => []
                    end)
                 (from_option children [] (h !! v)))).

(** [Vertex::neighborVertices()] and [Surface::neighborVertices(v)] are in
    tfVertex.cpp and tfSurface.cpp, not among the sources; the second
    answers a pair of pointers, [None] when they are null. *)
Variable Vertex_neighborVertices : Store -> addr -> list addr.
Variable Surface_neighborVertices : Store -> addr -> addr -> option (addr * addr).

Definition lift_state (r : Outcome * State) (w : World F) : Outcome * World F :=
  (r.1, set_state r.2 w).

(** Lines 471-487 of [Mesh::replace] on a Vertex: one new vertex per
    neighbour; [Done None] is [return NULL]. *)
Fixpoint fan_insert (toReplace : addr) (pos0 : FVector3 F)
    (neighbors : list addr) (lenCfs : list F) (insertedVertices : list addr)
    (w : World F) : Result (option (list addr)) * World F :=
  match neighbors, lenCfs with
  | v :: neighbors', cf :: lenCfs' =>
      if fleb cf (flit 0) || fleb (flit 1) cf then (Done None, w)
      else
        let pos1 := getPosition w v in
        let pos := vadd pos0 (vscale (vsub pos1 pos0) cf) in
        let '(vInserted, w1) := new_Vertex pos w in
        match lift_state (Mesh_insert vInserted toReplace v (w_state w1)) w1 with
        | (Done r, w2) =>
            if negb (r =? S_OK) then (Done None, w2)
            else fan_insert toReplace pos0 neighbors' lenCfs'
                            (insertedVertices ++ [vInserted]) w2
        | (NullDeref, w2) => (NullDeref, w2)
        | (OutOfFuel, w2) => (OutOfFuel, w2)
        end
  | _, _ => (Done (Some insertedVertices), w)
  end.

(** [Mesh::replace(SurfaceType *toInsert, Vertex *toReplace,
    std::vector<float> lenCfs)]; [Done None] is [return NULL]. *)
Definition replace_Vertex (fuel : nat) (toReplace : addr) (lenCfs : list F)
    (w : World F) : Result (option addr) * World F :=
  let h := objs (w_state w) in
  let neighbors := Vertex_neighborVertices h toReplace in
  if negb (length lenCfs =? length neighbors)%nat then (Done None, w)
  else if existsb (fun cf => fleb cf (flit 0) || fleb (flit 1) cf) lenCfs
  then (Done None, w)
  else
    match fan_insert toReplace (getPosition w toReplace) neighbors lenCfs [] w with
    | (Done (Some insertedVertices), w1) =>
        let h1 := objs (w_state w1) in
        let h2 := foldl (fun hh s => (removeChild toReplace s (removeParent s toReplace hh).2).2)
                        h1 (from_option children [] (h1 !! toReplace)) in
        let '(inserted, w3) := SurfaceType_call insertedVertices (set_objs h2 w1) in
        match removeObj fuel toReplace (w_state w3) with
        | (OutOfFuel, st4) => (OutOfFuel, set_state st4 w3)
        | (_, st4) =>
            let w4 := set_state st4 w3 in
            match inserted with
            | Some ins =>
                let w5 := set_state (add_Surface ins (w_state w4)).2 w4 in
                (Done (Some ins),
                 set_state (notify_edit ins toReplace "replace" (w_state w5)) w5)
            | None => (NullDeref, w4)
            end
        end
    | (Done None, w1) => (Done None, w1)
    | (NullDeref, w1) => (NullDeref, w1)
    | (OutOfFuel, w1) => (OutOfFuel, w1)
    end.

(** *** Extrusion of a Surface into a Body *)

(** The integer a null pointer converts to. *)
Definition NULL : HRESULT := 0.

(** [Mesh_surfaceOutwardNormal(s, b1, b2, onorm)]: the returned code and
    the value of the reference parameter [onorm] afterwards. *)
Definition Mesh_surfaceOutwardNormal (snormal : FVector3 F) (b1 b2 : option addr)
    (onorm : FVector3 F) : HRESULT * FVector3 F :=
  match b1, b2 with
  | Some _, Some _ => (NULL, onorm)
  | Some _, None => (S_OK, snormal)
  | None, Some _ => (S_OK, vneg snormal)
  | None, None => (S_OK, snormal)
  end.

(** [b1] and [b2] of a Surface once [refreshBodies()] has run, and
    [Surface::getNormal()]: tfSurface.cpp is not among the sources. *)
Variable Surface_bodies : Store -> addr -> option addr * option addr.
Variable Surface_getNormal : World F -> addr -> FVector3 F.

(** Lines 773-777: the ring of new vertices. *)
Fixpoint extrude_ring (disp : FVector3 F) (vs : list addr) (w : World F)
  : list addr * World F :=
  match vs with
  | [] => ([], w)
  | v :: vs' =>
      let '(nv, w1) := new_Vertex (vadd (getPosition w v) disp) w in
      let '(ring, w2) := extrude_ring disp vs' w1 in
      (nv :: ring, w2)
  end.

(** Lines 780-791: one lateral Surface per edge; [None] is [return NULL]. *)
Fixpoint extrude_laterals (base newVertices : list addr) (idxs : list nat) (w : World F)
  : option (list addr) * World F :=
  match idxs with
  | [] => (Some [], w)
  | i :: rest =>
      let j := next_index (length base) i in
      let quad := omap id [base !! i; base !! j; newVertices !! j; newVertices !! i] in
      match SurfaceType_call quad w with
      | (Some s, w1) =>
          let '(r, w2) := extrude_laterals base newVertices rest w1 in
          ((fun l => s :: l) <$> r, w2)
      | (None, w1) => (None, w1)
      end
  end.

(** Lines 768-806 of [Mesh::extrude] into a Body, from the normal the
    guard leaves in [normal]. *)
Definition extrude_build (base : addr) (normal : FVector3 F) (normLen : F) (w : World F)
  : Result (option addr) * World F :=
  let vs := from_option parents [] (objs (w_state w) !! base) in
  let disp := vscale normal normLen in
  let '(newVertices, w1) := extrude_ring disp vs w in
  match extrude_laterals vs newVertices (seq 0 (length vs)) w1 with
  | (None, w2) => (Done None, w2)
  | (Some laterals, w2) =>
      let '(cap, w3) := SurfaceType_call newVertices w2 in
      let newSurfaces := laterals ++ base :: omap id [cap] in
      match BodyType_call newSurfaces w3 with
      | (None, w4) => (Done None, w4)
      | (Some b, w4) =>
          let w5 := set_state (add_Body b (w_state w4)).2 w4 in
          (Done (Some b), set_state (notify_edit base b "extrude" (w_state w5)) w5)
      end
  end.

(** [Mesh::extrude(Surface *base, BodyType *btype, const float &normLen)].
    [FVector3 normal;] is default-constructed, to zero. *)
Definition extrude_Body (base : addr) (normLen : F) (w : World F)
  : Result (option addr) * World F :=
  let '(b1, b2) := Surface_bodies (objs (w_state w)) base in
  let '(r, normal) := Mesh_surfaceOutwardNormal (Surface_getNormal w base) b1 b2 vzero in
  if negb (r =? S_OK) then (Done None, w)
  else extrude_build base normal normLen w.

(** ** Constraint actors *)

Variable getMass : addr -> F.
Variable Engine_dt : F.
Variable Surface_getCentroid : World F -> addr -> FVector3 F.
Variable Surface_triangleNormal : World F -> addr -> nat -> FVector3 F.
Variable Body_getArea : World F -> addr -> F.

Definition fnat (n : nat) : F := flit (inject_Z (Z.of_nat n)).

(** [ConvexPolygonConstraint_acts(vc, s, rel_c2ab)]: the answer and the
    value left in [rel_c2ab], default-constructed by both callers. *)
Definition ConvexPolygonConstraint_acts (w : World F) (vc s : addr)
  : Result (bool * FVector3 F) :=
  let vs := from_option parents [] (objs (w_state w) !! s) in
  if (length vs <=? 3)%nat then Done (false, vzero)
  else
    match Surface_neighborVertices (objs (w_state w)) s vc with
    | None => NullDeref
    | Some (va, vb) =>
        let posva := getPosition w va in
        let posvb := getPosition w vb in
        let posvc := getPosition w vc in
        let numVerts := fnat (length vs) in
        let cent_loo :=
          vdiv (vsub (vscale (Surface_getCentroid w s) numVerts) posvc)
               (fsub numVerts (flit 1)) in
        let lineDir := vsub posvb posva in
        if visZero lineDir then Done (false, vzero)
        else
          let lineDir := vnormalized lineDir in
          let rel_c2ab :=
            vsub (vadd posva (vscale lineDir (vdot (vsub posvc posva) lineDir))) posvc in
          let rel_cent2ab :=
            vsub (vadd posva (vscale lineDir (vdot (vsub cent_loo posva) lineDir))) cent_loo in
          Done (fltb (flit 0) (vdot rel_c2ab rel_cent2ab), rel_c2ab)
    end.

(** [ConvexPolygonConstraint::energy(source, target, e)]: the value of
    [e] afterwards. *)
Definition ConvexPolygonConstraint_energy (lam : F) (w : World F) (s vc : addr) (e : F)
  : Result F :=
  match ConvexPolygonConstraint_acts w vc s with
  | Done (true, rel_c2ab) =>
      Done (fadd e (fmul (fdiv (fmul (fdiv (getMass vc) Engine_dt) lam) (flit 2))
                         (vdot rel_c2ab rel_c2ab)))
  | Done (false, _) => Done e
  | NullDeref => NullDeref
  | OutOfFuel => OutOfFuel
  end.

(** [ConvexPolygonConstraint::force(source, target, f)]: the three
    entries of [f] afterwards. *)
Definition ConvexPolygonConstraint_force (lam : F) (w : World F) (s vc : addr)
    (f : FVector3 F) : Result (FVector3 F) :=
  match ConvexPolygonConstraint_acts w vc s with
  | Done (true, rel_c2ab) =>
      Done (vadd f (vscale (vdiv (vscale rel_c2ab (getMass vc)) Engine_dt) lam))
  | Done (false, _) => Done f
  | NullDeref => NullDeref
  | OutOfFuel => OutOfFuel
  end.

(** [SurfaceAreaConstraint::energy(source, target, e)]: the value of [e]
    afterwards. *)
Definition SurfaceAreaConstraint_energy (lam constr : F) (w : World F) (b v : addr) (e : F)
  : F :=
  let darea := fsub (Body_getArea w b) constr in
  fmul (fmul lam darea) darea.

(** Modelled from the spec: [s->in(b)] for a Surface and a Body: the
    Surface is one of the Body's bounding Surfaces (tfMeshObj is not
    among the sources). *)
Definition Surface_in (h : Store) (s b : addr) : bool :=
  bool_decide (s ∈ from_option parents [] (h !! b)).

(** Lines 48-67 of [SurfaceAreaConstraint::force]: the term of one
    Surface [s] of the vertex [v].  [idxc] is the last index at which
    the boundary holds [v]; the source leaves it uninitialised when there
    is none, the model takes 0. *)
Definition SurfaceAreaConstraint_surface_term (w : World F) (s v : addr) : FVector3 F :=
  let svertices := from_option parents [] (objs (w_state w) !! s) in
  let n := length svertices in
  let posAt i := getPosition w (default 0%nat (svertices !! i)) in
  let idxc :=
    foldl (fun c idx => if bool_decide (svertices !! idx = Some v) then idx else c)
          0%nat (seq 0 n) in
  let sftotal :=
    foldl (fun acc idx =>
             vadd acc
               (vcross (vnormalized (Surface_triangleNormal w s idx))
                       (vsub (posAt (if (idx =? n - 1)%nat then 0%nat else S idx))
                             (posAt idx))))
          vzero (seq 0 n) in
  let sftotal := vdiv sftotal (fnat n) in
  let idxp := if (idxc =? 0)%nat then (n - 1)%nat else (idxc - 1)%nat in
  let idxn := if (idxc =? n - 1)%nat then 0%nat else S idxc in
  let scentroid := Surface_getCentroid w s in
  let sftotal :=
    vadd sftotal (vcross (vnormalized (Surface_triangleNormal w s idxc))
                         (vsub scentroid (posAt idxn))) in
  vsub sftotal (vcross (vnormalized (Surface_triangleNormal w s idxp))
                       (vsub scentroid (posAt idxp))).

(** [SurfaceAreaConstraint::force(source, target, f)]: the three entries
    of [f] afterwards. *)
Definition SurfaceAreaConstraint_force (lam constr : F) (w : World F) (b v : addr)
    (f : FVector3 F) : FVector3 F :=
  let h := objs (w_state w) in
  let ftotal :=
    foldl (fun acc s =>
             if negb (Surface_in h s b) then acc
             else vadd acc (SurfaceAreaConstraint_surface_term w s v))
          vzero (from_option children [] (h !! v)) in
  let ftotal := vscale ftotal (fmul lam (fsub constr (Body_getArea w b))) in
  vadd f ftotal.

(** ** Validation, connectivity and the matching of a Surface merge *)

(** [Mesh_validateInv(inv)]: [o->validate()] is called through every
    slot, the null ones included. *)
Fixpoint Mesh_validateInv (h : Store) (slots : list (option addr)) : Result bool :=
  match slots with
  | [] => Done true
  | None :: _ => NullDeref
  | Some a :: rest =>
      match h !! a with
      | None => NullDeref
      | Some o => if negb (validate o) then Done false else Mesh_validateInv h rest
      end
  end.

(** [Mesh::validate()] *)
Definition Mesh_validate (st : State) : Result bool :=
  let h := objs st in
  match Mesh_validateInv h (vertices (msh st)) with
  | Done true =>
      match Mesh_validateInv h (surfaces (msh st)) with
      | Done true =>
          match Mesh_validateInv h (bodies (msh st)) with
          | Done true => Mesh_validateInv h (structures (msh st))
          | other => other
          end
      | other => other
      end
  | other => other
  end.

(** The inner loop of [Mesh::connected] on two vertices (lines 305-307):
    [vitr] starts at the second boundary entry and [prev] is
    [*(vitr - 1)]. *)
Fixpoint connected_scan (v1 v2 prev : addr) (rest : list addr) : bool :=
  match rest with
  | [] => false
  | x :: rest' =>
      if bool_decide ((x = v1 /\ prev = v2) \/ (x = v2 /\ prev = v1)) then true
      else connected_scan v1 v2 x rest'
  end.

(** The outer loop, over [v1->surfaces].  On an empty boundary
    [begin() + 1] lies past the end, which is undefined in the source and
    a fault here. *)
Fixpoint connected_surfaces (h : Store) (v1 v2 : addr) (ss : list addr) : Result bool :=
  match ss with
  | [] => Done false
  | s1 :: ss' =>
      match h !! s1 with
      | None => NullDeref
      | Some so =>
          match parents so with
          | [] => NullDeref
          | first :: rest =>
              if connected_scan v1 v2 first rest then Done true
              else connected_surfaces h v1 v2 ss'
          end
      end
  end.

(** [Mesh::connected(Vertex *v1, Vertex *v2)] *)
Definition connected_Vertex (h : Store) (v1 v2 : addr) : Result bool :=
  match h !! v1 with
  | None => NullDeref
  | Some o1 => connected_surfaces h v1 v2 (children o1)
  end.

(** Magnum's [length()] *)
Definition vlength (a : FVector3 F) : F := fsqrt (vdot a a).

(** The body of the inner matching loop of [Mesh::merge] on two Surfaces
    (lines 589-593): [mv] and [bestDist] after it has run on [rv]. *)
Definition match_step (w : World F) (kp : FVector3 F) (toRemoveOrdered : list addr)
    (acc : option addr * F) (rv : addr) : option addr * F :=
  let dist := vlength (vsub (getPosition w rv) kp) in
  if (bool_decide (acc.1 = None) || fltb dist acc.2)
     && bool_decide (rv ∉ toRemoveOrdered)
  then (Some rv, dist) else acc.

(** Lines 583-600: the matching of the vertices of the removed Surface
    [rvs] to the vertices [toKeepExcl] of the kept one; [None] is
    [return E_FAIL]. *)
Fixpoint match_vertices (w : World F) (rvs toKeepExcl toRemoveOrdered : list addr)
  : option (list addr) :=
  match toKeepExcl with
  | [] => Some toRemoveOrdered
  | kv :: rest =>
      match (foldl (match_step w (getPosition w kv) toRemoveOrdered) (None, flit 0) rvs).1 with
      | None => None
      | Some mv => match_vertices w rvs rest (toRemoveOrdered ++ [mv])
      end
  end.

(** ** Growing a Surface from one of its edges *)

(** The member [normal] of a Surface (tfSurface.h is not among the
    sources). *)
Variable Surface_normal : World F -> addr -> FVector3 F.

(** [vertIdxStart == base->vertices.size() - 1 ? 0 : vertIdxStart + 1] *)
Definition edge_end (n idx : nat) : nat :=
  if (idx =? n - 1)%nat then 0%nat else S idx.

(** The tail shared by [Mesh::extend] and [Mesh::extrude] on an edge
    (lines 679-688 and 713-723): the new Surface is constructed and added,
    the result of the add is dropped, the solver is told and the Surface
    is returned. *)
Definition finish_Surface (base : addr) (vs : list addr) (tag : string) (w : World F)
  : Result (option addr) * World F :=
  match SurfaceType_call vs w with
  | (Some s, w1) =>
      let w2 := set_state (add_Surface s (w_state w1)).2 w1 in
      (Done (Some s), set_state (notify_edit base s tag (w_state w2)) w2)
  | (None, w1) => (NullDeref, w1)
  end.

(** [Mesh::extend(Surface *base, const unsigned int &vertIdxStart,
    const FVector3 &pos)]; [Done None] is [return NULL]. *)
Definition extend_Surface (base : addr) (vertIdxStart : nat) (pos : FVector3 F)
    (w : World F) : Result (option addr) * World F :=
  match objs (w_state w) !! base with
  | None => (NullDeref, w)
  | Some bo =>
      let vs := parents bo in
      if (length vs <=? vertIdxStart)%nat then (Done None, w)
      else
        match vs !! vertIdxStart, vs !! edge_end (length vs) vertIdxStart with
        | Some v0, Some v1 =>
            let '(vert, w1) := new_Vertex pos w in
            finish_Surface base [v0; v1; vert] "extend" w1
        | _, _ => (NullDeref, w)
        end
  end.

(** [Mesh::extrude(Surface *base, const unsigned int &vertIdxStart,
    const float &normLen)]; [Done None] is [return NULL]. *)
Definition extrude_Surface (base : addr) (vertIdxStart : nat) (normLen : F)
    (w : World F) : Result (option addr) * World F :=
  match objs (w_state w) !! base with
  | None => (NullDeref, w)
  | Some bo =>
      let vs := parents bo in
      if (length vs <=? vertIdxStart)%nat then (Done None, w)
      else
        match vs !! vertIdxStart, vs !! edge_end (length vs) vertIdxStart with
        | Some v0, Some v1 =>
            let disp := vscale (Surface_normal w base) normLen in
            let pos2 := vadd (getPosition w v0) disp in
            let pos3 := vadd (getPosition w v1) disp in
            let '(v2, w1) := new_Vertex pos2 w in
            let '(v3, w2) := new_Vertex pos3 w1 in
            finish_Surface base [v0; v1; v2; v3] "extrude" w2
        | _, _ => (NullDeref, w)
        end
  end.

(** ** Growing a Body from a Surface and an apex *)

(** Lines 731-740 of [Mesh::extend] into a Body: one triangle per edge of
    the base, on the edge and the new vertex; [None] is [return NULL]. *)
Fixpoint extend_triangles (base : list addr) (vNew : addr) (idxs : list nat) (w : World F)
  : option (list addr) * World F :=
  match idxs with
  | [] => (Some [], w)
  | i :: rest =>
      let tri := omap id [base !! i; base !! edge_end (length base) i] ++ [vNew] in
      match SurfaceType_call tri w with
      | (Some s, w1) =>
          let '(r, w2) := extend_triangles base vNew rest w1 in
          ((fun l => s :: l) <$> r, w2)
      | (None, w1) => (None, w1)
      end
  end.

(** [Mesh::extend(Surface *base, BodyType *btype, const FVector3 &pos)];
    [Done None] is [return NULL]. *)
Definition extend_Body (base : addr) (pos : FVector3 F) (w : World F)
  : Result (option addr) * World F :=
  let vs := from_option parents [] (objs (w_state w) !! base) in
  let '(vNew, w1) := new_Vertex pos w in
  match extend_triangles vs vNew (seq 0 (length vs)) w1 with
  | (None, w2) => (Done None, w2)
  | (Some tris, w2) =>
      match BodyType_call (base :: tris) w2 with
      | (None, w3) => (Done None, w3)
      | (Some b, w3) =>
          let w4 := set_state (add_Body b (w_state w3)).2 w3 in
          (Done (Some b), set_state (notify_edit base b "extend" (w_state w4)) w4)
      end
  end.

(** * Properties

    The predicates the theorems are stated with. *)

(** ** The inventory invariant (section 3 of the specification) *)

(** A slot that holds an object holds a live one: the object exists, its
    identifier is the slot index, its back-reference is this mesh and it
    is of the inventory's variant. *)
Definition slots_ok (h : Store) (m : Mesh) : Prop :=
  forall k i a, inv (inventory k m) !! i = Some (Some a) ->
    exists o, h !! a = Some o /\ objId o = Z.of_nat i /\
              mesh o = Some this /\ objType o = k.

(** A slot is null exactly when its index is in the available set. *)
Definition avail_ok (m : Mesh) : Prop :=
  forall k i, i ∈ availIds (inventory k m) <-> inv (inventory k m) !! i = Some None.

(** An object that claims an identifier of this mesh sits in that slot. *)
Definition stored_ok (h : Store) (m : Mesh) : Prop :=
  forall a o, h !! a = Some o -> 0 <= objId o -> mesh o = Some this ->
    inv (inventory (objType o) m) !! Z.to_nat (objId o) = Some (Some a).

Definition inventory_inv (st : State) : Prop :=
  slots_ok (objs st) (msh st) /\ avail_ok (msh st) /\ stored_ok (objs st) (msh st).

(** What the C++ types give: the [vertices] of a Surface are Vertex
    objects and the [surfaces] of a Body are Surface objects. *)
Definition parent_type_ok (k p : ObjType) : bool :=
  match k with
  | SURFACE => bool_decide (p = VERTEX)
  | BODY => bool_decide (p = SURFACE)
  | _ => true
  end.

Definition obj_typed (h : Store) (o : MeshObj) : Prop :=
  Forall (fun p => from_option (parent_type_ok (objType o)) true (objType <$> h !! p) = true)
         (parents o).

Definition store_typed (h : Store) : Prop :=
  map_Forall (fun _ o => obj_typed h o) h.

Definition mesh_inv (st : State) : Prop :=
  inventory_inv st /\ store_typed (objs st).

(** A freshly constructed mesh among objects none of which refers to it. *)
Definition fresh_state (st : State) : Prop :=
  (forall k, inventory k (msh st) = mkInventory [] ∅) /\
  map_Forall (fun _ o => mesh o ≠ Some this) (objs st) /\
  store_typed (objs st).

Definition type_at (st : State) (p : addr) : option ObjType :=
  objType <$> objs st !! p.

Definition typed_as (k : ObjType) (st : State) (a : addr) : Prop :=
  forall o, objs st !! a = Some o -> objType o = k.

(** What every add guarantees from a state that satisfies the invariant. *)
Definition add_ok (st : State) (r : Outcome * State) : Prop :=
  mesh_inv r.2 /\ forall q, type_at r.2 q = type_at st q.

(** *** Sequences of operations *)

Inductive MeshOp :=
  | OpAdd (k : ObjType) (fuel : nat) (obj : addr)
  | OpRemove (fuel : nat) (obj : addr).

Definition run_op (op : MeshOp) (st : State) : Outcome * State :=
  match op with
  | OpAdd VERTEX _ a => add_Vertex a st
  | OpAdd SURFACE _ a => add_Surface a st
  | OpAdd BODY _ a => add_Body a st
  | OpAdd STRUCTURE fuel a => add_Structure fuel a st
  | OpRemove fuel a => removeObj fuel a st
  end.

(** The overload of [Mesh::add] is the one of the argument's type. *)
Definition op_typed (h : Store) (op : MeshOp) : Prop :=
  match op with
  | OpAdd k _ a => forall o, h !! a = Some o -> objType o = k
  | OpRemove _ _ => True
  end.

(** What the rest of the program may do to the objects between two mesh
    operations: construct objects that do not refer to this mesh and
    rewire parents and children; identifiers and back-references are
    written by the mesh alone. *)
Definition external_change (h h' : Store) : Prop :=
  (forall a o, h !! a = Some o ->
     exists o', h' !! a = Some o' /\ objId o' = objId o /\ mesh o' = mesh o /\
                objType o' = objType o) /\
  (forall a o', h !! a = None -> h' !! a = Some o' -> mesh o' ≠ Some this) /\
  store_typed h'.

Inductive mesh_step : State -> State -> Prop :=
  | step_op op st r st' :
      op_typed (objs st) op -> run_op op st = (r, st') -> mesh_step st st'
  | step_external st h' :
      external_change (objs st) h' -> mesh_step st (mkState h' (msh st)).

(** What a removal may do to the rest of the state: objects keep their
    type and relations and either keep or lose their registration, and a
    null slot stays null. *)
Definition removal_frame (st st' : State) : Prop :=
  (forall a, objs st !! a = None -> objs st' !! a = None) /\
  (forall a o, objs st !! a = Some o ->
     exists o', objs st' !! a = Some o' /\ objType o' = objType o /\
       parents o' = parents o /\ children o' = children o /\
       validate o' = validate o /\
       ((objId o' = objId o /\ mesh o' = mesh o) \/ (objId o' = -1 /\ mesh o' = None))) /\
  (forall k i, inv (inventory k (msh st)) !! i = Some None ->
               inv (inventory k (msh st')) !! i = Some None).

(** *** Identifier uniqueness, as the specification words it *)

(** A live object: it holds an identifier of this mesh. *)
Definition registered (o : MeshObj) : Prop :=
  0 <= objId o /\ mesh o = Some this.

(** No two live objects of the same variant share an identifier. *)
Definition ids_unique (st : State) : Prop :=
  forall a b oa ob,
    objs st !! a = Some oa -> objs st !! b = Some ob ->
    registered oa -> registered ob ->
    objType oa = objType ob -> objId oa = objId ob -> a = b.

(** A slot is null with its index available, or holds one live object
    whose stored identifier is the slot index. *)
Definition slots_exact (st : State) : Prop :=
  forall k i x, inv (inventory k (msh st)) !! i = Some x ->
    match x with
    | None => i ∈ availIds (inventory k (msh st))
    | Some a =>
        (i ∉ availIds (inventory k (msh st))) /\
        exists o, objs st !! a = Some o /\ objId o = Z.of_nat i /\
                  mesh o = Some this /\ objType o = k
    end.

(** A live identifier indexes exactly one slot, the one of its object. *)
Definition ids_index_slots (st : State) : Prop :=
  forall a o, objs st !! a = Some o -> registered o ->
    forall j, inv (inventory (objType o) (msh st)) !! j = Some (Some a) <->
              j = Z.to_nat (objId o).

(** *** Cyclic adjacency, as the specification words it *)

(** Two vertices are cyclically adjacent on a boundary when one follows
    the other, the last index being followed by index 0. *)
Definition cyclically_adjacent (vs : list addr) (a b : addr) : Prop :=
  exists i, (i < length vs)%nat /\
    ((vs !! i = Some a /\ vs !! next_index (length vs) i = Some b) \/
     (vs !! i = Some b /\ vs !! next_index (length vs) i = Some a)).

(** Objects keep their registration and type; relations may change. *)
Definition relinked (h h' : Store) : Prop :=
  forall a,
    match h !! a, h' !! a with
    | Some o, Some o' =>
        objId o' = objId o /\ mesh o' = mesh o /\ objType o' = objType o
    | None, None => True
    | _, _ => False
    end.

(** Objects keep their parents and children. *)
Definition same_relations (h h' : Store) : Prop :=
  forall a o, h !! a = Some o ->
    exists o', h' !! a = Some o' /\ parents o' = parents o /\ children o' = children o.

(** The addresses of the objects registered with this mesh: the measure
    of the cascade of [removeObj]. *)
Definition registered_addrs (st : State) : gset addr :=
  dom (filter (fun kv : addr * MeshObj => 0 <= objId kv.2 /\ mesh kv.2 = Some this)
              (objs st)).

(** *** The cascade of a removal and the reach of an add *)

(** [c] is one of the children of the object at [a]. *)
Definition child_of (h : Store) (a c : addr) : Prop :=
  exists o, h !! a = Some o /\ c ∈ children o.

(** What the cascade of [removeObj] on [a] reaches: [a] itself and,
    through the children lists, everything below it. *)
Definition descendant (h : Store) : relation addr := rtc (child_of h).

(** The object as [removeObj] leaves it (lines 238-239). *)
Definition unregistered (o : MeshObj) : MeshObj := with_mesh None (with_objId (-1) o).

(** Every object that holds an identifier is left exactly as it is. *)
Definition keeps_registered (st st' : State) : Prop :=
  forall b o, objs st !! b = Some o -> 0 <= objId o -> objs st' !! b = Some o.

(** The object at [p] holds an identifier. *)
Definition has_id (st : State) (p : addr) : Prop :=
  exists o, objs st !! p = Some o /\ 0 <= objId o.

(** What an add may do to the objects: those that hold an identifier are
    untouched, and no object's parents or children change. *)
Definition add_frame (st st' : State) : Prop :=
  keeps_registered st st' /\ same_relations (objs st) (objs st').

(** *** Adjacency without the closing edge, and a splice *)

(** One of the two vertices directly follows the other in the list; the
    last entry is followed by nothing. *)
Definition consecutive (vs : list addr) (a b : addr) : Prop :=
  exists i, (vs !! i = Some a /\ vs !! S i = Some b) \/
            (vs !! i = Some b /\ vs !! S i = Some a).

(** The boundary [vs] once [Mesh::insert] has run over it. *)
Definition splice_between (x v1 v2 : addr) (vs : list addr) : list addr :=
  match insert_scan v1 v2 vs (seq 0 (length vs)) with
  | Some i => vector_insert (if bool_decide (S i = length vs) then 0%nat else S i) x vs
  | None => vs
  end.

(** Objects stay and keep everything but their children. *)
Definition same_but_children (h h' : Store) : Prop :=
  forall b o, h !! b = Some o ->
    exists o', h' !! b = Some o' /\ objId o' = objId o /\ mesh o' = mesh o /\
      objType o' = objType o /\ parents o' = parents o /\ validate o' = validate o.

(** [p] heads the parents of the object at [a] and is a Structure
    without an identifier: the first thing [Mesh::add] on a Structure does
    with [a] is to add [p]. *)
Definition first_unregistered_parent (h : Store) (a p : addr) : Prop :=
  exists o rest op, h !! a = Some o /\ parents o = p :: rest /\
    h !! p = Some op /\ objType op = STRUCTURE /\ objId op < 0.

(** What an add has done to the objects and the inventories: nothing,
    or it has given an identifier to an object that had none. *)
Definition add_effect (st st' : State) : Prop :=
  (objs st' = objs st /\ forall k, inventory k (msh st') = inventory k (msh st)) \/
  (exists b o o', objs st !! b = Some o /\ objId o < 0 /\
                  objs st' !! b = Some o' /\ 0 <= objId o').

(** * Theorems *)

(** Every proof starts by dropping the parameters and assumptions of the
    section that neither its statement nor its argument needs. *)
Ltac drop_parameters :=
  repeat match goal with
  | x : ?T |- _ => lazymatch type of T with Prop => fail | _ => clear x end
  end.
Ltac drop_codes :=
  try match goal with H : S_OK ≠ E_FAIL |- _ => clear H end.
Ltac drop_incr :=
  try match goal with H : (0 < TFMESHINV_INCR)%nat |- _ => clear H end.
Ltac using_both := drop_parameters.
Ltac using_codes := drop_incr; drop_parameters.
Ltac using_incr := drop_codes; drop_parameters.
Ltac using_none := drop_codes; drop_incr; drop_parameters.



(** ** Facts about the inventories *)

Lemma foldr_min_elem (y : nat) (l : list nat) : foldr Nat.min y l ∈ y :: l.
Proof. using_none.
  induction l as [|z l IH]; simpl.
  - left.
  - destruct (Nat.min_spec z (foldr Nat.min y l)) as [[_ E]|[_ E]]; rewrite E.
    + right. left.
    + apply elem_of_cons in IH as [IH|IH].
      * rewrite IH. left.
      * right. right. exact IH.
Qed.

Lemma set_begin_elem (s : gset nat) (x : nat) : set_begin s = Some x -> x ∈ s.
Proof. using_none.
  unfold set_begin. intros H.
  destruct (elements s) as [|y l] eqn:E; [discriminate|].
  injection H as <-.
  apply elem_of_elements. rewrite E. apply foldr_min_elem.
Qed.

Lemma foldr_min_le (y : nat) (l : list nat) (x : nat) :
  x ∈ y :: l -> (foldr Nat.min y l <= x)%nat.
Proof. using_none.
  induction l as [|z l IH]; simpl.
  - intros ->%list_elem_of_singleton. lia.
  - intros H. apply elem_of_cons in H as [->|H].
    + etransitivity; [apply Nat.le_min_r|]. apply IH. left.
    + apply elem_of_cons in H as [->|H]; [apply Nat.le_min_l|].
      etransitivity; [apply Nat.le_min_r|]. apply IH. by right.
Qed.

Lemma set_begin_least (s : gset nat) (x y : nat) :
  set_begin s = Some x -> y ∈ s -> (x <= y)%nat.
Proof. using_none.
  unfold set_begin. destruct (elements s) as [|z l] eqn:E; [discriminate|].
  intros [= <-] Hy. apply foldr_min_le. rewrite <- E. by apply elem_of_elements.
Qed.

Lemma set_begin_none (s : gset nat) : set_begin s = None -> s = ∅.
Proof. using_none.
  unfold set_begin. destruct (elements s) eqn:E; [|discriminate].
  intros _. apply elements_empty_inv in E. apply leibniz_equiv. exact E.
Qed.

Lemma grow_loop_spec (res : nat) (n s0 : nat) (I : Inventory) :
  let I1 := foldl (grow_step res) I (seq s0 n) in
  inv I1 = inv I ++ replicate n None /\
  (forall i, i ∈ availIds I1 <->
     i ∈ availIds I \/ ((s0 <= i < s0 + n)%nat /\ i <> res)).
Proof. using_none.
  revert s0 I. induction n as [|n IH]; intros s0 I; simpl.
  - split; [by rewrite app_nil_r|]. intros i. split; [auto|]. intros [H|[H _]]; [done|lia].
  - destruct (IH (S s0) (grow_step res I s0)) as [Hi Ha]. split.
    + rewrite Hi. simpl. by rewrite <- app_assoc.
    + intros i. rewrite Ha. simpl. case_bool_decide; set_unfold; split; intros H'; try lia;
        destruct H' as [H'|H']; try lia; auto; try (right; lia).
      destruct H' as [->|H']; [right; lia | auto].
Qed.


Hypothesis S_OK_neq_E_FAIL : S_OK ≠ E_FAIL.

Lemma eqb_S_OK : (S_OK =? S_OK) = true.
Proof. using_none. apply Z.eqb_refl. Qed.

Lemma eqb_E_FAIL : (E_FAIL =? S_OK) = false.
Proof. using_codes. apply Z.eqb_neq. congruence. Qed.

Lemma inventory_set_inventory k k' I m :
  inventory k (set_inventory k' I m) = if decide (k = k') then I else inventory k m.
Proof. using_none. destruct k, k'; reflexivity. Qed.

Lemma inventory_set_isDirty k b m : inventory k (set_isDirty b m) = inventory k m.
Proof. using_none. destruct k; reflexivity. Qed.

Lemma inventory_notify k f m : inventory k (notify f m) = inventory k m.
Proof. using_none. destruct k; reflexivity. Qed.

Lemma Mesh_checkUnstoredObj_ok h a :
  Mesh_checkUnstoredObj h a = S_OK <->
  exists o, h !! a = Some o /\ objId o < 0 /\ mesh o = None.
Proof. using_codes.
  unfold Mesh_checkUnstoredObj. destruct (h !! a) as [o|].
  - destruct (Z.leb_spec 0 (objId o)); simpl.
    + split; [congruence|]. intros (o' & [= <-] & ? & _). lia.
    + case_bool_decide as Hm.
      * split; [congruence|]. intros (o' & [= <-] & _ & ?). done.
      * split; [|done]. intros _. exists o. repeat split; [lia|].
        destruct (mesh o); [done | done].
  - split; [congruence|]. intros (o' & ? & _). done.
Qed.

Lemma Mesh_checkStoredObj_ok h a :
  Mesh_checkStoredObj h a this = S_OK <->
  exists o, h !! a = Some o /\ 0 <= objId o /\ mesh o = Some this.
Proof. using_codes.
  unfold Mesh_checkStoredObj. destruct (h !! a) as [o|].
  - destruct (Z.ltb_spec (objId o) 0); simpl.
    + split; [congruence|]. intros (o' & [= <-] & ? & _). lia.
    + repeat case_bool_decide; simpl; try (split; [congruence|]; intros (o' & [= <-] & _ & ?); congruence).
      split; [|done]. intros _. exists o. repeat split; [lia|].
      destruct (mesh o) as [m|]; [|done]. destruct (decide (m = this)); congruence.
  - split; [congruence|]. intros (o' & ? & _). done.
Qed.

(** *** Removal *)

Lemma remove_each_rel (R : State -> State -> Prop) rm :
  (forall s, R s s) -> (forall s1 s2 s3, R s1 s2 -> R s2 s3 -> R s1 s3) ->
  (forall c s, R s (rm c s).2) ->
  forall cs s, R s (remove_each rm cs s).2.
Proof. using_none.
  intros Hrefl Htrans Hrm cs. induction cs as [|c cs IH]; intros s; simpl; [apply Hrefl|].
  pose proof (Hrm c s) as Hc. destruct (rm c s) as [[r| |] s']; simpl in *; try done.
  destruct (r =? S_OK); simpl; [|done]. eapply Htrans; [exact Hc | apply IH].
Qed.

Lemma removeObj_rel (R : State -> State -> Prop) :
  (forall s, R s s) -> (forall s1 s2 s3, R s1 s2 -> R s2 s3 -> R s1 s3) ->
  (forall s, R s (mark_dirty s)) ->
  (forall s a o, objs s !! a = Some o -> 0 <= objId o -> mesh o = Some this ->
     (Z.to_nat (objId o) < length (inv (inventory (objType o) (msh s))))%nat ->
     R s (unstore a o s)) ->
  forall fuel a s, R s (removeObj fuel a s).2.
Proof. using_codes.
  intros Hrefl Htrans Hdirty Hown fuel.
  induction fuel as [|fuel IH]; intros a s; simpl; [apply Hrefl|].
  destruct (Mesh_checkStoredObj (objs s) a this =? S_OK) eqn:Hc; simpl; [|apply Hdirty].
  apply Z.eqb_eq, Mesh_checkStoredObj_ok in Hc as (o & Ho & Hid & Hm). rewrite Ho.
  destruct (Nat.leb_spec (length (inv (inventory (objType o) (set_isDirty true (msh s)))))
              (Z.to_nat (objId o))) as [|Hlt]; simpl; [apply Hdirty|].
  eapply Htrans; [apply Hdirty|].
  eapply Htrans; [|apply (remove_each_rel R); [exact Hrefl | exact Htrans | exact IH]].
  apply Hown; done.
Qed.

Lemma inventory_unstore k a o s :
  inventory k (msh (unstore a o s)) =
  if decide (k = objType o)
  then mkInventory (<[Z.to_nat (objId o) := None]> (inv (inventory (objType o) (msh s))))
                   ({[Z.to_nat (objId o)]} ∪ availIds (inventory (objType o) (msh s)))
  else inventory k (msh s).
Proof. using_none.
  unfold unstore, clear_slot. simpl.
  rewrite inventory_notify, inventory_set_inventory. reflexivity.
Qed.

Lemma inventory_inv_mark_dirty s : inventory_inv s -> inventory_inv (mark_dirty s).
Proof. using_none.
  intros (Hs & Ha & Hst). unfold inventory_inv, slots_ok, avail_ok, stored_ok, mark_dirty.
  simpl. setoid_rewrite inventory_set_isDirty. done.
Qed.

Lemma inventory_inv_unstore s a o :
  objs s !! a = Some o -> 0 <= objId o -> mesh o = Some this ->
  (Z.to_nat (objId o) < length (inv (inventory (objType o) (msh s))))%nat ->
  inventory_inv s -> inventory_inv (unstore a o s).
Proof. using_none.
  intros Ho Hid Hm Hlt (Hs & Ha & Hst).
  pose proof (Hst a o Ho Hid Hm) as Hslot.
  split; [|split].
  - intros k j b. rewrite inventory_unstore. destruct (decide (k = objType o)) as [->|Hk]; simpl.
    + destruct (decide (j = Z.to_nat (objId o))) as [->|Hj].
      * rewrite list_lookup_insert_eq by done. done.
      * rewrite list_lookup_insert_ne by done. intros Hb.
        destruct (Hs _ _ _ Hb) as (ob & Hob & Hidb & Hmb & Htb).
        exists ob. split; [|done]. rewrite lookup_insert_ne; [done|].
        intros <-. rewrite Ho in Hob. injection Hob as <-. apply Hj. lia.
    + intros Hb. destruct (Hs _ _ _ Hb) as (ob & Hob & Hidb & Hmb & Htb).
      exists ob. split; [|done]. rewrite lookup_insert_ne; [done|].
      intros <-. rewrite Ho in Hob. injection Hob as <-. done.
  - intros k j. rewrite inventory_unstore. destruct (decide (k = objType o)) as [->|Hk]; simpl.
    + destruct (decide (j = Z.to_nat (objId o))) as [->|Hj].
      * rewrite list_lookup_insert_eq by done. set_solver.
      * rewrite list_lookup_insert_ne by done.
        rewrite <- (Ha (objType o) j). set_solver.
    + apply Ha.
  - intros b ob Hob Hidb Hmb. rewrite inventory_unstore. simpl in Hob.
    destruct (decide (b = a)) as [->|Hb].
    + rewrite lookup_insert_eq in Hob. injection Hob as <-. simpl in Hidb. lia.
    + rewrite lookup_insert_ne in Hob by done.
      pose proof (Hst b ob Hob Hidb Hmb) as Hsb.
      destruct (decide (objType ob = objType o)) as [E|Hk]; simpl; [|done].
      rewrite E in Hsb.
      destruct (decide (Z.to_nat (objId ob) = Z.to_nat (objId o))) as [E2|Hj].
      * exfalso. apply Hb. rewrite E2, Hslot in Hsb. congruence.
      * rewrite list_lookup_insert_ne by done. done.
Qed.

Lemma removeObj_inventory_inv fuel a s :
  inventory_inv s -> inventory_inv (removeObj fuel a s).2.
Proof. using_codes.
  revert fuel a s.
  refine (removeObj_rel (fun s s' => inventory_inv s -> inventory_inv s') _ _ _ _); simpl.
  - auto.
  - auto.
  - intros s. apply inventory_inv_mark_dirty.
  - intros s a o ? ? ? ?. by apply inventory_inv_unstore.
Qed.

Lemma removal_frame_refl s : removal_frame s s.
Proof. using_none. split; [done|]. split; [|done]. intros a o Ho. exists o. tauto. Qed.

Lemma removal_frame_trans s1 s2 s3 :
  removal_frame s1 s2 -> removal_frame s2 s3 -> removal_frame s1 s3.
Proof. using_none.
  intros (N1 & O1 & S1) (N2 & O2 & S2). split; [auto|]. split; [|auto].
  intros a o Ho. destruct (O1 a o Ho) as (o' & Ho' & T1 & P1 & C1 & V1 & D1).
  destruct (O2 a o' Ho') as (o'' & Ho'' & T2 & P2 & C2 & V2 & D2).
  exists o''. repeat split; try congruence.
  destruct D2 as [[E1 E2]|D2]; [|right; done].
  rewrite E1, E2. done.
Qed.

Lemma removal_frame_mark_dirty s : removal_frame s (mark_dirty s).
Proof. using_none.
  split; [done|]. split.
  - intros a o Ho. exists o. simpl. tauto.
  - intros k i. unfold mark_dirty. simpl. by rewrite inventory_set_isDirty.
Qed.

Lemma removal_frame_unstore s a o :
  objs s !! a = Some o -> removal_frame s (unstore a o s).
Proof. using_none.
  intros Ho. split; [|split].
  - intros b Hb. simpl. rewrite lookup_insert_ne; [done|]. intros <-. congruence.
  - intros b ob Hob. simpl. destruct (decide (b = a)) as [->|Hb].
    + rewrite lookup_insert_eq. rewrite Ho in Hob. injection Hob as <-.
      eexists. split; [done|]. simpl. tauto.
    + rewrite lookup_insert_ne by done. exists ob. tauto.
  - intros k i. rewrite inventory_unstore. destruct (decide (k = objType o)) as [->|Hk]; simpl; [|done].
    intros Hn. destruct (decide (i = Z.to_nat (objId o))) as [->|Hi].
    + apply list_lookup_insert_eq. by eapply lookup_lt_Some.
    + by rewrite list_lookup_insert_ne.
Qed.

Lemma removeObj_frame fuel a s : removal_frame s (removeObj fuel a s).2.
Proof. using_codes.
  apply (removeObj_rel removal_frame).
  - apply removal_frame_refl.
  - apply removal_frame_trans.
  - apply removal_frame_mark_dirty.
  - intros. by apply removal_frame_unstore.
Qed.

(** *** The cascade ends *)

Lemma elem_of_registered_addrs st a :
  a ∈ registered_addrs st <->
  exists o, objs st !! a = Some o /\ 0 <= objId o /\ mesh o = Some this.
Proof. using_none.
  unfold registered_addrs. rewrite elem_of_dom. split.
  - intros [o Ho]. apply map_lookup_filter_Some in Ho as [Ho HP]. by exists o.
  - intros (o & Ho & HP). exists o. by apply map_lookup_filter_Some.
Qed.

Lemma removal_frame_registered s s' :
  removal_frame s s' -> registered_addrs s' ⊆ registered_addrs s.
Proof. using_none.
  intros (N & O & _) a. rewrite !elem_of_registered_addrs. intros (o' & Ho' & Hid & Hm).
  destruct (objs s !! a) as [o|] eqn:Ho.
  - destruct (O a o Ho) as (o'' & Ho'' & _ & _ & _ & _ & D).
    rewrite Ho' in Ho''. injection Ho'' as <-. exists o. split; [done|].
    destruct D as [[E1 E2]|[E1 E2]]; [by rewrite <- E1, <- E2 | lia].
  - rewrite (N a Ho) in Ho'. done.
Qed.

Lemma unstore_registered s a o :
  objs s !! a = Some o -> 0 <= objId o -> mesh o = Some this ->
  registered_addrs (unstore a o (mark_dirty s)) ⊂ registered_addrs s.
Proof. using_none.
  intros Ho Hid Hm. split.
  - etransitivity; [apply removal_frame_registered, removal_frame_unstore; exact Ho|].
    apply removal_frame_registered, removal_frame_mark_dirty.
  - intros Hsub. assert (Ha : a ∈ registered_addrs s).
    { apply elem_of_registered_addrs. by exists o. }
    apply Hsub, elem_of_registered_addrs in Ha as (o' & Ho' & Hid' & _).
    simpl in Ho'. rewrite lookup_insert_eq in Ho'. injection Ho' as <-. simpl in Hid'. lia.
Qed.

Lemma remove_each_terminates rm cs s (n : nat) :
  (forall c s', (size (registered_addrs s') <= n)%nat ->
     (rm c s').1 <> OutOfFuel /\
     (size (registered_addrs (rm c s').2) <= n)%nat) ->
  (size (registered_addrs s) <= n)%nat ->
  (remove_each rm cs s).1 <> OutOfFuel.
Proof. using_none.
  intros Hrm. revert s. induction cs as [|c cs IH]; intros s Hs; simpl; [done|].
  destruct (Hrm c s Hs) as [H1 H2].
  destruct (rm c s) as [[r| |] s']; simpl in *; try done.
  destruct (r =? S_OK); [by apply IH | done].
Qed.

(** With a budget above the number of registered objects [removeObj]
    returns: each call that goes on unregisters one object, and none
    registers any. *)
Lemma removeObj_terminates fuel a s :
  (size (registered_addrs s) < fuel)%nat -> (removeObj fuel a s).1 <> OutOfFuel.
Proof. using_codes.
  revert a s. induction fuel as [|fuel IH]; intros a s Hsz; [lia|]. simpl.
  destruct (Mesh_checkStoredObj (objs s) a this =? S_OK) eqn:Hc; simpl; [|done].
  apply Z.eqb_eq, Mesh_checkStoredObj_ok in Hc as (o & Ho & Hid & Hm). rewrite Ho.
  destruct (_ <=? _)%nat; [done|].
  pose proof (subset_size _ _ (unstore_registered s a o Ho Hid Hm)) as Hlt.
  apply (remove_each_terminates _ _ _ (fuel - 1)); [|lia].
  intros c s' Hs'. split.
  - apply IH. lia.
  - etransitivity; [|exact Hs']. apply subseteq_size, removal_frame_registered, removeObj_frame.
Qed.

Lemma store_typed_mono (h h' : Store) :
  (forall a o', h' !! a = Some o' ->
     exists o, h !! a = Some o /\ objType o' = objType o /\
               (forall p, p ∈ parents o' -> p ∈ parents o)) ->
  store_typed h -> store_typed h'.
Proof. using_none.
  intros Hm Ht a o' Ho'. destruct (Hm a o' Ho') as (o & Ho & Ty & Ps).
  pose proof (Ht a o Ho) as Hto. unfold obj_typed in *.
  rewrite Forall_forall in Hto. rewrite Forall_forall. intros p Hp.
  specialize (Hto p (Ps p Hp)).
  destruct (h' !! p) as [q'|] eqn:Hq'; simpl; [|done].
  destruct (Hm p q' Hq') as (q & Hq & Tq & _).
  rewrite Hq in Hto. simpl in Hto. by rewrite Ty, Tq.
Qed.

Lemma removal_frame_typed s s' :
  removal_frame s s' -> store_typed (objs s) -> store_typed (objs s').
Proof. using_none.
  intros (N & O & _). apply store_typed_mono. intros a o' Ho'.
  destruct (objs s !! a) as [o|] eqn:Ho.
  - destruct (O a o Ho) as (o'' & Ho'' & T & P & _). rewrite Ho' in Ho''.
    injection Ho'' as <-. exists o. rewrite P. done.
  - rewrite (N a Ho) in Ho'. done.
Qed.

Lemma removeObj_mesh_inv fuel a s : mesh_inv s -> mesh_inv (removeObj fuel a s).2.
Proof. using_codes.
  intros [Hi Ht]. split; [by apply removeObj_inventory_inv|].
  eapply removal_frame_typed; [apply removeObj_frame | done].
Qed.

Hypothesis TFMESHINV_INCR_pos : (0 < TFMESHINV_INCR)%nat.

Lemma Mesh_invIdAndAlloc_spec I a h id I' h' :
  (forall i, i ∈ availIds I <-> inv I !! i = Some None) ->
  Mesh_invIdAndAlloc I (Some a) h = (id, I', h') ->
  h' = alter (with_objId (Z.of_nat id)) a h /\
  (forall b, inv I !! id ≠ Some (Some b)) /\
  inv I' !! id = Some (Some a) /\
  (forall j x, j <> id -> inv I !! j = Some x -> inv I' !! j = Some x) /\
  (forall j b, j <> id -> inv I' !! j = Some (Some b) -> inv I !! j = Some (Some b)) /\
  (forall i, i ∈ availIds I' <-> inv I' !! i = Some None).
Proof. using_incr.
  intros Hav. unfold Mesh_invIdAndAlloc.
  destruct (set_begin (availIds I)) as [id0|] eqn:Hb.
  - intros [= <- <- <-]. simpl.
    apply set_begin_elem in Hb. pose proof Hb as Hnull. apply Hav in Hnull.
    pose proof (lookup_lt_Some _ _ _ Hnull) as Hlt.
    split; [done|]. split; [intros b; congruence|].
    split; [by apply list_lookup_insert_eq|].
    split; [intros j x Hj Hx; by rewrite list_lookup_insert_ne|].
    split; [intros j b Hj; by rewrite list_lookup_insert_ne|].
    intros i. destruct (decide (i = id0)) as [->|Hne].
    + rewrite list_lookup_insert_eq by done. set_solver.
    + rewrite list_lookup_insert_ne by done. rewrite <- Hav. set_solver.
  - apply set_begin_none in Hb.
    destruct (grow_loop_spec (length (inv I)) TFMESHINV_INCR (length (inv I)) I)
      as [Hinv Hmem].
    intros [= <- <- <-]. simpl. rewrite Hinv.
    assert (Hlen : (length (inv I) < length (inv I ++ replicate TFMESHINV_INCR None))%nat).
    { rewrite length_app, length_replicate. lia. }
    split; [done|].
    split; [intros b; rewrite lookup_ge_None_2; [done|lia]|].
    split; [by apply list_lookup_insert_eq|].
    split.
    { intros j x Hj Hx. rewrite list_lookup_insert_ne by done.
      rewrite lookup_app_l; [done|]. by eapply lookup_lt_Some. }
    split.
    { intros j b Hj. rewrite list_lookup_insert_ne by done.
      destruct (decide (j < length (inv I))%nat).
      - by rewrite lookup_app_l.
      - rewrite lookup_app_r by lia. intros Hr.
        apply lookup_replicate in Hr as [? _]. done. }
    intros i. rewrite Hmem, Hb.
    destruct (decide (i = length (inv I))) as [->|Hne].
    + rewrite list_lookup_insert_eq by done. split; [|done].
      intros [H|[_ H]]; [set_solver | done].
    + rewrite list_lookup_insert_ne by done.
      destruct (decide (i < length (inv I))%nat).
      * rewrite lookup_app_l by done. rewrite <- Hav, Hb. split; [|set_solver].
        intros [H|[H _]]; [done | lia].
      * rewrite lookup_app_r by lia. split.
        -- intros [H|[H _]]; [set_solver|]. apply lookup_replicate. split; [done|lia].
        -- intros Hr. apply lookup_replicate in Hr as [_ Hr]. right. split; [lia|done].
Qed.

(** *** Addition *)

Lemma Mesh_addObj_mesh_inv k a st :
  (forall o, objs st !! a = Some o -> objType o = k) ->
  mesh_inv st -> mesh_inv (Mesh_addObj k a st).2.
Proof. using_both.
  intros Hty Hinv. unfold Mesh_addObj.
  destruct (Mesh_checkUnstoredObj (objs st) a =? S_OK) eqn:Hc; simpl; [|done].
  destruct (objs st !! a) as [o|] eqn:Ho; simpl; [|done].
  destruct (validate o) eqn:Hv; simpl; [|done].
  apply Z.eqb_eq, Mesh_checkUnstoredObj_ok in Hc as (o0 & Ho0 & Hneg & Hnone).
  rewrite Ho in Ho0. injection Ho0 as <-.
  destruct Hinv as [(Hs & Ha & Hst) Htyp].
  destruct (Mesh_invIdAndAlloc (inventory k (msh st)) (Some a) (objs st))
    as [[id I'] h1] eqn:Hal.
  apply Mesh_invIdAndAlloc_spec in Hal as (-> & Hfree & Hnew & Hkeep & Hold & Hav');
    [|apply Ha].
  set (o2 := mkMeshObj (Z.of_nat id) (Some this) (objType o) (parents o) (children o) (validate o)).
  set (h2 := alter _ a (alter _ a (objs st))).
  assert (Hh2a : h2 !! a = Some o2).
  { unfold h2. rewrite !lookup_alter_eq, Ho. reflexivity. }
  assert (Hh2 : forall b, b <> a -> h2 !! b = objs st !! b).
  { intros b Hb. unfold h2. by rewrite !lookup_alter_ne. }
  rewrite Hh2a.
  assert (Hinvk : forall k' m', inventory k' (notify m' (set_inventory k I' (msh st))) =
                         if decide (k' = k) then I' else inventory k' (msh st)).
  { intros. by rewrite inventory_notify, inventory_set_inventory. }
  assert (Htk : objType o = k) by (by apply Hty).
  assert (Hslot_ne : forall k' j b, inv (inventory k' (msh st)) !! j = Some (Some b) ->
            b <> a).
  { intros k' j b Hb <-. destruct (Hs _ _ _ Hb) as (ob' & Hob' & Hidb & _).
    rewrite Ho in Hob'. injection Hob' as <-. lia. }
  split; [split; [|split]|]; simpl.
  - intros k' j b. rewrite Hinvk. destruct (decide (k' = k)) as [->|Hk].
    + destruct (decide (j = id)) as [->|Hj].
      * rewrite Hnew. intros [= <-]. exists o2. done.
      * intros Hb. apply Hold in Hb; [|done].
        destruct (Hs _ _ _ Hb) as (ob & Hob & ?). exists ob. split; [|done].
        rewrite Hh2; [done|]. eapply Hslot_ne; eauto.
    + intros Hb. destruct (Hs _ _ _ Hb) as (ob & Hob & ?). exists ob. split; [|done].
      rewrite Hh2; [done|]. eapply Hslot_ne; eauto.
  - intros k' j. rewrite Hinvk. destruct (decide (k' = k)) as [->|Hk]; [apply Hav' | apply Ha].
  - intros b ob Hob Hidb Hmb. rewrite Hinvk.
    destruct (decide (b = a)) as [->|Hb].
    + rewrite Hh2a in Hob. injection Hob as <-. simpl.
      rewrite Htk. rewrite decide_True by done. by rewrite Nat2Z.id.
    + rewrite Hh2 in Hob by done. pose proof (Hst b ob Hob Hidb Hmb) as Hsb.
      destruct (decide (objType ob = k)) as [E|Hk]; [|done].
      rewrite E in Hsb. apply Hkeep; [|done].
      intros E2. rewrite E2 in Hsb. by apply Hfree in Hsb.
  - revert Htyp. apply store_typed_mono. intros b ob Hob.
    destruct (decide (b = a)) as [->|Hb].
    + rewrite Hh2a in Hob. injection Hob as <-. exists o. done.
    + rewrite Hh2 in Hob by done. exists ob. done.
Qed.

Lemma Mesh_addObj_types k a st q :
  type_at (Mesh_addObj k a st).2 q = type_at st q.
Proof. using_none.
  unfold Mesh_addObj, type_at.
  destruct (_ || _); [done|].
  destruct (Mesh_invIdAndAlloc _ _ _) as [[id I'] h1] eqn:Hal. simpl.
  assert (h1 = alter (with_objId (Z.of_nat id)) a (objs st)) as ->.
  { unfold Mesh_invIdAndAlloc in Hal. destruct (set_begin _); by injection Hal as <- <- <-. }
  destruct (decide (q = a)) as [->|Hq].
  - rewrite !lookup_alter_eq. by destruct (objs st !! a).
  - by rewrite !lookup_alter_ne.
Qed.

Lemma mesh_inv_same_inventories h m m' :
  (forall k, inventory k m' = inventory k m) ->
  mesh_inv (mkState h m) -> mesh_inv (mkState h m').
Proof. using_none.
  intros E [(Hs & Ha & Hst) Ht]. unfold mesh_inv, inventory_inv, slots_ok, avail_ok, stored_ok.
  simpl in *. setoid_rewrite E. done.
Qed.

Lemma add_Vertex_ok a st :
  mesh_inv st -> typed_as VERTEX st a -> add_ok st (add_Vertex a st).
Proof. using_both.
  intros Hinv Hty. unfold add_Vertex.
  set (st1 := mkState _ _).
  assert (Hinv1 : mesh_inv st1).
  { destruct st as [h m]. eapply mesh_inv_same_inventories; [|exact Hinv].
    intros k. simpl. by rewrite inventory_notify, inventory_set_isDirty. }
  pose proof (Mesh_addObj_mesh_inv VERTEX a st1 Hty Hinv1) as H1.
  pose proof (Mesh_addObj_types VERTEX a st1) as H2.
  destruct (Mesh_addObj VERTEX a st1) as [r st']. split; [exact H1|exact H2].
Qed.

Lemma add_unstored_ok (T : addr -> option ObjType -> Prop) addp ps st :
  (forall p s, mesh_inv s -> T p (type_at s p) -> add_ok s (addp p s)) ->
  mesh_inv st -> Forall (fun p => T p (type_at st p)) ps ->
  add_ok st (add_unstored addp ps st).
Proof. using_none.
  intros Hp. revert st. induction ps as [|p ps IH]; intros st Hinv HT; simpl; [done|].
  apply Forall_cons in HT as [HTp HT].
  destruct (objs st !! p) as [o|]; [|done].
  destruct (objId o <? 0); [|by apply IH].
  destruct (Hp p st Hinv HTp) as [Hi' Ht'].
  destruct (addp p st) as [[r| |] st']; simpl in *; try done.
  destruct (r =? S_OK); [|done].
  destruct (IH st' Hi') as [Hi'' Ht''].
  - eapply Forall_impl; [exact HT|]. intros q Hq. simpl in Hq. by rewrite Ht'.
  - split; [done|]. intros q. by rewrite Ht'', Ht'.
Qed.

Lemma add_self_ok k a st r :
  add_ok st r -> typed_as k st a -> add_ok st (add_self k a r).
Proof. using_both.
  intros [Hi Ht] Hty. destruct r as [[hr| |] st1]; simpl in *; try done.
  destruct (hr =? S_OK); [|done].
  assert (Hty1 : typed_as k st1 a).
  { intros o Ho. specialize (Ht a). unfold type_at in Ht. rewrite Ho in Ht. simpl in Ht.
    destruct (objs st !! a) as [o0|] eqn:Ho0; [|done]. injection Ht as ->. by apply Hty. }
  pose proof (Mesh_addObj_mesh_inv k a st1 Hty1 Hi) as H1.
  pose proof (Mesh_addObj_types k a st1) as H2.
  destruct (Mesh_addObj k a st1) as [r2 st2]. simpl in *.
  assert (add_ok st (Done S_OK, st2)).
  { split; [done|]. intros q. simpl. by rewrite H2. }
  destruct (r2 =? S_OK); done.
Qed.

Lemma mark_dirty_ok st : mesh_inv st -> add_ok st (Done S_OK, mark_dirty st).
Proof. using_none.
  intros Hinv. split; [|done]. destruct st as [h m].
  eapply mesh_inv_same_inventories; [|exact Hinv]. intros k. apply inventory_set_isDirty.
Qed.

Lemma parents_typed st a o :
  mesh_inv st -> objs st !! a = Some o ->
  Forall (fun p => from_option (parent_type_ok (objType o)) true (type_at (mark_dirty st) p) = true)
         (parents o).
Proof. using_none. intros [_ Ht] Ho. exact (Ht a o Ho). Qed.

Lemma typed_from_parent k k' s p :
  from_option (parent_type_ok k) true (type_at s p) = true ->
  (forall t, parent_type_ok k t = true -> t = k') -> typed_as k' s p.
Proof. using_none.
  unfold type_at. intros H Hk o Ho. rewrite Ho in H. simpl in H. by apply Hk.
Qed.

Lemma add_composite_ok k addp a st o :
  (forall p s, mesh_inv s -> from_option (parent_type_ok k) true (type_at s p) = true ->
               add_ok s (addp p s)) ->
  mesh_inv st -> objs st !! a = Some o -> objType o = k ->
  add_ok st (add_self k a (add_unstored addp (parents o) (mark_dirty st))).
Proof. using_both.
  intros Hp Hinv Ho Hk.
  destruct (mark_dirty_ok st Hinv) as [Hd _].
  pose proof (parents_typed st a o Hinv Ho) as HT. rewrite Hk in HT.
  pose proof (add_unstored_ok (fun _ t => from_option (parent_type_ok k) true t = true)
                addp (parents o) (mark_dirty st) Hp Hd HT) as [H1 H2].
  apply add_self_ok.
  - split; [done|]. intros q. by rewrite H2.
  - intros o' Ho'. rewrite Ho in Ho'. by injection Ho' as <-.
Qed.

Lemma add_Surface_ok a st :
  mesh_inv st -> typed_as SURFACE st a -> add_ok st (add_Surface a st).
Proof. using_both.
  intros Hinv Hty. unfold add_Surface.
  destruct (objs st !! a) as [o|] eqn:Ho; [|by apply mark_dirty_ok].
  apply (add_composite_ok SURFACE); try done; [|by apply Hty].
  intros p s Hs HT. apply add_Vertex_ok; [done|].
  eapply typed_from_parent; [exact HT|]. intros t. simpl. by intros ?%bool_decide_eq_true.
Qed.

Lemma add_Body_ok a st :
  mesh_inv st -> typed_as BODY st a -> add_ok st (add_Body a st).
Proof. using_both.
  intros Hinv Hty. unfold add_Body.
  destruct (objs st !! a) as [o|] eqn:Ho; [|by apply mark_dirty_ok].
  apply (add_composite_ok BODY); try done; [|by apply Hty].
  intros p s Hs HT. apply add_Surface_ok; [done|].
  eapply typed_from_parent; [exact HT|]. intros t. simpl. by intros ?%bool_decide_eq_true.
Qed.

Lemma add_Structure_ok fuel a st :
  mesh_inv st -> typed_as STRUCTURE st a -> add_ok st (add_Structure fuel a st).
Proof. using_both.
  revert a st. induction fuel as [|fuel IH]; intros a st Hinv Hty; simpl; [done|].
  destruct (objs st !! a) as [o|] eqn:Ho; [|by apply mark_dirty_ok].
  apply (add_composite_ok STRUCTURE); try done; [|by apply Hty].
  intros p s Hs _. destruct (objs s !! p) as [q|] eqn:Hq; simpl; [|done].
  destruct (objType q) eqn:Hk; try done.
  - apply add_Body_ok; [done|]. intros q' Hq'. congruence.
  - apply IH; [done|]. intros q' Hq'. congruence.
Qed.

(** *** The invariant along a run *)

Lemma fresh_state_mesh_inv st : fresh_state st -> mesh_inv st.
Proof. using_none.
  intros (He & Hf & Ht). split; [|done]. split; [|split].
  - intros k i a. by rewrite He.
  - intros k i. rewrite He. simpl. split; [set_solver | by rewrite lookup_nil].
  - intros a o Ho _ Hm. by destruct (Hf a o Ho).
Qed.

Lemma external_change_mesh_inv st h' :
  mesh_inv st -> external_change (objs st) h' -> mesh_inv (mkState h' (msh st)).
Proof. using_none.
  intros [(Hs & Ha & Hst) _] (Hold & Hnew & Ht). split; [|done]. split; [|split]; simpl.
  - intros k i a Hi. destruct (Hs k i a Hi) as (o & Ho & Hid & Hm & Hk).
    destruct (Hold a o Ho) as (o' & Ho' & E1 & E2 & E3). exists o'.
    rewrite E1, E2, E3. done.
  - done.
  - intros a o' Ho' Hid Hm. destruct (objs st !! a) as [o|] eqn:Ho.
    + destruct (Hold a o Ho) as (o'' & Ho'' & E1 & E2 & E3).
      rewrite Ho' in Ho''. injection Ho'' as <-. rewrite E1, E3. apply Hst; congruence.
    + by destruct (Hnew a o' Ho Ho').
Qed.

Lemma mesh_step_mesh_inv st st' : mesh_inv st -> mesh_step st st' -> mesh_inv st'.
Proof. using_both.
  intros Hinv Hstep. revert Hinv.
  destruct Hstep as [op s r s' Hty Hrun | s h' Hext]; intros Hinv.
  - assert (E : s' = (run_op op s).2) by (by rewrite Hrun). subst s'.
    destruct op as [k fuel a | fuel a]; simpl in *.
    + destruct k.
      * exact (proj1 (add_Vertex_ok a s Hinv Hty)).
      * exact (proj1 (add_Surface_ok a s Hinv Hty)).
      * exact (proj1 (add_Body_ok a s Hinv Hty)).
      * exact (proj1 (add_Structure_ok fuel a s Hinv Hty)).
    + by apply removeObj_mesh_inv.
  - by apply external_change_mesh_inv.
Qed.

Lemma mesh_run_mesh_inv st st' : mesh_inv st -> rtc mesh_step st st' -> mesh_inv st'.
Proof. using_both. intros Hinv Hrun. induction Hrun; eauto using mesh_step_mesh_inv. Qed.

Lemma mesh_inv_ids_unique st : mesh_inv st -> ids_unique st.
Proof. using_none.
  intros [(Hs & Ha & Hst) _] a b oa ob Hoa Hob [Ha1 Ha2] [Hb1 Hb2] Hk Hid.
  pose proof (Hst a oa Hoa Ha1 Ha2) as Sa. pose proof (Hst b ob Hob Hb1 Hb2) as Sb.
  rewrite Hk, Hid in Sa. congruence.
Qed.

Lemma mesh_inv_slots_exact st : mesh_inv st -> slots_exact st.
Proof. using_none.
  intros [(Hs & Ha & Hst) _] k i [a|] Hi.
  - split; [|by apply Hs]. intros Hav. apply Ha in Hav. congruence.
  - by apply Ha.
Qed.

Lemma mesh_inv_ids_index_slots st : mesh_inv st -> ids_index_slots st.
Proof. using_none.
  intros [(Hs & Ha & Hst) _] a o Ho [H1 H2] j. split.
  - intros Hj. destruct (Hs _ _ _ Hj) as (o' & Ho' & Hid & _).
    rewrite Ho in Ho'. injection Ho' as <-. lia.
  - intros ->. by apply Hst.
Qed.

(** C6. Along every sequence of add and remove operations on one mesh,
    started from a freshly constructed mesh and interleaved with any
    construction and rewiring of objects, no two live objects of the same
    variant share an identifier; every slot is null with its index in the
    available set or holds one live object whose identifier is the slot
    index; and every live identifier indexes exactly one slot. *)
Theorem Mesh_identifiers_unique (st0 st : State) :
  fresh_state st0 -> rtc mesh_step st0 st ->
  ids_unique st /\ slots_exact st /\ ids_index_slots st.
Proof. using_both.
  intros Hf Hrun.
  assert (Hinv : mesh_inv st).
  { eapply mesh_run_mesh_inv; [|exact Hrun]. by apply fresh_state_mesh_inv. }
  auto using mesh_inv_ids_unique, mesh_inv_slots_exact, mesh_inv_ids_index_slots.
Qed.

(** *** Failing calls *)

Lemma add_Vertex_failure a st r st' :
  add_Vertex a st = (r, st') -> r <> Done S_OK ->
  r = Done E_FAIL /\
  st' = mkState (objs st) (notify (solver_setDirty true) (set_isDirty true (msh st))).
Proof. using_none.
  unfold add_Vertex, Mesh_addObj. simpl.
  destruct (_ || _); [by intros [= <- <-]|].
  destruct (Mesh_invIdAndAlloc _ _ _) as [[id I'] h1]. by intros [= <- <-].
Qed.

Lemma removeObj_check_failure fuel a st :
  Mesh_checkStoredObj (objs st) a this <> S_OK \/
  (exists o, objs st !! a = Some o /\
     (length (inv (inventory (objType o) (msh st))) <= Z.to_nat (objId o))%nat) ->
  removeObj (S fuel) a st = (Done E_FAIL, mark_dirty st).
Proof. using_none.
  intros H. simpl.
  destruct (Mesh_checkStoredObj (objs st) a this =? S_OK) eqn:Hc; simpl; [|done].
  destruct H as [H|(o & Ho & Hlen)]; [by apply Z.eqb_eq in Hc|].
  rewrite Ho, inventory_set_isDirty.
  destruct (Nat.leb_spec (length (inv (inventory (objType o) (msh st)))) (Z.to_nat (objId o)));
    [done|lia].
Qed.

(** *** findVertex and the getters *)

Lemma findVertex_loop_safe posOf pos tol slots :
  (forall i, slots !! i <> Some None) ->
  findVertex_loop posOf pos tol slots <> FindNullDeref.
Proof. using_none.
  induction slots as [|[v|] slots IH]; intros Hn; simpl; [done| |].
  - destruct (fleb _ _); [done|]. apply IH. intros i. apply (Hn (S i)).
  - by destruct (Hn 0%nat).
Qed.

Lemma findVertex_loop_null posOf pos tol slots i :
  slots !! i = Some None ->
  (forall j v, (j < i)%nat -> slots !! j = Some (Some v) ->
     fleb (relativeLength (posOf v) pos) tol = false) ->
  findVertex_loop posOf pos tol slots = FindNullDeref.
Proof. using_none.
  revert i. induction slots as [|[v|] slots IH]; intros i Hi Hfar; simpl; [done| |done].
  destruct i as [|i]; [done|].
  rewrite (Hfar 0%nat v) by (done || lia).
  apply (IH i); [done|]. intros j v' Hj Hv'. apply (Hfar (S j) v'); [lia | done].
Qed.

Lemma removeObj_nulls_slot fuel a st st' o :
  objs st !! a = Some o -> removeObj fuel a st = (Done S_OK, st') ->
  inv (inventory (objType o) (msh st')) !! Z.to_nat (objId o) = Some None /\
  exists o', objs st' !! a = Some o' /\ objId o' = -1 /\ mesh o' = None.
Proof. using_codes.
  intros Ho. destruct fuel as [|fuel]; simpl; [done|].
  destruct (Mesh_checkStoredObj (objs st) a this =? S_OK) eqn:Hc; simpl.
  2:{ intros [= E]. by destruct S_OK_neq_E_FAIL. }
  rewrite Ho.
  destruct (Nat.leb_spec (length (inv (inventory (objType o) (set_isDirty true (msh st)))))
              (Z.to_nat (objId o))) as [|Hlt].
  { intros [= E]. by destruct S_OK_neq_E_FAIL. }
  rewrite inventory_set_isDirty in Hlt.
  intros Hrun.
  pose proof (remove_each_rel removal_frame (removeObj fuel) removal_frame_refl
                removal_frame_trans (removeObj_frame fuel) (children o)
                (unstore a o (mark_dirty st))) as (_ & Hobj & Hslots).
  rewrite Hrun in Hobj, Hslots. simpl in Hobj, Hslots. split.
  - apply Hslots. rewrite inventory_notify. unfold clear_slot.
    rewrite inventory_set_inventory, decide_True by done. simpl.
    apply list_lookup_insert_eq. by rewrite inventory_set_isDirty.
  - destruct (Hobj a (with_mesh None (with_objId (-1) o))) as (o' & Ho' & _ & _ & _ & _ & D).
    { apply lookup_insert_eq. }
    exists o'. split; [done|]. simpl in D. destruct D as [[? ?]|[? ?]]; done.
Qed.

(** C10. [findVertex] calls through every slot it reaches: with no null
    vertex slot it never dereferences null; with a null slot, a query
    that no vertex stored before that slot answers (any query with a
    tolerance below every distance) runs into it; a successful remove of
    a Vertex leaves such a slot; and the four getters answer null for an
    index past the end. *)
Theorem findVertex_null_slot :
  (forall w pos tol,
     (forall i, vertices (msh (w_state w)) !! i <> Some None) ->
     findVertex w pos tol <> FindNullDeref) /\
  (forall w pos tol i,
     vertices (msh (w_state w)) !! i = Some None ->
     (forall j v, (j < i)%nat -> vertices (msh (w_state w)) !! j = Some (Some v) ->
        fleb (relativeLength (w_pos w v) pos) tol = false) ->
     findVertex w pos tol = FindNullDeref) /\
  (forall fuel a st st' o,
     objs st !! a = Some o -> objType o = VERTEX ->
     removeObj fuel a st = (Done S_OK, st') ->
     vertices (msh st') !! Z.to_nat (objId o) = Some None) /\
  (forall m idx,
     (length (vertices m) <= idx)%nat -> getVertex m idx = None) /\
  (forall m idx,
     (length (surfaces m) <= idx)%nat -> getSurface m idx = None) /\
  (forall m idx,
     (length (bodies m) <= idx)%nat -> getBody m idx = None) /\
  (forall m idx,
     (length (structures m) <= idx)%nat -> getStructure m idx = None).
Proof. using_codes.
  assert (Hget : forall slots idx, (length slots <= idx)%nat -> TF_MESH_GETPART idx slots = None).
  { intros slots idx H. unfold TF_MESH_GETPART. by apply Nat.leb_le in H as ->. }
  repeat split.
  - intros w pos tol Hn. by apply findVertex_loop_safe.
  - intros w pos tol i Hi Hfar. by eapply findVertex_loop_null.
  - intros fuel a st st' o Ho Hk Hrun.
    destruct (removeObj_nulls_slot fuel a st st' o Ho Hrun) as [H _]. by rewrite Hk in H.
  - intros; by apply Hget.
  - intros; by apply Hget.
  - intros; by apply Hget.
  - intros; by apply Hget.
Qed.

(** *** Constraint actors *)

(** C8. With at most 3 vertices on the Surface, whatever the positions
    and the arithmetic, or with the two cyclic neighbours of the vertex at
    one position [p] for which [isZero] answers true on [p - p], the
    convex-polygon constraint leaves the running energy and the force
    accumulator as they were. *)
Theorem ConvexPolygonConstraint_inactive lam w s vc e f :
  (length (from_option parents [] (objs (w_state w) !! s)) <= 3)%nat \/
  (exists va vb,
     Surface_neighborVertices (objs (w_state w)) s vc = Some (va, vb) /\
     getPosition w va = getPosition w vb /\
     visZero (vsub (getPosition w vb) (getPosition w vb)) = true) ->
  ConvexPolygonConstraint_energy lam w s vc e = Done e /\
  ConvexPolygonConstraint_force lam w s vc f = Done f.
Proof. using_none.
  intros H.
  assert (Hacts : ConvexPolygonConstraint_acts w vc s = Done (false, vzero)).
  { unfold ConvexPolygonConstraint_acts.
    destruct (Nat.leb_spec (length (from_option parents [] (objs (w_state w) !! s))) 3)
      as [|Hgt]; [done|].
    destruct H as [H|(va & vb & -> & Hpos & Hz)]; [lia|].
    by rewrite Hpos, Hz. }
  unfold ConvexPolygonConstraint_energy, ConvexPolygonConstraint_force.
  by rewrite Hacts.
Qed.

Lemma ConvexPolygonConstraint_energy_accumulates lam w s vc :
  exists c, forall e r,
    ConvexPolygonConstraint_energy lam w s vc e = Done r -> r = e \/ r = fadd e c.
Proof. using_none.
  unfold ConvexPolygonConstraint_energy.
  destruct (ConvexPolygonConstraint_acts w vc s) as [[[|] rel]| |].
  - eexists. intros e r [= <-]. right. reflexivity.
  - exists (flit 0). intros e r [= <-]. by left.
  - exists (flit 0). intros e r [=].
  - exists (flit 0). intros e r [=].
Qed.

Lemma ConvexPolygonConstraint_force_accumulates lam w s vc :
  exists c, forall f r,
    ConvexPolygonConstraint_force lam w s vc f = Done r -> r = f \/ r = vadd f c.
Proof. using_none.
  unfold ConvexPolygonConstraint_force.
  destruct (ConvexPolygonConstraint_acts w vc s) as [[[|] rel]| |].
  - eexists. intros f r [= <-]. right. reflexivity.
  - exists vzero. intros f r [= <-]. by left.
  - exists vzero. intros f r [=].
  - exists vzero. intros f r [=].
Qed.

Lemma SurfaceAreaConstraint_force_accumulates lam constr w b v :
  exists c, forall f, SurfaceAreaConstraint_force lam constr w b v f = vadd f c.
Proof. using_none. eexists. intros f. reflexivity. Qed.

(** C7, where the code departs from it: the surface-area energy does not
    read the running total it is given, so two calls that differ only in
    that total leave the same value. *)
Theorem SurfaceAreaConstraint_energy_overwrites lam constr w b v e e' :
  SurfaceAreaConstraint_energy lam constr w b v e =
  SurfaceAreaConstraint_energy lam constr w b v e'.
Proof. using_none. reflexivity. Qed.

(** *** Editing operations *)

(** C5. With a coefficient count other than the number of neighbours, or
    with a coefficient at or below 0 or at or above 1, the fan replace
    returns null and the mesh, its objects and all positions are the
    ones before the call. *)
Theorem replace_Vertex_rejects fuel toReplace lenCfs w :
  length lenCfs <> length (Vertex_neighborVertices (objs (w_state w)) toReplace) \/
  (exists cf, cf ∈ lenCfs /\ (fleb cf (flit 0) = true \/ fleb (flit 1) cf = true)) ->
  replace_Vertex fuel toReplace lenCfs w = (Done None, w).
Proof. using_none.
  intros H. unfold replace_Vertex.
  destruct (Nat.eqb_spec (length lenCfs)
              (length (Vertex_neighborVertices (objs (w_state w)) toReplace))) as [E|NE];
    simpl; [|done].
  destruct H as [H|(cf & Hin & Hcf)]; [done|].
  assert (Hex : existsb (fun cf => fleb cf (flit 0) || fleb (flit 1) cf) lenCfs = true).
  { apply existsb_exists. exists cf. split; [by apply list_elem_of_In|].
    destruct Hcf as [-> | ->]; [done | by rewrite orb_true_r]. }
  by rewrite Hex.
Qed.

(** C1, where the code departs from it: when the success code is the
    integer a null pointer converts to, a Surface bounded on both sides
    passes the guard and the Body is built, from a zero normal. *)
Theorem extrude_Body_twice_bound base normLen w b1 b2 :
  S_OK = NULL ->
  Surface_bodies (objs (w_state w)) base = (Some b1, Some b2) ->
  extrude_Body base normLen w = extrude_build base vzero normLen w.
Proof. using_none.
  intros Hnull Hb. unfold extrude_Body, Mesh_surfaceOutwardNormal.
  rewrite Hb, <- Hnull, Z.eqb_refl. reflexivity.
Qed.

Lemma extrude_Body_guard base normLen w b1 b2 :
  S_OK <> NULL ->
  Surface_bodies (objs (w_state w)) base = (Some b1, Some b2) ->
  extrude_Body base normLen w = (Done None, w).
Proof. using_none.
  intros Hnull Hb. unfold extrude_Body, Mesh_surfaceOutwardNormal. rewrite Hb.
  destruct (Z.eqb_spec NULL S_OK); [congruence | done].
Qed.

Lemma merge_rejects_wrap toKeep toRemove a b m0 mid :
  (a = toKeep /\ b = toRemove) \/ (a = toRemove /\ b = toKeep) ->
  m0 <> toKeep -> m0 <> toRemove ->
  merge_rejects toKeep toRemove (a :: m0 :: mid ++ [b]) = true.
Proof. using_none.
  intros Hab Hk Hr. unfold merge_rejects. simpl.
  destruct Hab as [[-> ->]|[-> ->]].
  - rewrite bool_decide_eq_true_2 by done. apply bool_decide_eq_true. congruence.
  - destruct (decide (toRemove = toKeep)) as [E|NE].
    + rewrite bool_decide_eq_true_2 by congruence. apply bool_decide_eq_true. congruence.
    + rewrite bool_decide_eq_false_2 by congruence.
      rewrite bool_decide_eq_true_2 by done. apply bool_decide_eq_true. congruence.
Qed.

Lemma wrap_cyclically_adjacent a b m0 mid :
  cyclically_adjacent (a :: m0 :: mid ++ [b]) a b.
Proof. using_none.
  exists (S (S (length mid))). simpl. rewrite length_app. simpl. split; [lia|]. right.
  assert (Hn : next_index (S (S (length mid + 1))) (S (S (length mid))) = 0%nat).
  { unfold next_index.
    destruct (Nat.leb_spec (S (S (length mid + 1))) (S (S (length mid)) + 1)); lia. }
  rewrite Hn. split; [|done].
  rewrite lookup_app_r by lia. by rewrite Nat.sub_diag.
Qed.

(** C3, where the code departs from it: two vertices that sit at the
    first and the last index of their first shared Surface are cyclically
    adjacent on it, and the merge is rejected, with nothing changed. *)
Theorem merge_Vertex_rejects_wrap fuel toKeep toRemove lenCf w ko ro s rest so m0 mid :
  objs (w_state w) !! toKeep = Some ko ->
  objs (w_state w) !! toRemove = Some ro ->
  sharedSurfaces (objs (w_state w)) toKeep toRemove = s :: rest ->
  objs (w_state w) !! s = Some so ->
  parents so = toKeep :: m0 :: mid ++ [toRemove] ->
  m0 <> toKeep -> m0 <> toRemove ->
  cyclically_adjacent (parents so) toKeep toRemove /\
  merge_Vertex fuel toKeep toRemove lenCf w = (Done E_FAIL, w).
Proof. using_none.
  intros Hk Hr Hs Hso Hvs H1 H2. split.
  - rewrite Hvs. apply wrap_cyclically_adjacent.
  - unfold merge_Vertex. rewrite Hk, Hr, Hs, Hso. simpl. rewrite Hvs.
    rewrite merge_rejects_wrap; [done| |done|done]. by left.
Qed.

Lemma gather_step_nil toReplace l : foldl (gather_step toReplace) [] l = [].
Proof. using_none.
  induction l as [|s l IH]; simpl; [done|].
  unfold gather_step at 2. rewrite (bool_decide_eq_false_2 (s ∈ [])) by set_solver.
  by rewrite andb_false_r.
Qed.

Lemma gather_connected_nil h toReplace : gather_connected h toReplace = [].
Proof. using_none.
  unfold gather_connected.
  induction (from_option parents [] (h !! toReplace)) as [|v vs IH]; simpl; [done|].
  by rewrite gather_step_nil.
Qed.

Lemma same_relations_refl h : same_relations h h.
Proof. using_none. intros a o Ho. exists o. done. Qed.

Lemma same_relations_trans h1 h2 h3 :
  same_relations h1 h2 -> same_relations h2 h3 -> same_relations h1 h3.
Proof. using_none.
  intros H12 H23 a o Ho. destruct (H12 a o Ho) as (o' & Ho' & P & C).
  destruct (H23 a o' Ho') as (o'' & Ho'' & P' & C'). exists o''. split; [done|].
  split; congruence.
Qed.

Lemma removal_frame_same_relations s s' :
  removal_frame s s' -> same_relations (objs s) (objs s').
Proof. using_none.
  intros (_ & O & _) a o Ho. destruct (O a o Ho) as (o' & Ho' & _ & P & C & _).
  exists o'. done.
Qed.

Lemma Mesh_addObj_same_relations k a st :
  same_relations (objs st) (objs (Mesh_addObj k a st).2).
Proof. using_none.
  unfold Mesh_addObj.
  destruct (_ || _); [apply same_relations_refl|].
  destruct (Mesh_invIdAndAlloc _ _ _) as [[id I'] h1] eqn:Hal. simpl.
  assert (h1 = alter (with_objId (Z.of_nat id)) a (objs st)) as ->.
  { unfold Mesh_invIdAndAlloc in Hal. destruct (set_begin _); by injection Hal as <- <- <-. }
  intros b o Ho. destruct (decide (b = a)) as [->|Hb].
  - rewrite !lookup_alter_eq, Ho. simpl. eexists. split; [done|]. done.
  - rewrite !lookup_alter_ne by done. exists o. done.
Qed.

Lemma add_Vertex_same_relations a st :
  same_relations (objs st) (objs (add_Vertex a st).2).
Proof. using_none.
  unfold add_Vertex.
  pose proof (Mesh_addObj_same_relations VERTEX a
                (mkState (objs st) (notify (solver_setDirty true) (set_isDirty true (msh st)))))
    as H.
  destruct (Mesh_addObj _ _ _) as [r st']. exact H.
Qed.

(** C2, where the code departs from it: the gathering of the contacting
    Surfaces never collects one, so whatever Surfaces share boundary with
    the target, the replace leaves the parents and the children of every
    object as they were: the new vertex is spliced into no Surface and no
    replaced vertex is detached. *)
Theorem replace_Surface_splices_nothing fuel toInsert toReplace st :
  gather_connected (objs st) toReplace = [] /\
  same_relations (objs st) (objs (replace_Surface fuel toInsert toReplace st).2).
Proof. using_codes.
  split; [apply gather_connected_nil|].
  unfold replace_Surface. rewrite gather_connected_nil. simpl. rewrite eqb_S_OK. simpl.
  pose proof (removal_frame_same_relations _ _
                (removeObj_frame fuel toReplace (mkState (objs st) (msh st)))) as H1.
  destruct (removeObj fuel toReplace (mkState (objs st) (msh st))) as [[r1| |] st2];
    simpl in *; try done.
  destruct (r1 =? S_OK); simpl; [|done].
  pose proof (add_Vertex_same_relations toInsert st2) as H2.
  destruct (add_Vertex toInsert st2) as [[r3| |] st4]; simpl in *;
    try (eapply same_relations_trans; [exact H1 | exact H2]).
  destruct (r3 =? S_OK); simpl; eapply same_relations_trans; [exact H1 | exact H2 | exact H1 | exact H2].
Qed.

Lemma relinked_refl h : relinked h h.
Proof. using_none. intros a. by destruct (h !! a). Qed.

Lemma relinked_trans h1 h2 h3 : relinked h1 h2 -> relinked h2 h3 -> relinked h1 h3.
Proof. using_none.
  intros H12 H23 a. specialize (H12 a). specialize (H23 a).
  destruct (h1 !! a), (h2 !! a), (h3 !! a); try done.
  destruct H12 as (? & ? & ?), H23 as (? & ? & ?). repeat split; congruence.
Qed.

Lemma relinked_insert h a o o' :
  h !! a = Some o -> objId o' = objId o -> mesh o' = mesh o -> objType o' = objType o ->
  relinked h (<[a := o']> h).
Proof. using_none.
  intros Ho E1 E2 E3 b. destruct (decide (b = a)) as [->|Hb].
  - by rewrite lookup_insert_eq, Ho.
  - rewrite lookup_insert_ne by done. by destruct (h !! b).
Qed.

Lemma removeChild_relinked v c h : relinked h (removeChild v c h).2.
Proof. using_none.
  unfold removeChild. destruct (h !! v) as [o|] eqn:Ho; [|apply relinked_refl].
  case_bool_decide; [|apply relinked_refl]. simpl. by eapply relinked_insert.
Qed.

Lemma removeParent_relinked v p h : relinked h (removeParent v p h).2.
Proof. using_none.
  unfold removeParent. destruct (h !! v) as [o|] eqn:Ho; [|apply relinked_refl].
  case_bool_decide; [|apply relinked_refl]. simpl. by eapply relinked_insert.
Qed.

Lemma detach_children_relinked v cs h : relinked h (detach_children v cs h).2.
Proof. using_none.
  revert h. induction cs as [|c cs IH]; intros h; simpl; [apply relinked_refl|].
  pose proof (removeChild_relinked v c h) as H1.
  destruct (removeChild v c h) as [[r| |] h1]; simpl in *; try done.
  destruct (r =? S_OK); simpl; [|done].
  pose proof (removeParent_relinked c v h1) as H2.
  destruct (removeParent c v h1) as [[r'| |] h2]; simpl in *;
    try (eapply relinked_trans; [exact H1 | exact H2]).
  destruct (r' =? S_OK); simpl.
  - eapply relinked_trans; [|apply IH]. eapply relinked_trans; [exact H1 | exact H2].
  - eapply relinked_trans; [exact H1 | exact H2].
Qed.

Lemma inventory_inv_relinked h h' m :
  relinked h h' -> inventory_inv (mkState h m) -> inventory_inv (mkState h' m).
Proof. using_none.
  intros Hr (Hs & Ha & Hst). split; [|split]; simpl in *.
  - intros k i a Hi. destruct (Hs k i a Hi) as (o & Ho & Hid & Hm & Hk).
    specialize (Hr a). rewrite Ho in Hr. destruct (h' !! a) as [o'|]; [|done].
    destruct Hr as (E1 & E2 & E3). exists o'. rewrite E1, E2, E3. done.
  - done.
  - intros a o' Ho' Hid Hm. specialize (Hr a). rewrite Ho' in Hr.
    destruct (h !! a) as [o|] eqn:Ho; [|done]. destruct Hr as (E1 & E2 & E3).
    rewrite E1, E3. apply Hst; congruence.
Qed.

Lemma merge_Vertex_success fuel toKeep toRemove lenCf w w' :
  merge_Vertex fuel toKeep toRemove lenCf w = (Done S_OK, w') ->
  getPosition w' toKeep =
    vadd (getPosition w toKeep)
         (vscale (vsub (getPosition w toRemove) (getPosition w toKeep)) lenCf) /\
  (exists o', objs (w_state w') !! toRemove = Some o' /\ objId o' = -1 /\ mesh o' = None) /\
  (inventory_inv (w_state w) ->
   forall k i, inv (inventory k (msh (w_state w'))) !! i <> Some (Some toRemove)).
Proof. using_codes.
  unfold merge_Vertex.
  destruct (objs (w_state w) !! toKeep) as [ko|] eqn:Hk; [|done].
  destruct (objs (w_state w) !! toRemove) as [ro|] eqn:Hr; [|done].
  destruct (sharedSurfaces _ _ _) as [|s rest]; [intros [= E]; by destruct S_OK_neq_E_FAIL|].
  destruct (merge_rejects _ _ _); [intros [= E]; by destruct S_OK_neq_E_FAIL|].
  pose proof (detach_children_relinked toRemove (children ro) (objs (w_state w))) as Hrel.
  destruct (detach_children toRemove (children ro) (objs (w_state w))) as [[r| |] h1];
    simpl in Hrel; try done.
  destruct (r =? S_OK); simpl; [|intros [= E]; by destruct S_OK_neq_E_FAIL].
  assert (Hinv2 : inventory_inv (w_state w) ->
            inventory_inv (removeObj fuel toRemove (mkState h1 (msh (w_state w)))).2).
  { intros Hinv. apply removeObj_inventory_inv.
    eapply inventory_inv_relinked; [exact Hrel|]. by destruct (w_state w). }
  assert (Hr1 : exists ro1, h1 !! toRemove = Some ro1).
  { specialize (Hrel toRemove). rewrite Hr in Hrel. destruct (h1 !! toRemove); [eauto|done]. }
  destruct Hr1 as [ro1 Hr1].
  pose proof (removeObj_nulls_slot fuel toRemove (mkState h1 (msh (w_state w)))) as Hnull.
  unfold remove. destruct (removeObj fuel toRemove (mkState h1 (msh (w_state w))))
    as [[r2| |] st2] eqn:Hrm; simpl; try done.
  destruct (r2 =? S_OK) eqn:Hr2; simpl; [|intros [= E]; by destruct S_OK_neq_E_FAIL].
  apply Z.eqb_eq in Hr2 as ->. rewrite eqb_S_OK. simpl. intros [= <-]. simpl.
  destruct (Hnull st2 ro1 Hr1 eq_refl) as [_ Hun].
  split; [|split].
  - unfold getPosition. simpl. by rewrite decide_True.
  - exact Hun.
  - intros Hinv k i Hi. rewrite inventory_notify in Hi.
    destruct (Hinv2 Hinv) as (Hs & _ & _). simpl in Hs.
    destruct (Hs k i toRemove Hi) as (o & Ho & Hid & _).
    destruct Hun as (o' & Ho' & Hid' & _). rewrite Ho in Ho'. injection Ho' as <-. lia.
Qed.

(** ** Identifier allocation, closer *)

Lemma Mesh_invIdAndAlloc_reuse I a h :
  availIds I ≠ ∅ ->
  exists id,
    Mesh_invIdAndAlloc I (Some a) h =
      (id, mkInventory (<[id := Some a]> (inv I)) (availIds I ∖ {[id]}),
       alter (with_objId (Z.of_nat id)) a h) /\
    id ∈ availIds I /\ (forall y, y ∈ availIds I -> (id <= y)%nat).
Proof. using_none.
  intros Hne. unfold Mesh_invIdAndAlloc.
  destruct (set_begin (availIds I)) as [id|] eqn:Hb.
  - exists id. split; [done|]. split; [by apply set_begin_elem|].
    intros y Hy. by apply (set_begin_least _ _ _ Hb).
  - by apply set_begin_none in Hb.
Qed.

Lemma Mesh_invIdAndAlloc_grow I a h :
  availIds I = ∅ ->
  exists I',
    Mesh_invIdAndAlloc I (Some a) h =
      (length (inv I), I', alter (with_objId (Z.of_nat (length (inv I)))) a h) /\
    inv I' = inv I ++ Some a :: replicate (TFMESHINV_INCR - 1) None /\
    (forall i, i ∈ availIds I' <->
       (length (inv I) < i < length (inv I) + TFMESHINV_INCR)%nat).
Proof. using_incr.
  intros He. unfold Mesh_invIdAndAlloc. rewrite He.
  unfold set_begin. rewrite elements_empty.
  destruct (grow_loop_spec (length (inv I)) TFMESHINV_INCR (length (inv I)) I)
    as [Hinv Hmem].
  eexists. split; [reflexivity|]. simpl. split.
  - rewrite Hinv. destruct TFMESHINV_INCR as [|n]; [lia|]. simpl.
    rewrite Nat.sub_0_r, insert_app_r_alt by lia. by rewrite Nat.sub_diag.
  - intros i. rewrite Hmem, He. split.
    + intros [H|[H1 H2]]; [set_solver|lia].
    + intros H. right. lia.
Qed.

(** X1.  When identifiers are available in an inventory whose available
    set holds exactly the indices of its null slots, [Mesh_invIdAndAlloc]
    hands out the least of them: that slot was null and holds the object
    afterwards, every other slot is as before, the inventory is not
    grown, the object is given the identifier, and the available set is
    the old one without it and again holds exactly the indices of the null
    slots. *)
Theorem Mesh_invIdAndAlloc_least_available I a h :
  (forall i, i ∈ availIds I <-> inv I !! i = Some None) ->
  availIds I ≠ ∅ ->
  exists id I',
    Mesh_invIdAndAlloc I (Some a) h = (id, I', alter (with_objId (Z.of_nat id)) a h) /\
    id ∈ availIds I /\ (forall y, y ∈ availIds I -> (id <= y)%nat) /\
    inv I !! id = Some None /\ inv I' !! id = Some (Some a) /\
    (forall j, j <> id -> inv I' !! j = inv I !! j) /\
    length (inv I') = length (inv I) /\
    availIds I' = availIds I ∖ {[id]} /\
    (forall i, i ∈ availIds I' <-> inv I' !! i = Some None).
Proof. using_none.
  intros Hav Hne.
  destruct (Mesh_invIdAndAlloc_reuse I a h Hne) as (id & Hrun & Hin & Hleast).
  pose proof (proj1 (Hav id) Hin) as Hnull.
  pose proof (lookup_lt_Some _ _ _ Hnull) as Hlt.
  exists id, (mkInventory (<[id := Some a]> (inv I)) (availIds I ∖ {[id]})).
  split; [exact Hrun|]. split; [exact Hin|]. split; [exact Hleast|].
  split; [exact Hnull|]. simpl.
  split; [by apply list_lookup_insert_eq|].
  split; [intros j Hj; by rewrite list_lookup_insert_ne|].
  split; [apply length_insert|]. split; [done|].
  intros i. destruct (decide (i = id)) as [->|Hi].
  - rewrite list_lookup_insert_eq by done. set_solver.
  - rewrite list_lookup_insert_ne by done. rewrite <- Hav. set_solver.
Qed.

(** X2.  When no identifier is available, [Mesh_invIdAndAlloc] grows the
    inventory by one block of [TFMESHINV_INCR] slots: the object takes the
    first new slot, whose index is the old size, the other new slots are
    null and exactly their indices become available. *)
Theorem Mesh_invIdAndAlloc_grows_block I a h :
  availIds I = ∅ ->
  exists I',
    Mesh_invIdAndAlloc I (Some a) h =
      (length (inv I), I', alter (with_objId (Z.of_nat (length (inv I)))) a h) /\
    inv I' = inv I ++ Some a :: replicate (TFMESHINV_INCR - 1) None /\
    (forall i, i ∈ availIds I' <->
       (length (inv I) < i < length (inv I) + TFMESHINV_INCR)%nat).
Proof. using_incr. apply Mesh_invIdAndAlloc_grow. Qed.

(** ** What an add does to the objects *)

Lemma Mesh_invIdAndAlloc_store I a h :
  (Mesh_invIdAndAlloc I (Some a) h).2 =
  alter (with_objId (Z.of_nat (Mesh_invIdAndAlloc I (Some a) h).1.1)) a h.
Proof. using_none. unfold Mesh_invIdAndAlloc. by destruct (set_begin _). Qed.

Lemma Mesh_addObj_S_OK k a st :
  (Mesh_addObj k a st).1 = S_OK ->
  exists o id I' h1,
    objs st !! a = Some o /\ objId o < 0 /\ mesh o = None /\ validate o = true /\
    Mesh_invIdAndAlloc (inventory k (msh st)) (Some a) (objs st) = (id, I', h1) /\
    objs (Mesh_addObj k a st).2 =
      <[a := with_mesh (Some this) (with_objId (Z.of_nat id) o)]> (objs st) /\
    (forall k', inventory k' (msh (Mesh_addObj k a st).2) =
                if decide (k' = k) then I' else inventory k' (msh st)).
Proof. using_codes.
  unfold Mesh_addObj.
  destruct (Mesh_checkUnstoredObj (objs st) a =? S_OK) eqn:Hc; simpl;
    [|intros E; by destruct S_OK_neq_E_FAIL].
  apply Z.eqb_eq, Mesh_checkUnstoredObj_ok in Hc as (o & Ho & Hneg & Hnone).
  rewrite Ho. simpl. destruct (validate o) eqn:Hv; simpl;
    [|intros E; by destruct S_OK_neq_E_FAIL].
  pose proof (Mesh_invIdAndAlloc_store (inventory k (msh st)) a (objs st)) as Hst.
  destruct (Mesh_invIdAndAlloc _ _ _) as [[id I'] h1] eqn:Hal. simpl in Hst. subst h1.
  intros _. exists o, id, I', (alter (with_objId (Z.of_nat id)) a (objs st)).
  do 5 (split; [done|]). simpl. split.
  - apply map_eq. intros b. destruct (decide (b = a)) as [->|Hb].
    + by rewrite !lookup_alter_eq, lookup_insert_eq, Ho.
    + by rewrite !lookup_alter_ne, lookup_insert_ne.
  - intros k'. rewrite !lookup_alter_eq, Ho. simpl.
    by rewrite inventory_notify, inventory_set_inventory.
Qed.

Lemma Mesh_addObj_accepts k a st o :
  objs st !! a = Some o -> objId o < 0 -> mesh o = None -> validate o = true ->
  (Mesh_addObj k a st).1 = S_OK.
Proof. using_codes.
  intros Ho Hneg Hnone Hv. unfold Mesh_addObj.
  assert (Hc : Mesh_checkUnstoredObj (objs st) a = S_OK).
  { apply Mesh_checkUnstoredObj_ok. by exists o. }
  rewrite Hc, Z.eqb_refl, Ho. simpl. rewrite Hv. simpl.
  by destruct (Mesh_invIdAndAlloc _ _ _) as [[id I'] h1].
Qed.

Lemma Mesh_addObj_rejects k a st :
  (Mesh_addObj k a st).1 <> S_OK -> Mesh_addObj k a st = (E_FAIL, st).
Proof. using_none.
  unfold Mesh_addObj. destruct (_ || _); [done|].
  destruct (Mesh_invIdAndAlloc _ _ _) as [[id I'] h1]. simpl. done.
Qed.

Lemma TF_MESH_GETPART_Some i l b :
  TF_MESH_GETPART i l = Some b <-> l !! i = Some (Some b).
Proof. using_none.
  unfold TF_MESH_GETPART. destruct (Nat.leb_spec (length l) i) as [Hge|Hlt].
  - rewrite lookup_ge_None_2 by done. done.
  - destruct (lookup_lt_is_Some_2 l i Hlt) as [x Hx]. rewrite Hx. simpl.
    split; congruence.
Qed.

Lemma add_Vertex_unfold a st :
  add_Vertex a st =
  (Done (Mesh_addObj VERTEX a
           (mkState (objs st) (notify (solver_setDirty true) (set_isDirty true (msh st))))).1,
   (Mesh_addObj VERTEX a
      (mkState (objs st) (notify (solver_setDirty true) (set_isDirty true (msh st))))).2).
Proof. using_none. unfold add_Vertex. by destruct (Mesh_addObj _ _ _). Qed.

Lemma add_Vertex_success a st o :
  inventory_inv st ->
  objs st !! a = Some o -> objId o < 0 -> mesh o = None -> validate o = true ->
  exists id st',
    add_Vertex a st = (Done S_OK, st') /\
    objs st' = <[a := with_mesh (Some this) (with_objId (Z.of_nat id) o)]> (objs st) /\
    Mesh_invIdAndAlloc (vertexInv (msh st)) (Some a) (objs st) =
      (id, vertexInv (msh st'), alter (with_objId (Z.of_nat id)) a (objs st)) /\
    getVertex (msh st') id = Some a /\
    (forall i b, getVertex (msh st) i = Some b ->
       i <> id /\ getVertex (msh st') i = Some b).
Proof. using_both.
  intros (_ & Hav & _) Ho Hneg Hnone Hv. rewrite add_Vertex_unfold.
  set (st1 := mkState (objs st) _).
  pose proof (Mesh_addObj_accepts VERTEX a st1 o Ho Hneg Hnone Hv) as Hok.
  destruct (Mesh_addObj_S_OK VERTEX a st1 Hok)
    as (o' & id & I' & h1 & Ho' & _ & _ & _ & Hal & Hobjs & Hinvs).
  simpl in Ho'. rewrite Ho in Ho'. injection Ho' as <-.
  exists id, (Mesh_addObj VERTEX a st1).2. rewrite Hok. split; [done|].
  split; [exact Hobjs|].
  pose proof (Hinvs VERTEX) as HI. rewrite decide_True in HI by done. simpl in HI.
  change (inventory VERTEX (notify (solver_setDirty true) (set_isDirty true (msh st))))
    with (vertexInv (msh st)) in Hal.
  simpl in Hal. pose proof Hal as Hal'.
  apply Mesh_invIdAndAlloc_spec in Hal as (-> & Hfree & Hnew & Hkeep & _ & _);
    [|apply (Hav VERTEX)].
  split; [by rewrite HI|].
  unfold getVertex, vertices. rewrite HI. split; [by apply TF_MESH_GETPART_Some|].
  intros i b Hb. apply TF_MESH_GETPART_Some in Hb.
  assert (i <> id) by (intros ->; by apply Hfree in Hb).
  split; [done|]. apply TF_MESH_GETPART_Some. by apply Hkeep.
Qed.

(** X3.  From a state that satisfies the inventory invariant, [Mesh::add]
    on an unregistered, sound Vertex succeeds; the vertex is given an
    identifier and this mesh, [getVertex] at that identifier returns it,
    and every identifier that answered a vertex before still answers the
    same vertex. *)
Theorem add_Vertex_then_getVertex a st o :
  inventory_inv st ->
  objs st !! a = Some o -> objId o < 0 -> mesh o = None -> validate o = true ->
  exists id st',
    add_Vertex a st = (Done S_OK, st') /\
    objs st' = <[a := with_mesh (Some this) (with_objId (Z.of_nat id) o)]> (objs st) /\
    getVertex (msh st') id = Some a /\
    (forall i b, getVertex (msh st) i = Some b ->
       i <> id /\ getVertex (msh st') i = Some b).
Proof. using_both.
  intros Hinv Ho Hneg Hnone Hv.
  destruct (add_Vertex_success a st o Hinv Ho Hneg Hnone Hv)
    as (id & st' & H1 & H2 & _ & H3 & H4).
  by exists id, st'.
Qed.

Lemma add_Vertex_S_OK a st st' :
  add_Vertex a st = (Done S_OK, st') ->
  exists o id,
    objs st !! a = Some o /\ objId o < 0 /\ mesh o = None /\ validate o = true /\
    objs st' = <[a := with_mesh (Some this) (with_objId (Z.of_nat id) o)]> (objs st).
Proof. using_codes.
  rewrite add_Vertex_unfold. intros [= Hr <-].
  destruct (Mesh_addObj_S_OK _ _ _ Hr) as (o & id & I' & h1 & Ho & ? & ? & ? & _ & Hobjs & _).
  by exists o, id.
Qed.

Lemma add_Vertex_registered_fails a st o :
  objs st !! a = Some o -> 0 <= objId o \/ mesh o <> None \/ validate o = false ->
  add_Vertex a st =
  (Done E_FAIL, mkState (objs st) (notify (solver_setDirty true) (set_isDirty true (msh st)))).
Proof. using_codes.
  intros Ho Hbad. rewrite add_Vertex_unfold.
  rewrite Mesh_addObj_rejects; [done|].
  intros Hr. apply Mesh_addObj_S_OK in Hr as (o' & _ & _ & _ & Ho' & ? & ? & ? & _).
  simpl in Ho'. rewrite Ho in Ho'. injection Ho' as <-.
  destruct Hbad as [?|[?|?]]; [lia|done|congruence].
Qed.

(** X4.  A Vertex cannot be added twice: once [Mesh::add] has succeeded
    on it, a second [Mesh::add] on the same Vertex returns [E_FAIL] and
    leaves objects and inventories as they are. *)
Theorem add_Vertex_twice a st st' :
  add_Vertex a st = (Done S_OK, st') ->
  add_Vertex a st' =
  (Done E_FAIL, mkState (objs st') (notify (solver_setDirty true) (set_isDirty true (msh st')))).
Proof. using_codes.
  intros Hadd. apply add_Vertex_S_OK in Hadd as (o & id & Ho & _ & _ & _ & Hobjs).
  eapply (add_Vertex_registered_fails a st'); [rewrite Hobjs; apply lookup_insert_eq|].
  left. simpl. lia.
Qed.

(** ** What a removal does to the objects *)

Lemma removeObj_S_OK_stored fuel a st st' :
  removeObj fuel a st = (Done S_OK, st') ->
  exists fuel' o,
    fuel = S fuel' /\ objs st !! a = Some o /\ 0 <= objId o /\ mesh o = Some this /\
    remove_each (removeObj fuel') (children o) (unstore a o (mark_dirty st)) =
      (Done S_OK, st').
Proof. using_codes.
  destruct fuel as [|fuel]; simpl; [done|].
  destruct (Mesh_checkStoredObj (objs st) a this =? S_OK) eqn:Hc; simpl.
  2:{ intros [= E]. by destruct S_OK_neq_E_FAIL. }
  apply Z.eqb_eq, Mesh_checkStoredObj_ok in Hc as (o & Ho & Hid & Hm).
  rewrite Ho. destruct (_ <=? _)%nat.
  { intros [= E]. by destruct S_OK_neq_E_FAIL. }
  intros Hrun. by exists fuel, o.
Qed.

Lemma removal_frame_remove_each fuel cs s :
  removal_frame s (remove_each (removeObj fuel) cs s).2.
Proof. using_codes.
  apply remove_each_rel;
    [apply removal_frame_refl | apply removal_frame_trans | apply removeObj_frame].
Qed.

Lemma removal_frame_either s s' b o :
  removal_frame s s' -> objs s !! b = Some o ->
  objs s' !! b = Some o \/ objs s' !! b = Some (unregistered o).
Proof. using_none.
  intros (_ & Hobj & _) Ho.
  destruct (Hobj b o Ho) as (o' & Ho' & Ht & Hp & Hc & Hv & D). rewrite Ho'.
  destruct o' as [i' m' t' p' c' v'], o as [i m t p c v]. simpl in *. subst.
  destruct D as [[-> ->]|[-> ->]]; [by left | by right].
Qed.

Lemma removal_frame_unregistered s s' b o :
  removal_frame s s' -> objs s !! b = Some (unregistered o) ->
  objs s' !! b = Some (unregistered o).
Proof. using_none.
  intros Hf Ho. by destruct (removal_frame_either s s' b _ Hf Ho) as [H|H].
Qed.

Lemma removal_frame_child_of s s' a c :
  removal_frame s s' -> child_of (objs s) a c <-> child_of (objs s') a c.
Proof. using_none.
  intros (Hnone & Hobj & _). split.
  - intros (o & Ho & Hc). destruct (Hobj a o Ho) as (o' & Ho' & _ & _ & Hch & _).
    exists o'. by rewrite Hch.
  - intros (o' & Ho' & Hc). destruct (objs s !! a) as [o|] eqn:Ho.
    + destruct (Hobj a o Ho) as (o'' & Ho'' & _ & _ & Hch & _).
      exists o. split; [done|]. congruence.
    + apply Hnone in Ho. congruence.
Qed.

Lemma removal_frame_descendant s s' a b :
  removal_frame s s' -> descendant (objs s) a b <-> descendant (objs s') a b.
Proof. using_none.
  intros Hf. split; apply rtc_subrel; intros x y;
    apply (removal_frame_child_of s s' x y Hf).
Qed.

Lemma remove_each_cascade fuel :
  (forall a st st', removeObj fuel a st = (Done S_OK, st') ->
     forall b o, descendant (objs st) a b -> objs st !! b = Some o ->
       objs st' !! b = Some (unregistered o)) ->
  forall cs s s', remove_each (removeObj fuel) cs s = (Done S_OK, s') ->
    forall c b o, c ∈ cs -> descendant (objs s) c b -> objs s !! b = Some o ->
      objs s' !! b = Some (unregistered o).
Proof. using_codes.
  intros IH cs. induction cs as [|c0 cs IHcs]; intros s s' Hrun c b o Hc Hd Ho.
  { by apply elem_of_nil in Hc. }
  simpl in Hrun.
  pose proof (removeObj_frame fuel c0 s) as Hf0.
  destruct (removeObj fuel c0 s) as [[r| |] s1] eqn:Hrm; try done.
  destruct (r =? S_OK) eqn:Hr; [|injection Hrun as E; by destruct S_OK_neq_E_FAIL].
  apply Z.eqb_eq in Hr as ->. simpl in Hf0.
  pose proof (removal_frame_remove_each fuel cs s1) as Hf1. rewrite Hrun in Hf1.
  simpl in Hf1.
  destruct (decide (c = c0)) as [->|Hne].
  - eapply removal_frame_unregistered; [exact Hf1|]. by eapply IH.
  - apply elem_of_cons in Hc as [?|Hc]; [done|].
    apply (removal_frame_descendant _ _ _ _ Hf0) in Hd.
    destruct (removal_frame_either _ _ _ _ Hf0 Ho) as [Ho1|Ho1].
    + by eapply IHcs.
    + by apply (IHcs s1 s' Hrun c b _ Hc Hd Ho1).
Qed.

Lemma removeObj_cascade fuel a st st' :
  removeObj fuel a st = (Done S_OK, st') ->
  forall b o, descendant (objs st) a b -> objs st !! b = Some o ->
    objs st' !! b = Some (unregistered o).
Proof. using_codes.
  revert a st st'. induction fuel as [|fuel IH]; intros a st st' Hrun b o Hd Ho.
  { done. }
  apply removeObj_S_OK_stored in Hrun as (fuel' & oa & [= <-] & Hoa & _ & _ & Hrun).
  set (s0 := unstore a oa (mark_dirty st)) in *.
  assert (Hf0 : removal_frame st s0).
  { eapply removal_frame_trans; [apply removal_frame_mark_dirty|].
    by apply removal_frame_unstore. }
  pose proof (removal_frame_remove_each fuel (children oa) s0) as Hf1.
  rewrite Hrun in Hf1. simpl in Hf1.
  apply rtc_inv in Hd as [->|(c & (oa' & Hoa' & Hc) & Hd)].
  - rewrite Hoa in Ho. injection Ho as <-.
    eapply removal_frame_unregistered; [exact Hf1|]. apply lookup_insert_eq.
  - rewrite Hoa in Hoa'. injection Hoa' as <-.
    apply (removal_frame_descendant _ _ _ _ Hf0) in Hd.
    destruct (removal_frame_either _ _ _ _ Hf0 Ho) as [Ho1|Ho1].
    + by eapply (remove_each_cascade fuel IH).
    + by apply (remove_each_cascade fuel IH _ _ _ Hrun c b _ Hc Hd Ho1).
Qed.

Lemma remove_each_outside fuel :
  (forall a s b o, objs s !! b = Some o -> ~ descendant (objs s) a b ->
     objs (removeObj fuel a s).2 !! b = Some o) ->
  forall cs s b o, objs s !! b = Some o ->
    (forall c, c ∈ cs -> ~ descendant (objs s) c b) ->
    objs (remove_each (removeObj fuel) cs s).2 !! b = Some o.
Proof. using_codes.
  intros IH cs. induction cs as [|c0 cs IHcs]; intros s b o Ho Hout; simpl; [done|].
  pose proof (removeObj_frame fuel c0 s) as Hf0.
  pose proof (IH c0 s b o Ho (Hout c0 (list_elem_of_here _ _))) as Ho1.
  destruct (removeObj fuel c0 s) as [[r| |] s1] eqn:Hrm; simpl in *; try done.
  destruct (r =? S_OK); [|done].
  apply IHcs; [done|]. intros c Hc Hd.
  apply (Hout c); [by apply list_elem_of_further|].
  by apply (removal_frame_descendant _ _ _ _ Hf0).
Qed.

Lemma removeObj_outside fuel a s b o :
  objs s !! b = Some o -> ~ descendant (objs s) a b ->
  objs (removeObj fuel a s).2 !! b = Some o.
Proof. using_codes.
  revert a s b o. induction fuel as [|fuel IH]; intros a s b o Ho Hout; simpl; [done|].
  destruct (negb _); [done|].
  destruct (objs s !! a) as [oa|] eqn:Hoa; [|done].
  destruct (_ <=? _)%nat; [done|].
  assert (Hf0 : removal_frame s (unstore a oa (mark_dirty s))).
  { eapply removal_frame_trans; [apply removal_frame_mark_dirty|].
    by apply removal_frame_unstore. }
  apply (remove_each_outside fuel IH).
  - simpl. rewrite lookup_insert_ne; [done|]. intros ->. apply Hout. apply rtc_refl.
  - intros c Hc Hd. apply Hout. apply rtc_l with c; [by exists oa|].
    by apply (removal_frame_descendant _ _ _ _ Hf0).
Qed.

(** X5.  A successful [removeObj] unregisters the whole cascade: the
    object and everything below it through the children lists end with
    identifier -1 and no mesh, and are otherwise as before. *)
Theorem removeObj_unregisters_descendants fuel a st st' b o :
  removeObj fuel a st = (Done S_OK, st') ->
  descendant (objs st) a b -> objs st !! b = Some o ->
  objs st' !! b = Some (unregistered o).
Proof. using_codes. intros Hrun. exact (removeObj_cascade fuel a st st' Hrun b o). Qed.

(** X6.  Whatever it returns, [removeObj] touches nothing outside the
    cascade: an object that is not reached from the removed one through
    the children lists is exactly as before.  In particular the vertices
    of a removed Surface stay registered. *)
Theorem removeObj_leaves_the_rest fuel a st b o :
  objs st !! b = Some o -> ~ descendant (objs st) a b ->
  objs (removeObj fuel a st).2 !! b = Some o.
Proof. using_codes. apply removeObj_outside. Qed.

(** X7.  An object cannot be removed twice: after a successful
    [removeObj] a second one on the same object returns [E_FAIL] and only
    raises the dirty flag. *)
Theorem removeObj_twice fuel fuel' a st st' :
  removeObj fuel a st = (Done S_OK, st') ->
  removeObj (S fuel') a st' = (Done E_FAIL, mark_dirty st').
Proof. using_codes.
  intros Hrun. pose proof Hrun as Hst.
  apply removeObj_S_OK_stored in Hst as (_ & o & _ & Ho & _).
  destruct (removeObj_nulls_slot fuel a st st' o Ho Hrun) as (_ & o' & Ho' & Hid & Hm).
  apply removeObj_check_failure. left. intros Hc.
  apply Mesh_checkStoredObj_ok in Hc as (o2 & Ho2 & Hid2 & _).
  rewrite Ho' in Ho2. injection Ho2 as <-. lia.
Qed.

(** X8.  Identifiers are recycled, smallest first: after a successful
    removal of a Vertex, the next [Mesh::add] of an unregistered, sound
    Vertex succeeds with an identifier no larger than the one that was
    freed, [getVertex] answers the new vertex at it, and the inventory is
    not grown. *)
Theorem remove_then_add_reuses fuel a b st st1 o ob :
  inventory_inv st ->
  objs st !! a = Some o -> objType o = VERTEX ->
  removeObj fuel a st = (Done S_OK, st1) ->
  objs st1 !! b = Some ob -> objId ob < 0 -> mesh ob = None -> validate ob = true ->
  exists id st2,
    add_Vertex b st1 = (Done S_OK, st2) /\
    getVertex (msh st2) id = Some b /\
    (id <= Z.to_nat (objId o))%nat /\
    length (vertices (msh st2)) = length (vertices (msh st1)).
Proof. using_both.
  intros Hinv Ho Hk Hrun Hob Hneg Hnone Hv.
  assert (Hinv1 : inventory_inv st1).
  { pose proof (removeObj_inventory_inv fuel a st Hinv) as H. by rewrite Hrun in H. }
  destruct (removeObj_nulls_slot fuel a st st1 o Ho Hrun) as (Hslot & _).
  rewrite Hk in Hslot. simpl in Hslot.
  pose proof Hinv1 as (_ & Hav & _). apply (Hav VERTEX) in Hslot. simpl in Hslot.
  destruct (add_Vertex_success b st1 ob Hinv1 Hob Hneg Hnone Hv)
    as (id & st2 & Hadd & _ & Hal & Hget & _).
  exists id, st2. split; [done|]. split; [done|].
  destruct (Mesh_invIdAndAlloc_reuse (vertexInv (msh st1)) b (objs st1))
    as (id' & Hal' & _ & Hleast); [set_solver|].
  rewrite Hal' in Hal. injection Hal as -> HI _.
  split; [by apply Hleast|].
  unfold vertices. rewrite <- HI. simpl. apply length_insert.
Qed.

(** ** The reach of an add *)

Lemma add_unstored_rel (R : State -> State -> Prop) addp :
  (forall s, R s s) -> (forall s1 s2 s3, R s1 s2 -> R s2 s3 -> R s1 s3) ->
  (forall p s, R s (addp p s).2) ->
  forall ps s, R s (add_unstored addp ps s).2.
Proof. using_none.
  intros Hr Ht Hp ps. induction ps as [|p ps IH]; intros s; simpl; [apply Hr|].
  destruct (objs s !! p) as [o|]; [|apply Hr].
  destruct (objId o <? 0); [|apply IH].
  pose proof (Hp p s) as H1. destruct (addp p s) as [[r| |] s1]; simpl in *; try done.
  destruct (r =? S_OK); [|done]. eapply Ht; [exact H1|apply IH].
Qed.

Lemma add_self_rel (R : State -> State -> Prop) k a r st :
  (forall s1 s2 s3, R s1 s2 -> R s2 s3 -> R s1 s3) ->
  (forall s, R s (Mesh_addObj k a s).2) ->
  R st r.2 -> R st (add_self k a r).2.
Proof. using_none.
  intros Ht HA. destruct r as [[hr| |] s1]; simpl; try done.
  destruct (hr =? S_OK); [|done]. intros H1. pose proof (HA s1) as H2.
  destruct (Mesh_addObj k a s1) as [r2 s2]. simpl in *.
  destruct (r2 =? S_OK); simpl; by eapply Ht.
Qed.

Lemma add_rel (R : State -> State -> Prop) :
  (forall s, R s s) -> (forall s1 s2 s3, R s1 s2 -> R s2 s3 -> R s1 s3) ->
  (forall s m, R s (mkState (objs s) m)) ->
  (forall k a s, R s (Mesh_addObj k a s).2) ->
  (forall a s, R s (add_Vertex a s).2) /\
  (forall a s, R s (add_Surface a s).2) /\
  (forall a s, R s (add_Body a s).2) /\
  (forall fuel a s, R s (add_Structure fuel a s).2).
Proof. using_none.
  intros Hr Ht Hm HA.
  assert (HV : forall a s, R s (add_Vertex a s).2).
  { intros a s. rewrite add_Vertex_unfold. simpl. eapply Ht; [apply Hm|apply HA]. }
  assert (Hcomp : forall k addp a s o,
            (forall p s', R s' (addp p s').2) ->
            R s (add_self k a (add_unstored addp (parents o) (mark_dirty s))).2).
  { intros k addp a s o Hp. apply add_self_rel; [done|apply HA|].
    apply Ht with (mark_dirty s); [apply (Hm s)|]. by apply add_unstored_rel. }
  assert (HS : forall a s, R s (add_Surface a s).2).
  { intros a s. unfold add_Surface. destruct (objs s !! a) as [o|]; [|apply Hm].
    by apply Hcomp. }
  assert (HB : forall a s, R s (add_Body a s).2).
  { intros a s. unfold add_Body. destruct (objs s !! a) as [o|]; [|apply Hm].
    by apply Hcomp. }
  do 3 (split; [done|]).
  intros fuel. induction fuel as [|fuel IH]; intros a s; simpl; [apply Hr|].
  destruct (objs s !! a) as [o|]; [|apply Hm].
  apply Hcomp. intros p s'. destruct (objType <$> objs s' !! p) as [[| | |]|]; simpl;
    try apply Hr; [apply HB | apply IH].
Qed.

Lemma keeps_registered_trans s1 s2 s3 :
  keeps_registered s1 s2 -> keeps_registered s2 s3 -> keeps_registered s1 s3.
Proof. using_none. intros H1 H2 b o Ho Hid. apply H2; [|done]. by apply H1. Qed.

Lemma Mesh_addObj_keeps k a s : keeps_registered s (Mesh_addObj k a s).2.
Proof. using_codes.
  intros b o Ho Hid. destruct (decide ((Mesh_addObj k a s).1 = S_OK)) as [Hr|Hr].
  - destruct (Mesh_addObj_S_OK k a s Hr)
      as (oa & id & I' & h1 & Hoa & Hneg & _ & _ & _ & Hobjs & _).
    rewrite Hobjs, lookup_insert_ne; [done|]. intros ->.
    rewrite Hoa in Ho. injection Ho as <-. lia.
  - by rewrite Mesh_addObj_rejects.
Qed.

Lemma add_frame_all :
  (forall a s, add_frame s (add_Vertex a s).2) /\
  (forall a s, add_frame s (add_Surface a s).2) /\
  (forall a s, add_frame s (add_Body a s).2) /\
  (forall fuel a s, add_frame s (add_Structure fuel a s).2).
Proof. using_codes.
  apply (add_rel add_frame).
  - intros s. split; [by intros b o|apply same_relations_refl].
  - intros s1 s2 s3 [K1 R1] [K2 R2]. split;
      [by eapply keeps_registered_trans | by eapply same_relations_trans].
  - intros s m. split; [by intros b o|apply same_relations_refl].
  - intros k a s. split; [apply Mesh_addObj_keeps|apply Mesh_addObj_same_relations].
Qed.


Lemma has_id_keeps s s' p : keeps_registered s s' -> has_id s p -> has_id s' p.
Proof. using_none. intros K (o & Ho & Hid). exists o. split; [by apply K|done]. Qed.

Lemma add_unstored_registers addp ps st st' :
  (forall p s s', addp p s = (Done S_OK, s') -> has_id s' p) ->
  (forall p s, keeps_registered s (addp p s).2) ->
  add_unstored addp ps st = (Done S_OK, st') ->
  forall p, p ∈ ps -> has_id st' p.
Proof. using_codes.
  intros Hreg Hkeep. revert st.
  induction ps as [|p0 ps IH]; intros st Hrun p Hp; [by apply elem_of_nil in Hp|].
  simpl in Hrun. destruct (objs st !! p0) as [o|] eqn:Ho; [|done].
  assert (Hrest : forall s1, has_id s1 p0 ->
            add_unstored addp ps s1 = (Done S_OK, st') -> has_id st' p).
  { intros s1 H0 Hrun1. apply elem_of_cons in Hp as [->|Hp]; [|by eapply IH].
    eapply has_id_keeps; [|exact H0].
    pose proof (add_unstored_rel keeps_registered addp) as K.
    specialize (K (fun s b o => fun H _ => H) keeps_registered_trans Hkeep ps s1).
    by rewrite Hrun1 in K. }
  destruct (Z.ltb_spec (objId o) 0) as [Hneg|Hpos].
  - destruct (addp p0 st) as [[r| |] s1] eqn:Hadd; try done.
    destruct (r =? S_OK) eqn:Hr; [|injection Hrun as E; by destruct S_OK_neq_E_FAIL].
    apply Z.eqb_eq in Hr as ->. apply (Hrest s1); [by eapply Hreg|done].
  - apply (Hrest st); [by exists o|done].
Qed.

Lemma add_composite_S_OK k addp a st st' o :
  (forall p s s', addp p s = (Done S_OK, s') -> has_id s' p) ->
  (forall p s, keeps_registered s (addp p s).2) ->
  add_self k a (add_unstored addp (parents o) (mark_dirty st)) = (Done S_OK, st') ->
  (exists o', objs st' !! a = Some o' /\ registered o') /\
  forall p, p ∈ parents o -> has_id st' p.
Proof. using_codes.
  intros Hreg Hkeep Hrun.
  destruct (add_unstored addp (parents o) (mark_dirty st)) as [[hr| |] s1] eqn:Hun;
    simpl in Hrun; try done.
  destruct (hr =? S_OK) eqn:Hhr; [|injection Hrun as E; by destruct S_OK_neq_E_FAIL].
  apply Z.eqb_eq in Hhr as ->.
  pose proof (Mesh_addObj_keeps k a s1) as K.
  destruct (Mesh_addObj k a s1) as [r2 s2] eqn:HA.
  destruct (r2 =? S_OK) eqn:Hr2; [|injection Hrun as E; by destruct S_OK_neq_E_FAIL].
  apply Z.eqb_eq in Hr2 as ->. injection Hrun as <-.
  assert (Hr : (Mesh_addObj k a s1).1 = S_OK) by (by rewrite HA).
  destruct (Mesh_addObj_S_OK k a s1 Hr) as (oa & id & I' & h1 & _ & _ & _ & _ & _ & Hobjs & _).
  rewrite HA in Hobjs. simpl in Hobjs, K. split.
  - rewrite Hobjs, lookup_insert_eq. eexists. split; [done|]. split; simpl; [lia|done].
  - intros p Hp. eapply has_id_keeps; [exact K|].
    by eapply add_unstored_registers.
Qed.

Lemma add_Vertex_has_id p s s' : add_Vertex p s = (Done S_OK, s') -> has_id s' p.
Proof. using_codes.
  intros H. apply add_Vertex_S_OK in H as (o & id & _ & _ & _ & _ & Hobjs).
  eexists. rewrite Hobjs, lookup_insert_eq. split; [done|]. simpl. lia.
Qed.

Lemma add_Surface_S_OK a st st' :
  add_Surface a st = (Done S_OK, st') ->
  exists o, objs st !! a = Some o /\
    (exists o', objs st' !! a = Some o' /\ registered o') /\
    forall p, p ∈ parents o -> has_id st' p.
Proof. using_codes.
  unfold add_Surface. destruct (objs st !! a) as [o|]; [|done]. intros Hrun.
  exists o. split; [done|]. eapply add_composite_S_OK; [| |exact Hrun].
  - apply add_Vertex_has_id.
  - intros p s. apply add_frame_all.
Qed.

Lemma add_Body_S_OK a st st' :
  add_Body a st = (Done S_OK, st') ->
  exists o, objs st !! a = Some o /\
    (exists o', objs st' !! a = Some o' /\ registered o') /\
    forall p, p ∈ parents o -> has_id st' p.
Proof. using_codes.
  unfold add_Body. destruct (objs st !! a) as [o|]; [|done]. intros Hrun.
  exists o. split; [done|]. eapply add_composite_S_OK; [| |exact Hrun].
  - intros p s s' H. apply add_Surface_S_OK in H as (_ & _ & (o' & Ho' & Hid & _) & _).
    by exists o'.
  - intros p s. apply add_frame_all.
Qed.

(** X10.  A composite add that succeeds leaves nothing half-registered:
    after [Mesh::add] on a Surface (on a Body) has returned [S_OK], the
    Surface (the Body) is registered with this mesh and every one of its
    vertices (of its surfaces) holds an identifier. *)
Theorem add_composite_registers_parts :
  (forall a st st',
     add_Surface a st = (Done S_OK, st') ->
     exists o, objs st !! a = Some o /\
       (exists o', objs st' !! a = Some o' /\ registered o') /\
       forall p, p ∈ parents o -> has_id st' p) /\
  (forall a st st',
     add_Body a st = (Done S_OK, st') ->
     exists o, objs st !! a = Some o /\
       (exists o', objs st' !! a = Some o' /\ registered o') /\
       forall p, p ∈ parents o -> has_id st' p).
Proof. using_codes. split; [apply add_Surface_S_OK | apply add_Body_S_OK]. Qed.

(** ** Validation and lookup by position *)

Lemma Mesh_validateInv_sound h l :
  (forall i a, l !! i = Some (Some a) -> exists o, h !! a = Some o /\ validate o = true) ->
  (Mesh_validateInv h l = Done true /\ forall i, l !! i <> Some None) \/
  (Mesh_validateInv h l = NullDeref /\ exists i, l !! i = Some None).
Proof. using_none.
  induction l as [|[a|] l IH]; intros Hs; simpl.
  - left. split; [done|]. intros i. by rewrite lookup_nil.
  - destruct (Hs 0%nat a eq_refl) as (o & -> & ->). simpl.
    destruct IH as [[E Hn]|[E [i Hi]]].
    { intros i b Hb. apply (Hs (S i) b Hb). }
    + left. split; [done|]. intros [|i]; [done|apply Hn].
    + right. split; [done|]. by exists (S i).
  - right. split; [done|]. by exists 0%nat.
Qed.

Lemma Mesh_validateInv_app h l1 l2 :
  Forall (fun x => exists a o, x = Some a /\ h !! a = Some o /\ validate o = true) l1 ->
  Mesh_validateInv h (l1 ++ l2) = Mesh_validateInv h l2.
Proof. using_none.
  induction 1 as [|x l1 (a & o & -> & Ho & Hv) _ IH]; simpl; [done|].
  by rewrite Ho, Hv.
Qed.

(** X11.  On a mesh whose stored objects are all sound, [Mesh::validate]
    answers [true] when no inventory has a null slot and dereferences a
    null pointer as soon as one has: it calls [validate()] through every
    slot. *)
Theorem Mesh_validate_null_slot st :
  (forall k i a, inv (inventory k (msh st)) !! i = Some (Some a) ->
     exists o, objs st !! a = Some o /\ validate o = true) ->
  (Mesh_validate st = Done true /\
   forall k i, inv (inventory k (msh st)) !! i <> Some None) \/
  (Mesh_validate st = NullDeref /\
   exists k i, inv (inventory k (msh st)) !! i = Some None).
Proof. using_none.
  intros Hs. unfold Mesh_validate, vertices, surfaces, bodies, structures.
  destruct (Mesh_validateInv_sound (objs st) (inv (vertexInv (msh st))) (Hs VERTEX))
    as [[-> HV]|[-> [i Hi]]]; [|right; split; [done|]; by exists VERTEX, i].
  destruct (Mesh_validateInv_sound (objs st) (inv (surfaceInv (msh st))) (Hs SURFACE))
    as [[-> HS]|[-> [i Hi]]]; [|right; split; [done|]; by exists SURFACE, i].
  destruct (Mesh_validateInv_sound (objs st) (inv (bodyInv (msh st))) (Hs BODY))
    as [[-> HB]|[-> [i Hi]]]; [|right; split; [done|]; by exists BODY, i].
  destruct (Mesh_validateInv_sound (objs st) (inv (structureInv (msh st))) (Hs STRUCTURE))
    as [[-> HT]|[-> [i Hi]]]; [|right; split; [done|]; by exists STRUCTURE, i].
  left. split; [done|]. by intros [| | |].
Qed.

(** X12.  Whenever [Mesh::add] has to grow the vertex inventory and the
    block increment is at least 2, the mesh is left with null slots:
    the add succeeds and a [Mesh::validate] right after it dereferences a
    null pointer, although every stored vertex is sound. *)
Theorem Mesh_validate_after_growth a st o :
  inventory_inv st -> vertexIdsAvail (msh st) = ∅ ->
  (forall i b ob, vertices (msh st) !! i = Some (Some b) ->
     objs st !! b = Some ob -> validate ob = true) ->
  (2 <= TFMESHINV_INCR)%nat ->
  objs st !! a = Some o -> objId o < 0 -> mesh o = None -> validate o = true ->
  exists st', add_Vertex a st = (Done S_OK, st') /\ Mesh_validate st' = NullDeref.
Proof. using_both.
  intros Hinv Hfull Hsound Hincr Ho Hneg Hnone Hv.
  destruct (add_Vertex_success a st o Hinv Ho Hneg Hnone Hv)
    as (id & st' & Hadd & Hobjs & Hal & _ & _).
  exists st'. split; [done|].
  destruct (Mesh_invIdAndAlloc_grow (vertexInv (msh st)) a (objs st) Hfull)
    as (I' & Hal' & Hslots & _).
  rewrite Hal' in Hal. injection Hal as _ HI. rewrite HI in Hslots.
  unfold Mesh_validate. unfold vertices at 1. rewrite Hslots.
  destruct Hinv as (Hok & Hav & _).
  rewrite Mesh_validateInv_app.
  - simpl. rewrite Hobjs, lookup_insert_eq. simpl. rewrite Hv. simpl.
    destruct TFMESHINV_INCR as [|[|n]]; [lia|lia|done].
  - apply Forall_lookup. intros i x Hx. destruct x as [b|].
    + destruct (Hok VERTEX i b Hx) as (ob & Hob & Hid & _).
      exists b, ob. split; [done|]. split.
      * rewrite Hobjs, lookup_insert_ne; [done|]. intros ->.
        rewrite Ho in Hob. injection Hob as <-. lia.
      * by eapply Hsound.
    + apply (Hav VERTEX) in Hx. unfold vertexIdsAvail in Hfull. simpl in Hx.
      rewrite Hfull in Hx. by apply elem_of_empty in Hx.
Qed.

Lemma findVertex_loop_found posOf pos tol slots v :
  findVertex_loop posOf pos tol slots = Found v <->
  exists i, slots !! i = Some (Some v) /\
    fleb (relativeLength (posOf v) pos) tol = true /\
    forall j, (j < i)%nat ->
      exists u, slots !! j = Some (Some u) /\
                fleb (relativeLength (posOf u) pos) tol = false.
Proof. using_none.
  induction slots as [|[u|] l IH]; simpl.
  - split; [done|]. intros (i & Hi & _). by rewrite lookup_nil in Hi.
  - destruct (fleb (relativeLength (posOf u) pos) tol) eqn:Hu.
    + split.
      * intros [= <-]. exists 0%nat. split; [done|]. split; [done|]. intros j Hj. lia.
      * intros ([|i] & Hi & Hv & Hbefore); [by injection Hi as <-|].
        destruct (Hbefore 0%nat) as (u' & [= <-] & Hu'); [lia|congruence].
    + rewrite IH. split.
      * intros (i & Hi & Hv & Hbefore). exists (S i). split; [done|]. split; [done|].
        intros [|j] Hj; [by exists u|]. apply Hbefore. lia.
      * intros ([|i] & Hi & Hv & Hbefore); [injection Hi as <-; congruence|].
        exists i. split; [done|]. split; [done|].
        intros j Hj. apply (Hbefore (S j)). lia.
  - split; [done|]. intros ([|i] & Hi & _ & Hbefore); [done|].
    destruct (Hbefore 0%nat) as (u' & [=] & _). lia.
Qed.

Lemma findVertex_loop_not_found posOf pos tol slots :
  findVertex_loop posOf pos tol slots = NotFound <->
  forall i x, slots !! i = Some x ->
    exists u, x = Some u /\ fleb (relativeLength (posOf u) pos) tol = false.
Proof. using_none.
  induction slots as [|[u|] l IH]; simpl.
  - split; [|done]. intros _ i x Hi. by rewrite lookup_nil in Hi.
  - destruct (fleb (relativeLength (posOf u) pos) tol) eqn:Hu.
    + split; [done|]. intros H. destruct (H 0%nat _ eq_refl) as (u' & [= <-] & ?).
      congruence.
    + rewrite IH. split.
      * intros H [|i] x Hi; [injection Hi as <-; by exists u|]. by apply (H i).
      * intros H i x Hi. by apply (H (S i)).
  - split; [done|]. intros H. by destruct (H 0%nat _ eq_refl) as (u' & [=] & _).
Qed.

(** X13.  [Mesh::findVertex] answers the first vertex within the
    tolerance in slot order, that is the one with the lowest identifier
    and not the nearest one: it returns [v] exactly when some slot holds
    [v] within the tolerance and every slot before it holds a vertex
    farther than the tolerance; it returns [NULL] exactly when every slot
    holds a vertex farther than the tolerance. *)
Theorem findVertex_first_match w pos tol :
  (forall v, findVertex w pos tol = Found v <->
     exists i, vertices (msh (w_state w)) !! i = Some (Some v) /\
       fleb (relativeLength (w_pos w v) pos) tol = true /\
       forall j, (j < i)%nat ->
         exists u, vertices (msh (w_state w)) !! j = Some (Some u) /\
                   fleb (relativeLength (w_pos w u) pos) tol = false) /\
  (findVertex w pos tol = NotFound <->
     forall i x, vertices (msh (w_state w)) !! i = Some x ->
       exists u, x = Some u /\ fleb (relativeLength (w_pos w u) pos) tol = false).
Proof. using_none.
  split; [intros v; apply findVertex_loop_found | apply findVertex_loop_not_found].
Qed.

(** ** Insertion of a vertex between two others *)

Lemma insert_scan_Some v1 v2 vs s n i :
  insert_scan v1 v2 vs (seq s n) = Some i ->
  (s <= i < s + n)%nat /\
  ((vs !! i = Some v1 /\ vs !! next_index (length vs) i = Some v2) \/
   (vs !! i = Some v2 /\ vs !! next_index (length vs) i = Some v1)).
Proof. using_none.
  revert s. induction n as [|n IH]; intros s; simpl; [done|].
  case_bool_decide as Hc.
  - intros [= <-]. split; [lia|done].
  - intros H. apply IH in H as [? ?]. split; [lia|done].
Qed.

Lemma insert_scan_None v1 v2 vs s n i :
  insert_scan v1 v2 vs (seq s n) = None -> (s <= i < s + n)%nat ->
  ~ ((vs !! i = Some v1 /\ vs !! next_index (length vs) i = Some v2) \/
     (vs !! i = Some v2 /\ vs !! next_index (length vs) i = Some v1)).
Proof. using_none.
  revert s. induction n as [|n IH]; intros s; simpl; [lia|].
  case_bool_decide as Hc; [done|]. intros H Hi.
  destruct (decide (i = s)) as [->|Hne]; [done|]. apply (IH (S s)); [done|lia].
Qed.

Lemma insert_scan_adjacent v1 v2 vs :
  cyclically_adjacent vs v1 v2 <-> is_Some (insert_scan v1 v2 vs (seq 0 (length vs))).
Proof. using_none.
  split.
  - intros (i & Hi & Hc).
    destruct (insert_scan v1 v2 vs (seq 0 (length vs))) as [j|] eqn:Hs; [by eexists|].
    destruct (insert_scan_None _ _ _ _ _ i Hs); [lia|done].
  - intros [i Hs]. apply insert_scan_Some in Hs as [? ?]. exists i. split; [lia|done].
Qed.





Lemma insert_on_surface_parents x v1 v2 h s1 s so :
  h !! s = Some so ->
  exists so', insert_on_surface x v1 v2 h s1 !! s = Some so' /\
    parents so' = if decide (s = s1) then splice_between x v1 v2 (parents so)
                  else parents so.
Proof. using_none.
  intros Ho. unfold insert_on_surface, splice_between.
  destruct (decide (s = s1)) as [->|Hne].
  - rewrite Ho. destruct (insert_scan _ _ _ _) as [i|]; [|by exists so].
    unfold addChild. destruct (decide (s1 = x)) as [->|Hx].
    + rewrite lookup_alter_eq, lookup_insert_eq. simpl. by eexists.
    + rewrite lookup_alter_ne, lookup_insert_eq by done. by eexists.
  - destruct (h !! s1) as [so1|]; [|by exists so].
    destruct (insert_scan _ _ _ _) as [i|]; [|by exists so].
    unfold addChild. destruct (decide (s = x)) as [->|Hx].
    + rewrite lookup_alter_eq, lookup_insert_ne, Ho by done. simpl. by eexists.
    + rewrite lookup_alter_ne, lookup_insert_ne by done. by exists so.
Qed.

Lemma foldl_insert_on_surface x v1 v2 ss :
  NoDup ss -> forall h s so, h !! s = Some so ->
  exists so', foldl (insert_on_surface x v1 v2) h ss !! s = Some so' /\
    parents so' = if bool_decide (s ∈ ss) then splice_between x v1 v2 (parents so)
                  else parents so.
Proof. using_none.
  induction 1 as [|s1 ss Hnotin _ IH]; intros h s so Ho; simpl.
  { by exists so. }
  destruct (insert_on_surface_parents x v1 v2 h s1 s so Ho) as (so1 & Ho1 & Hp1).
  destruct (IH _ s so1 Ho1) as (so' & Ho' & Hp'). exists so'. split; [done|].
  rewrite Hp', Hp1. destruct (decide (s = s1)) as [->|Hne].
  - rewrite bool_decide_eq_false_2 by done.
    rewrite bool_decide_eq_true_2; [done|]. apply list_elem_of_here.
  - case_bool_decide as Hin.
    + rewrite bool_decide_eq_true_2; [done|]. by apply list_elem_of_further.
    + rewrite bool_decide_eq_false_2; [done|].
      intros [?|?]%elem_of_cons; done.
Qed.

Lemma Mesh_insert_objs x v1 v2 st o1 :
  objs st !! v1 = Some o1 ->
  objs (Mesh_insert x v1 v2 st).2 =
  objs (add_Vertex x
          (mkState (foldl (insert_on_surface x v1 v2) (objs st) (children o1)) (msh st))).2.
Proof. using_none.
  intros Ho1. unfold Mesh_insert. rewrite Ho1.
  destruct (add_Vertex _ _) as [[r| |] st2]; try done.
  by destruct (negb _).
Qed.

(** X15.  [Mesh::insert] rewrites the boundary of the Surfaces of [v1],
    and of nothing else: when the Surfaces of [v1] are distinct, every
    Surface of [v1] ends with the boundary the scan and splice give on its
    old boundary (unchanged where [v1] and [v2] are not cyclically
    adjacent) and every other object keeps its parents, whatever the call
    returns; when it returns [S_OK] the inserted vertex is registered with
    this mesh. *)
Theorem Mesh_insert_splices x v1 v2 st o1 r st' :
  objs st !! v1 = Some o1 -> NoDup (children o1) ->
  Mesh_insert x v1 v2 st = (r, st') ->
  (forall s so, objs st !! s = Some so ->
     exists so', objs st' !! s = Some so' /\
       parents so' = if bool_decide (s ∈ children o1)
                     then splice_between x v1 v2 (parents so) else parents so) /\
  (r = Done S_OK -> exists ox, objs st' !! x = Some ox /\ registered ox).
Proof. using_codes.
  intros Ho1 Hnd Hrun. split.
  - intros s so Ho.
    pose proof (Mesh_insert_objs x v1 v2 st o1 Ho1) as E. rewrite Hrun in E. simpl in E.
    destruct (foldl_insert_on_surface x v1 v2 (children o1) Hnd (objs st) s so Ho)
      as (so1 & Ho1' & Hp1).
    destruct (add_Vertex_same_relations x
                (mkState (foldl (insert_on_surface x v1 v2) (objs st) (children o1)) (msh st))
                s so1 Ho1') as (so' & Ho' & Hp' & _).
    exists so'. rewrite E. split; [done|]. by rewrite Hp'.
  - intros ->. unfold Mesh_insert in Hrun. rewrite Ho1 in Hrun.
    destruct (add_Vertex _ _) as [[r0| |] st2] eqn:Hadd; try done.
    destruct (r0 =? S_OK) eqn:Hr0; simpl in Hrun;
      [|injection Hrun as E; by destruct S_OK_neq_E_FAIL].
    apply Z.eqb_eq in Hr0 as ->. injection Hrun as <-.
    apply add_Vertex_S_OK in Hadd as (o & id & _ & _ & _ & _ & Hobjs).
    simpl. rewrite Hobjs, lookup_insert_eq. eexists. split; [done|].
    split; simpl; [lia|done].
Qed.

(** ** The adjacency check and the reach of a vertex merge *)

Lemma merge_scan_first K R vs s n i :
  (forall j, (s <= j < i)%nat -> vs !! j <> Some K /\ vs !! j <> Some R) ->
  (s <= i < s + n)%nat ->
  vs !! i = Some K \/ vs !! i = Some R ->
  merge_scan K R vs (seq s n) =
  bool_decide (vs !! next_index (length vs) i ≠
               Some (if bool_decide (vs !! i = Some K) then R else K)).
Proof. using_none.
  revert s. induction n as [|n IH]; intros s Hbefore Hi Hat; simpl; [lia|].
  destruct (decide (i = s)) as [->|Hne].
  - destruct (bool_decide (vs !! s = Some K)) eqn:HK; [done|].
    apply bool_decide_eq_false in HK. destruct Hat as [?|HR]; [done|].
    by rewrite (bool_decide_eq_true_2 _ HR).
  - destruct (Hbefore s) as [HK HR]; [lia|].
    rewrite (bool_decide_eq_false_2 _ HK), (bool_decide_eq_false_2 _ HR).
    apply IH; [|lia|done]. intros j Hj. apply Hbefore. lia.
Qed.

Lemma merge_rejects_ordered K R vs iK iR :
  NoDup vs -> vs !! iK = Some K -> vs !! iR = Some R -> (iK < iR)%nat ->
  (merge_rejects K R vs = false <-> vs !! S iK = Some R) /\
  (merge_rejects R K vs = false <-> vs !! S iK = Some R).
Proof. using_none.
  intros Hnd HK HR Hlt.
  pose proof (lookup_lt_Some _ _ _ HR) as HltR.
  assert (Hne : K <> R).
  { intros ->. pose proof (NoDup_lookup _ _ _ _ Hnd HK HR). lia. }
  assert (Hbefore : forall j, (0 <= j < iK)%nat -> vs !! j <> Some K /\ vs !! j <> Some R).
  { intros j Hj. split; intros Hx.
    - pose proof (NoDup_lookup _ _ _ _ Hnd HK Hx). lia.
    - pose proof (NoDup_lookup _ _ _ _ Hnd HR Hx). lia. }
  assert (Hnext : next_index (length vs) iK = S iK).
  { unfold next_index. destruct (Nat.leb_spec (length vs) (iK + 1)); lia. }
  unfold merge_rejects. split.
  - rewrite (merge_scan_first K R vs 0 (length vs) iK Hbefore); [|lia|by left].
    rewrite Hnext, (bool_decide_eq_true_2 (vs !! iK = Some K) HK), bool_decide_eq_false.
    split; [apply dec_stable|]. intros H1 H2. done.
  - rewrite (merge_scan_first R K vs 0 (length vs) iK); [|by intros j Hj; destruct (Hbefore j)|lia|by right].
    rewrite Hnext, (bool_decide_eq_false_2 (vs !! iK = Some R)) by congruence.
    rewrite bool_decide_eq_false.
    split; [apply dec_stable|]. intros H1 H2. done.
Qed.

(** X16.  On a boundary without repeated vertices, the adjacency loop of
    [Mesh::merge] on two vertices accepts two distinct vertices of the
    boundary exactly when one directly follows the other in the vertex
    list; the pair of the last and the first index is never accepted. *)
Theorem merge_rejects_consecutive toKeep toRemove vs :
  NoDup vs -> toKeep ∈ vs -> toRemove ∈ vs -> toKeep <> toRemove ->
  (merge_rejects toKeep toRemove vs = false <-> consecutive vs toKeep toRemove).
Proof. using_none.
  intros Hnd [iK HK]%list_elem_of_lookup [iR HR]%list_elem_of_lookup Hne.
  assert (iK <> iR) by (intros ->; congruence).
  destruct (decide (iK < iR)%nat) as [Hlt|Hge].
  - destruct (merge_rejects_ordered toKeep toRemove vs iK iR Hnd HK HR Hlt) as [-> _].
    split.
    + intros H1. exists iK. by left.
    + intros [i [[Ha Hb]|[Ha Hb]]].
      * by rewrite <- (NoDup_lookup _ _ _ _ Hnd Ha HK).
      * pose proof (NoDup_lookup _ _ _ _ Hnd Ha HR).
        pose proof (NoDup_lookup _ _ _ _ Hnd Hb HK). lia.
  - assert (Hlt : (iR < iK)%nat) by lia.
    destruct (merge_rejects_ordered toRemove toKeep vs iR iK Hnd HR HK Hlt) as [_ ->].
    split.
    + intros H1. exists iR. by right.
    + intros [i [[Ha Hb]|[Ha Hb]]].
      * pose proof (NoDup_lookup _ _ _ _ Hnd Ha HK).
        pose proof (NoDup_lookup _ _ _ _ Hnd Hb HR). lia.
      * by rewrite <- (NoDup_lookup _ _ _ _ Hnd Ha HR).
Qed.

Lemma foldl_erase_first cs rest :
  foldl (fun l c => erase_first c l) (cs ++ rest) cs = rest.
Proof. using_none.
  induction cs as [|c cs IH]; simpl; [done|]. by rewrite decide_True.
Qed.

Lemma detach_children_children v cs h h1 o :
  h !! v = Some o -> detach_children v cs h = (Done S_OK, h1) ->
  exists o1, h1 !! v = Some o1 /\
    children o1 = foldl (fun l c => erase_first c l) (children o) cs.
Proof. using_codes.
  revert h o. induction cs as [|c cs IH]; intros h o Ho; simpl.
  { intros [= <-]. by exists o. }
  unfold removeChild at 1. rewrite Ho. case_bool_decide as Hc; simpl.
  2:{ rewrite eqb_E_FAIL. simpl. intros [= E]. by destruct S_OK_neq_E_FAIL. }
  rewrite eqb_S_OK. simpl.
  set (h' := <[v := with_children (erase_first c (children o)) o]> h).
  unfold removeParent at 1. destruct (h' !! c) as [oc|] eqn:Hoc; [|done].
  case_bool_decide as Hp; simpl.
  2:{ rewrite eqb_E_FAIL. simpl. intros [= E]. by destruct S_OK_neq_E_FAIL. }
  rewrite eqb_S_OK. simpl. intros Hrun.
  destruct (decide (c = v)) as [->|Hne].
  - unfold h' in Hoc. rewrite lookup_insert_eq in Hoc. injection Hoc as <-.
    eapply IH in Hrun as (o1 & Ho1 & Hch); [|apply lookup_insert_eq].
    exists o1. split; [done|]. by rewrite Hch.
  - eapply IH in Hrun as (o1 & Ho1 & Hch);
      [|rewrite lookup_insert_ne by done; apply lookup_insert_eq].
    exists o1. split; [done|]. by rewrite Hch.
Qed.

(** X17.  A vertex merge that succeeds unregisters the removed vertex
    and nothing else: every other object keeps its identifier, its mesh
    and its type, so no Surface is lost to the cascade of the removal
    (the vertex is detached from all its Surfaces before it is removed). *)
Theorem merge_Vertex_unregisters_only_toRemove fuel toKeep toRemove lenCf w w' b o :
  merge_Vertex fuel toKeep toRemove lenCf w = (Done S_OK, w') ->
  b <> toRemove -> objs (w_state w) !! b = Some o ->
  exists o', objs (w_state w') !! b = Some o' /\
    objId o' = objId o /\ mesh o' = mesh o /\ objType o' = objType o.
Proof. using_codes.
  unfold merge_Vertex.
  destruct (objs (w_state w) !! toKeep) as [ko|] eqn:Hk; [|done].
  destruct (objs (w_state w) !! toRemove) as [ro|] eqn:Hr; [|done].
  destruct (sharedSurfaces _ _ _) as [|s rest]; [intros [= E]; by destruct S_OK_neq_E_FAIL|].
  destruct (merge_rejects _ _ _); [intros [= E]; by destruct S_OK_neq_E_FAIL|].
  pose proof (detach_children_relinked toRemove (children ro) (objs (w_state w))) as Hrel.
  destruct (detach_children toRemove (children ro) (objs (w_state w))) as [[r| |] h1] eqn:Hdet;
    simpl in Hrel; try done.
  destruct (r =? S_OK) eqn:Hr0; simpl; [|intros [= E]; by destruct S_OK_neq_E_FAIL].
  apply Z.eqb_eq in Hr0 as ->.
  destruct (detach_children_children _ _ _ _ _ Hr Hdet) as (ro1 & Hro1 & Hch).
  rewrite <- (app_nil_r (children ro)) in Hch at 1. rewrite foldl_erase_first in Hch.
  pose proof (removeObj_outside fuel toRemove (mkState h1 (msh (w_state w))) b) as Hout.
  unfold remove. destruct (removeObj fuel toRemove (mkState h1 (msh (w_state w))))
    as [[r2| |] st2] eqn:Hrm; simpl; try done.
  destruct (r2 =? S_OK) eqn:Hr2; simpl; [|intros [= E]; by destruct S_OK_neq_E_FAIL].
  rewrite eqb_S_OK. simpl. intros [= <-] Hb Ho. simpl.
  specialize (Hrel b). rewrite Ho in Hrel.
  destruct (h1 !! b) as [o1|] eqn:Ho1; [|done].
  exists o1. split; [|done]. apply Hout; [done|]. simpl.
  intros [->|(c & (ro' & Hro' & Hc) & _)]%rtc_inv; [done|].
  rewrite Hro1 in Hro'. injection Hro' as <-. rewrite Hch in Hc.
  by apply elem_of_nil in Hc.
Qed.

(** ** Connectivity of two vertices *)

Lemma connected_scan_spec v1 v2 prev rest :
  connected_scan v1 v2 prev rest = true <-> consecutive (prev :: rest) v1 v2.
Proof. using_none.
  revert prev. induction rest as [|x rest IH]; intros prev; simpl.
  - split; [done|]. intros [[|i] [[_ H]|[_ H]]]; done.
  - case_bool_decide as Hc.
    + split; [intros _|done]. exists 0%nat. simpl.
      destruct Hc as [[-> ->]|[-> ->]]; [by right|by left].
    + rewrite IH. split.
      * intros [i Hi]. by exists (S i).
      * intros [[|i] Hi]; [|by exists i]. simpl in Hi. destruct Hc.
        destruct Hi as [[[= ->] [= ->]]|[[= ->] [= ->]]]; [by right|by left].
Qed.

Lemma connected_surfaces_spec h v1 v2 ss :
  (forall s, s ∈ ss -> exists so, h !! s = Some so /\ parents so <> []) ->
  exists b, connected_surfaces h v1 v2 ss = Done b /\
    (b = true <->
     exists s so, s ∈ ss /\ h !! s = Some so /\ consecutive (parents so) v1 v2).
Proof. using_none.
  induction ss as [|s1 ss IH]; intros Hall; simpl.
  { exists false. split; [done|]. split; [done|].
    intros (s & so & Hs & _). by apply elem_of_nil in Hs. }
  destruct (Hall s1) as (so1 & Ho1 & Hne); [apply list_elem_of_here|].
  rewrite Ho1. destruct (parents so1) as [|first rest] eqn:Hp; [done|].
  destruct (connected_scan v1 v2 first rest) eqn:Hscan.
  - exists true. split; [done|]. split; [intros _|done].
    exists s1, so1. split; [apply list_elem_of_here|]. split; [done|].
    rewrite Hp. by apply connected_scan_spec.
  - destruct IH as (b & -> & Hb).
    { intros s Hs. apply Hall. by apply list_elem_of_further. }
    exists b. split; [done|]. rewrite Hb. split.
    + intros (s & so & Hs & Ho & Hc). exists s, so.
      split; [by apply list_elem_of_further|done].
    + intros (s & so & Hs & Ho & Hc).
      apply elem_of_cons in Hs as [->|Hs]; [|by exists s, so].
      rewrite Ho1 in Ho. injection Ho as <-. rewrite Hp in Hc.
      apply connected_scan_spec in Hc. congruence.
Qed.

(** X18.  [Mesh::connected] on two vertices, over Surfaces with a
    non-empty boundary, answers [true] exactly when on some Surface of
    [v1] one of the two vertices directly follows the other in the vertex
    list: only the Surfaces of [v1] are looked at and the edge from the
    last index back to index 0 is not. *)
Theorem connected_Vertex_consecutive h v1 v2 o1 :
  h !! v1 = Some o1 ->
  (forall s, s ∈ children o1 -> exists so, h !! s = Some so /\ parents so <> []) ->
  exists b, connected_Vertex h v1 v2 = Done b /\
    (b = true <->
     exists s so, s ∈ children o1 /\ h !! s = Some so /\
                  consecutive (parents so) v1 v2).
Proof. using_none.
  intros Ho1 Hall. unfold connected_Vertex. rewrite Ho1.
  by apply connected_surfaces_spec.
Qed.

Lemma closing_edge_not_consecutive a b m0 mid :
  NoDup (a :: m0 :: mid ++ [b]) -> ~ consecutive (a :: m0 :: mid ++ [b]) a b.
Proof. using_none.
  intros Hnd [i Hi].
  assert (Ha : (a :: m0 :: mid ++ [b]) !! 0%nat = Some a) by done.
  assert (Hb : (a :: m0 :: mid ++ [b]) !! S (S (length mid)) = Some b).
  { simpl. by rewrite list_lookup_middle. }
  destruct Hi as [[H1 H2]|[H1 H2]].
  - pose proof (NoDup_lookup _ _ _ _ Hnd H1 Ha) as ->.
    pose proof (NoDup_lookup _ _ _ _ Hnd H2 Hb). lia.
  - pose proof (NoDup_lookup _ _ _ _ Hnd H2 Ha). lia.
Qed.

(** X19.  Two vertices joined only by the closing edge of a boundary
    are not connected for [Mesh::connected]: when every Surface of [v1]
    has a boundary without repeats that starts with [v1], ends with [v2]
    and has a vertex in between, the answer is [false], although the two
    are cyclically adjacent on each of these Surfaces and the scan of
    [Mesh::insert] finds their edge. *)
Theorem connected_Vertex_misses_closing_edge h v1 v2 o1 :
  h !! v1 = Some o1 ->
  (forall s, s ∈ children o1 ->
     exists so m0 mid, h !! s = Some so /\ parents so = v1 :: m0 :: mid ++ [v2] /\
                       NoDup (parents so)) ->
  connected_Vertex h v1 v2 = Done false /\
  (forall s so, s ∈ children o1 -> h !! s = Some so ->
     cyclically_adjacent (parents so) v1 v2 /\
     is_Some (insert_scan v1 v2 (parents so) (seq 0 (length (parents so))))).
Proof. using_none.
  intros Ho1 Hall. split.
  - unfold connected_Vertex. rewrite Ho1.
    destruct (connected_surfaces_spec h v1 v2 (children o1)) as (b & -> & Hb).
    { intros s Hs. destruct (Hall s Hs) as (so & m0 & mid & Ho & Hp & _).
      exists so. split; [done|]. by rewrite Hp. }
    destruct b; [|done]. destruct Hb as [Hb _].
    destruct (Hb eq_refl) as (s & so & Hs & Ho & Hc).
    destruct (Hall s Hs) as (so' & m0 & mid & Ho' & Hp & Hnd).
    rewrite Ho in Ho'. injection Ho' as <-. rewrite Hp in Hc, Hnd.
    by destruct (closing_edge_not_consecutive _ _ _ _ Hnd).
  - intros s so Hs Ho. destruct (Hall s Hs) as (so' & m0 & mid & Ho' & Hp & _).
    rewrite Ho in Ho'. injection Ho' as <-.
    assert (Hadj : cyclically_adjacent (parents so) v1 v2).
    { rewrite Hp. apply wrap_cyclically_adjacent. }
    split; [done|]. by apply insert_scan_adjacent.
Qed.

(** ** The matching of a Surface merge *)

Lemma match_step_fold w kp ordered rvs acc :
  ((foldl (match_step w kp ordered) acc rvs).1 = None <->
   acc.1 = None /\ Forall (fun rv => rv ∈ ordered) rvs) /\
  (forall mv, (foldl (match_step w kp ordered) acc rvs).1 = Some mv ->
     acc.1 = Some mv \/ (mv ∈ rvs /\ mv ∉ ordered)).
Proof. using_none.
  revert acc. induction rvs as [|rv rvs IH]; intros acc; simpl.
  { split; [|by left]. split; [done|]. by intros [? _]. }
  destruct (IH (match_step w kp ordered acc rv)) as [IHn IHs].
  unfold match_step in IHn, IHs |- *.
  destruct (bool_decide (acc.1 = None) || _) eqn:Hfirst; simpl in *.
  - case_bool_decide as Hin; simpl in *.
    + split.
      * rewrite IHn. split; [by intros [? _]|].
        intros [_ Hall]. apply Forall_cons in Hall as [? _]. done.
      * intros mv Hmv. right. destruct (IHs mv Hmv) as [[= <-]|[? ?]].
        -- split; [apply list_elem_of_here|done].
        -- split; [by apply list_elem_of_further|done].
    + split.
      * rewrite IHn. rewrite Forall_cons. tauto.
      * intros mv Hmv. destruct (IHs mv Hmv) as [?|[? ?]]; [by left|].
        right. split; [by apply list_elem_of_further|done].
  - apply orb_false_iff in Hfirst as [Hnone _]. apply bool_decide_eq_false in Hnone.
    split.
    + rewrite IHn. split; [by intros [? _]|by intros [? _]].
    + intros mv Hmv. destruct (IHs mv Hmv) as [?|[? ?]]; [by left|].
      right. split; [by apply list_elem_of_further|done].
Qed.

Lemma match_vertices_Some w rvs excl ordered l :
  match_vertices w rvs excl ordered = Some l ->
  exists new, l = ordered ++ new /\ length new = length excl /\
    (forall x, x ∈ new -> x ∈ rvs) /\ (NoDup ordered -> NoDup l).
Proof. using_none.
  revert ordered. induction excl as [|kv excl IH]; intros ordered; simpl.
  { intros [= <-]. exists []. rewrite app_nil_r. split; [done|]. split; [done|].
    split; [|done]. intros x Hx. by apply elem_of_nil in Hx. }
  destruct (match_step_fold w (getPosition w kv) ordered rvs (None, flit 0)) as [_ Hs].
  destruct (foldl _ _ _).1 as [mv|]; [|done].
  destruct (Hs mv eq_refl) as [?|[Hin Hnot]]; [done|].
  intros Hrun. apply IH in Hrun as (new & -> & Hlen & Hsub & Hnd).
  exists (mv :: new). rewrite <- app_assoc. split; [done|]. split; [simpl; lia|].
  split.
  - intros x [->|Hx]%elem_of_cons; [done|by apply Hsub].
  - intros Hnd0. rewrite <- app_assoc in Hnd. apply Hnd.
    apply NoDup_app. split; [done|]. split; [|apply NoDup_singleton].
    intros x Hx [->|Hx']%elem_of_cons; [done|by apply elem_of_nil in Hx'].
Qed.

Lemma match_vertices_total w rvs excl ordered :
  NoDup rvs -> NoDup ordered -> (forall x, x ∈ ordered -> x ∈ rvs) ->
  (length ordered + length excl <= length rvs)%nat ->
  is_Some (match_vertices w rvs excl ordered).
Proof. using_none.
  intros Hnd. revert ordered.
  induction excl as [|kv excl IH]; intros ordered Hndo Hsub Hlen; simpl; [by eexists|].
  destruct (match_step_fold w (getPosition w kv) ordered rvs (None, flit 0)) as [Hn Hs].
  destruct (foldl _ _ _).1 as [mv|].
  - destruct (Hs mv eq_refl) as [?|[Hin Hnot]]; [done|]. apply IH.
    + apply NoDup_app. split; [done|]. split; [|apply NoDup_singleton].
      intros x Hx [->|Hx']%elem_of_cons; [done|by apply elem_of_nil in Hx'].
    + intros x [Hx|[->|Hx]%elem_of_cons]%elem_of_app;
        [by apply Hsub|done|by apply elem_of_nil in Hx].
    + rewrite length_app. simpl in *. lia.
  - destruct Hn as [Hn _]. destruct (Hn eq_refl) as [_ Hall].
    assert (Hle : (length rvs <= length ordered)%nat).
    { apply submseteq_length, NoDup_submseteq; [done|].
      intros x Hx. rewrite Forall_forall in Hall. by apply Hall. }
    simpl in Hlen. lia.
Qed.

(** X20.  The vertex matching of [Mesh::merge] on two Surfaces pairs
    each exclusive vertex of the kept Surface with a different vertex of
    the removed one: the matched list has the length of the exclusive
    list, no repeats, and only boundary vertices of the removed Surface.
    When that boundary has no repeats and at least as many vertices as
    there are exclusive ones (the size check guarantees it), the matching
    never fails. *)
Theorem match_vertices_injective w rvs toKeepExcl :
  (forall l, match_vertices w rvs toKeepExcl [] = Some l ->
     length l = length toKeepExcl /\ NoDup l /\ (forall x, x ∈ l -> x ∈ rvs)) /\
  (NoDup rvs -> (length toKeepExcl <= length rvs)%nat ->
   is_Some (match_vertices w rvs toKeepExcl [])).
Proof. using_none.
  split.
  - intros l Hrun. apply match_vertices_Some in Hrun as (new & -> & Hlen & Hsub & Hnd).
    simpl. split; [done|]. split; [apply Hnd, NoDup_nil_2|done].
  - intros Hnd Hlen. apply match_vertices_total; [done|apply NoDup_nil_2| |simpl; lia].
    intros x Hx. by apply elem_of_nil in Hx.
Qed.

(** ** Growing a Surface from one of its edges *)

Lemma fresh_addr_above (h : Store) k :
  is_Some (h !! k) -> (k <= map_fold (fun k _ m => Nat.max k m) 0%nat h)%nat.
Proof. using_none.
  revert k. apply (map_fold_weak_ind
    (fun r (m : Store) => forall k, is_Some (m !! k) -> (k <= r)%nat)).
  - intros k [x Hx]. by rewrite lookup_empty in Hx.
  - intros i x m r Hi IH k Hk. destruct (decide (k = i)) as [->|Hne]; [lia|].
    rewrite lookup_insert_ne in Hk by done. specialize (IH k Hk). lia.
Qed.

Lemma fresh_addr_fresh (h : Store) : h !! fresh_addr h = None.
Proof. using_none.
  destruct (h !! fresh_addr h) eqn:E; [|done].
  assert (Hs : is_Some (h !! fresh_addr h)) by (by rewrite E).
  apply fresh_addr_above in Hs. unfold fresh_addr in Hs. lia.
Qed.

Lemma lookup_Some_not_fresh (h : Store) p o : h !! p = Some o -> p <> fresh_addr h.
Proof. using_none. intros Hp ->. by rewrite fresh_addr_fresh in Hp. Qed.

Lemma foldl_addChild_lookup a ps (h : Store) b o :
  h !! b = Some o ->
  exists o', foldl (fun hh p => addChild p a hh) h ps !! b = Some o' /\
    objId o' = objId o /\ mesh o' = mesh o /\ objType o' = objType o /\
    parents o' = parents o /\ validate o' = validate o.
Proof. using_none.
  revert h o. induction ps as [|p ps IH]; intros h o Ho; simpl; [by exists o|].
  destruct (decide (b = p)) as [->|Hne].
  - destruct (IH (addChild p a h) (with_children (children o ++ [a]) o))
      as (o' & Ho' & ?); [unfold addChild; by rewrite lookup_alter_eq, Ho|].
    by exists o'.
  - apply IH. unfold addChild. by rewrite lookup_alter_ne.
Qed.

Lemma foldl_addChild_None a ps (h : Store) b :
  h !! b = None -> foldl (fun hh p => addChild p a hh) h ps !! b = None.
Proof. using_none.
  revert h. induction ps as [|p ps IH]; intros h Hb; simpl; [done|].
  apply IH. unfold addChild. destruct (decide (b = p)) as [->|Hne].
  - by rewrite lookup_alter_eq, Hb.
  - by rewrite lookup_alter_ne.
Qed.

Lemma add_unstored_Vertex_accepts ps st :
  (forall p, p ∈ ps -> exists op, objs st !! p = Some op /\
     (0 <= objId op \/ (mesh op = None /\ validate op = true))) ->
  exists st', add_unstored add_Vertex ps st = (Done S_OK, st') /\
    (forall b o, b ∉ ps -> objs st !! b = Some o -> objs st' !! b = Some o).
Proof. using_codes.
  revert st. induction ps as [|p ps IH]; intros st Hall; simpl.
  { exists st. done. }
  destruct (Hall p) as (op & Hop & Hcase); [apply list_elem_of_here|].
  rewrite Hop. destruct (Z.ltb_spec (objId op) 0) as [Hneg|Hpos].
  - destruct Hcase as [?|[Hm Hv]]; [lia|].
    rewrite add_Vertex_unfold.
    set (st1 := mkState (objs st) _).
    pose proof (Mesh_addObj_accepts VERTEX p st1 op Hop Hneg Hm Hv) as Hok.
    destruct (Mesh_addObj_S_OK VERTEX p st1 Hok)
      as (o' & id & I' & h1 & Ho' & _ & _ & _ & _ & Hobjs & _).
    simpl in Ho'. rewrite Hop in Ho'. injection Ho' as <-.
    rewrite Hok, eqb_S_OK.
    destruct (IH (Mesh_addObj VERTEX p st1).2) as (st' & Hrun & Hframe).
    { intros q Hq. rewrite Hobjs. destruct (decide (q = p)) as [->|Hne].
      - rewrite lookup_insert_eq. eexists. split; [done|]. left. simpl. lia.
      - rewrite lookup_insert_ne by done. apply Hall. by apply list_elem_of_further. }
    exists st'. split; [done|]. intros b o Hb Ho. apply Hframe.
    + intros Hin. apply Hb. by apply list_elem_of_further.
    + rewrite Hobjs, lookup_insert_ne; [done|]. intros ->. apply Hb, list_elem_of_here.
  - destruct (IH st) as (st' & Hrun & Hframe).
    { intros q Hq. apply Hall. by apply list_elem_of_further. }
    exists st'. split; [done|]. intros b o Hb Ho. apply Hframe; [|done].
    intros Hin. apply Hb. by apply list_elem_of_further.
Qed.

Lemma add_Surface_accepts a st o :
  objs st !! a = Some o -> objId o < 0 -> mesh o = None -> validate o = true ->
  a ∉ parents o ->
  (forall p, p ∈ parents o -> exists op, objs st !! p = Some op /\
     (0 <= objId op \/ (mesh op = None /\ validate op = true))) ->
  exists st', add_Surface a st = (Done S_OK, st').
Proof. using_codes.
  intros Ho Hneg Hm Hv Hnotin Hall. unfold add_Surface. rewrite Ho.
  destruct (add_unstored_Vertex_accepts (parents o) (mark_dirty st) Hall)
    as (s1 & -> & Hframe).
  simpl. rewrite eqb_S_OK.
  pose proof (Mesh_addObj_accepts SURFACE a s1 o (Hframe a o Hnotin Ho) Hneg Hm Hv) as Hok.
  destruct (Mesh_addObj SURFACE a s1) as [r2 s2]. simpl in Hok. subst r2.
  rewrite eqb_S_OK. by exists s2.
Qed.

Lemma finish_Surface_spec base vs tag w :
  exists w',
    finish_Surface base vs tag w = (Done (Some (fresh_addr (objs (w_state w)))), w') /\
    w_pos w' = w_pos w /\
    (exists os, objs (w_state w') !! fresh_addr (objs (w_state w)) = Some os /\
                parents os = vs) /\
    (forall b o, objs (w_state w) !! b = Some o ->
       exists o', objs (w_state w') !! b = Some o' /\ parents o' = parents o) /\
    ((3 <= length vs)%nat ->
     (forall p, p ∈ vs -> exists op, objs (w_state w) !! p = Some op /\
        (0 <= objId op \/ (mesh op = None /\ validate op = true))) ->
     (exists os, objs (w_state w') !! fresh_addr (objs (w_state w)) = Some os /\
                 registered os) /\
     forall p, p ∈ vs -> has_id (w_state w') p).
Proof. using_codes.
  unfold finish_Surface, SurfaceType_call, new_composite.
  set (h := objs (w_state w)). set (s := fresh_addr h).
  set (S0 := mkMeshObj (-1) None SURFACE vs [] (3 <=? length vs)%nat).
  set (h2 := foldl (fun hh p => addChild p s hh) (<[s := S0]> h) vs).
  eexists. split; [reflexivity|]. simpl.
  set (st2 := mkState h2 (msh (w_state w))).
  destruct (foldl_addChild_lookup s vs (<[s := S0]> h) s S0 (lookup_insert_eq _ _ _))
    as (os2 & Hos2 & Hid2 & Hm2 & _ & Hp2 & Hv2). fold h2 in Hos2.
  destruct (add_frame_all) as (_ & HS & _). destruct (HS s st2) as [_ Hrel].
  split; [done|]. split; [|split].
  - destruct (Hrel s os2 Hos2) as (os & Hos & Hp & _). exists os. split; [done|].
    by rewrite Hp, Hp2.
  - intros b o Hb.
    assert (b <> s) by (by eapply lookup_Some_not_fresh).
    destruct (foldl_addChild_lookup s vs (<[s := S0]> h) b o) as (o2 & Ho2 & _ & _ & _ & Hpo & _);
      [by rewrite lookup_insert_ne|]. fold h2 in Ho2.
    destruct (Hrel b o2 Ho2) as (o' & Ho' & Hp' & _). exists o'. split; [done|].
    by rewrite Hp', Hpo.
  - intros Hlen Hall.
    assert (Hparts : forall p, p ∈ vs -> exists op, h2 !! p = Some op /\
              (0 <= objId op \/ (mesh op = None /\ validate op = true))).
    { intros p Hp. destruct (Hall p Hp) as (op & Hop & Hcase).
      assert (p <> s) by (by eapply lookup_Some_not_fresh).
      destruct (foldl_addChild_lookup s vs (<[s := S0]> h) p op) as (o2 & Ho2 & E1 & E2 & _ & _ & E3);
        [by rewrite lookup_insert_ne|].
      exists o2. split; [done|]. by rewrite E1, E2, E3. }
    destruct (add_Surface_accepts s st2 os2 Hos2) as (st3 & Hadd).
    + rewrite Hid2. simpl. lia.
    + by rewrite Hm2.
    + rewrite Hv2. exact (proj2 (Nat.leb_le 3 (length vs)) Hlen).
    + rewrite Hp2. simpl. intros Hin. destruct (Hall s Hin) as (op & Hop & _).
      by eapply lookup_Some_not_fresh.
    + by rewrite Hp2.
    + rewrite Hadd. simpl.
      destruct (add_Surface_S_OK s st2 st3 Hadd) as (os2' & Hos2' & Hreg & Hids).
      simpl in Hos2'. rewrite Hos2 in Hos2'. injection Hos2' as <-.
      split; [done|]. intros p Hp. apply Hids. by rewrite Hp2.
Qed.

Lemma edge_end_next n idx : (idx < n)%nat -> edge_end n idx = next_index n idx.
Proof. using_none.
  intros Hlt. unfold edge_end, next_index.
  destruct (Nat.eqb_spec idx (n - 1)), (Nat.leb_spec n (idx + 1)); lia.
Qed.

Lemma edge_lookup (vs : list addr) idx :
  (idx < length vs)%nat ->
  exists v0 v1, vs !! idx = Some v0 /\ vs !! edge_end (length vs) idx = Some v1 /\
    vs !! next_index (length vs) idx = Some v1.
Proof. using_none.
  intros Hlt. destruct (lookup_lt_is_Some_2 vs idx Hlt) as [v0 Hv0].
  rewrite edge_end_next by done.
  destruct (lookup_lt_is_Some_2 vs (next_index (length vs) idx)) as [v1 Hv1].
  { unfold next_index. destruct (Nat.leb_spec (length vs) (idx + 1)); lia. }
  by exists v0, v1.
Qed.

(** X21.  [Mesh::extend] on an edge index: an index past the boundary
    returns [NULL] and changes nothing; an index on the boundary returns
    a new Surface on the vertex at that index, its cyclic successor (index
    0 after the last) and a new vertex placed at [pos], no other position
    and no other boundary changes, and when the two base vertices hold an
    identifier or can be added, the new Surface ends registered with this
    mesh and its three vertices hold identifiers. *)
Theorem extend_Surface_on_edge base idx pos w bo :
  objs (w_state w) !! base = Some bo ->
  ((length (parents bo) <= idx)%nat -> extend_Surface base idx pos w = (Done None, w)) /\
  ((idx < length (parents bo))%nat ->
   exists s vert v0 v1 w' os,
     extend_Surface base idx pos w = (Done (Some s), w') /\
     objs (w_state w) !! s = None /\ objs (w_state w) !! vert = None /\
     parents bo !! idx = Some v0 /\
     parents bo !! next_index (length (parents bo)) idx = Some v1 /\
     objs (w_state w') !! s = Some os /\ parents os = [v0; v1; vert] /\
     w_pos w' vert = pos /\ (forall u, u <> vert -> w_pos w' u = w_pos w u) /\
     (forall b o, objs (w_state w) !! b = Some o ->
        exists o', objs (w_state w') !! b = Some o' /\ parents o' = parents o) /\
     ((forall p, p ∈ [v0; v1] -> exists op, objs (w_state w) !! p = Some op /\
         (0 <= objId op \/ (mesh op = None /\ validate op = true))) ->
      registered os /\ forall p, p ∈ [v0; v1; vert] -> has_id (w_state w') p)).
Proof. using_codes.
  intros Hbase. unfold extend_Surface. rewrite Hbase. split.
  - intros Hge. by rewrite (proj2 (Nat.leb_le _ _) Hge).
  - intros Hlt. destruct (Nat.leb_spec (length (parents bo)) idx) as [|_]; [lia|].
    destruct (edge_lookup (parents bo) idx Hlt) as (v0 & v1 & Hv0 & Hv1 & Hn).
    rewrite Hv0, Hv1. unfold new_Vertex.
    set (h := objs (w_state w)). set (vert := fresh_addr h).
    set (V0 := mkMeshObj (-1) None VERTEX [] [] true).
    set (w1 := mkWorld (mkState (<[vert := V0]> h) (msh (w_state w))) _).
    destruct (finish_Surface_spec base [v0; v1; vert] "extend" w1)
      as (w' & Hrun & Hpos & (os & Hos & Hp) & Hkeep & Hreg).
    simpl in Hos, Hrun, Hreg.
    exists (fresh_addr (<[vert := V0]> h)), vert, v0, v1, w', os.
    split; [exact Hrun|].
    assert (Hfresh : h !! fresh_addr (<[vert := V0]> h) = None).
    { pose proof (fresh_addr_fresh (<[vert := V0]> h)) as Hf.
      destruct (decide (fresh_addr (<[vert := V0]> h) = vert)) as [E|Hne].
      - rewrite E. apply fresh_addr_fresh.
      - by rewrite lookup_insert_ne in Hf. }
    split; [exact Hfresh|]. split; [apply fresh_addr_fresh|].
    do 4 (split; [done|]). rewrite Hpos. simpl. split; [by rewrite decide_True|].
    split; [intros u Hu; by rewrite decide_False|]. split.
    + intros b o Hb. apply Hkeep. simpl.
      rewrite lookup_insert_ne; [done|]. apply not_eq_sym.
      by eapply lookup_Some_not_fresh.
    + intros Hall. destruct Hreg as [(os' & Hos' & Hr) Hids]; [simpl; lia| |].
      * intros p [->|[->|[->|Hp']%elem_of_cons]%elem_of_cons]%elem_of_cons.
        -- destruct (Hall v0) as (op & Hop & Hc); [apply list_elem_of_here|].
           exists op. split; [|done]. rewrite lookup_insert_ne; [done|].
           apply not_eq_sym. by eapply lookup_Some_not_fresh.
        -- destruct (Hall v1) as (op & Hop & Hc);
             [apply list_elem_of_further, list_elem_of_here|].
           exists op. split; [|done]. rewrite lookup_insert_ne; [done|].
           apply not_eq_sym. by eapply lookup_Some_not_fresh.
        -- exists V0. rewrite lookup_insert_eq. split; [done|]. by right.
        -- by apply elem_of_nil in Hp'.
      * rewrite Hos in Hos'. injection Hos' as <-. done.
Qed.

(** X22.  [Mesh::extrude] on an edge index: an index past the boundary
    returns [NULL] and changes nothing; an index on the boundary returns
    a new Surface whose vertex list is, in this order, the vertex [v0] at
    the index, its cyclic successor [v1], a new vertex at the position of
    [v0] displaced by the normal times [normLen] and a new vertex at the
    position of [v1] displaced likewise; no other position changes, and
    when the two base vertices hold an identifier or can be added, the new
    Surface ends registered with this mesh and its four vertices hold
    identifiers. *)
Theorem extrude_Surface_on_edge base idx normLen w bo :
  objs (w_state w) !! base = Some bo ->
  ((length (parents bo) <= idx)%nat ->
   extrude_Surface base idx normLen w = (Done None, w)) /\
  ((idx < length (parents bo))%nat ->
   exists s v0 v1 v2 v3 w' os,
     extrude_Surface base idx normLen w = (Done (Some s), w') /\
     objs (w_state w) !! s = None /\
     objs (w_state w) !! v2 = None /\ objs (w_state w) !! v3 = None /\ v2 <> v3 /\
     parents bo !! idx = Some v0 /\
     parents bo !! next_index (length (parents bo)) idx = Some v1 /\
     objs (w_state w') !! s = Some os /\ parents os = [v0; v1; v2; v3] /\
     w_pos w' v2 = vadd (w_pos w v0) (vscale (Surface_normal w base) normLen) /\
     w_pos w' v3 = vadd (w_pos w v1) (vscale (Surface_normal w base) normLen) /\
     (forall u, u <> v2 -> u <> v3 -> w_pos w' u = w_pos w u) /\
     ((forall p, p ∈ [v0; v1] -> exists op, objs (w_state w) !! p = Some op /\
         (0 <= objId op \/ (mesh op = None /\ validate op = true))) ->
      registered os /\ forall p, p ∈ [v0; v1; v2; v3] -> has_id (w_state w') p)).
Proof. using_codes.
  intros Hbase. unfold extrude_Surface. rewrite Hbase. split.
  - intros Hge. by rewrite (proj2 (Nat.leb_le _ _) Hge).
  - intros Hlt. destruct (Nat.leb_spec (length (parents bo)) idx) as [|_]; [lia|].
    destruct (edge_lookup (parents bo) idx Hlt) as (v0 & v1 & Hv0 & Hv1 & Hn).
    rewrite Hv0, Hv1. unfold new_Vertex, getPosition. simpl.
    set (h := objs (w_state w)). set (v2 := fresh_addr h).
    set (V0 := mkMeshObj (-1) None VERTEX [] [] true).
    set (h1 := <[v2 := V0]> h). set (v3 := fresh_addr h1).
    set (h2 := <[v3 := V0]> h1).
    set (w2 := mkWorld (mkState h2 (msh (w_state w))) _).
    destruct (finish_Surface_spec base [v0; v1; v2; v3] "extrude" w2)
      as (w' & Hrun & Hpos & (os & Hos & Hp) & Hkeep & Hreg).
    simpl in Hos, Hrun, Hreg.
    assert (H23 : v2 <> v3).
    { apply (lookup_Some_not_fresh h1 v2 V0). apply lookup_insert_eq. }
    assert (Hold : forall p op, h !! p = Some op -> h2 !! p = Some op).
    { intros p op Hop.
      assert (Hp1 : h1 !! p = Some op).
      { unfold h1. rewrite lookup_insert_ne; [done|].
        apply not_eq_sym. by eapply lookup_Some_not_fresh. }
      unfold h2. rewrite lookup_insert_ne; [done|].
      apply not_eq_sym. by eapply lookup_Some_not_fresh. }
    exists (fresh_addr h2), v0, v1, v2, v3, w', os.
    split; [exact Hrun|].
    split.
    { destruct (h !! fresh_addr h2) as [x|] eqn:E; [|done].
      apply Hold in E. by rewrite fresh_addr_fresh in E. }
    split; [apply fresh_addr_fresh|].
    split.
    { pose proof (fresh_addr_fresh h1) as Hf. fold v3 in Hf.
      unfold h1 in Hf. by rewrite lookup_insert_ne in Hf. }
    do 5 (split; [done|]). rewrite Hpos. simpl.
    split; [by rewrite decide_False, decide_True|].
    split; [by rewrite decide_True|].
    split; [intros u Hu2 Hu3; by rewrite !decide_False|].
    intros Hall. destruct Hreg as [(os' & Hos' & Hr) Hids]; [simpl; lia| |].
    + intros p Hp'. repeat (apply elem_of_cons in Hp' as [->|Hp']).
      * destruct (Hall v0) as (op & Hop & Hc); [apply list_elem_of_here|].
        exists op. split; [by apply Hold|done].
      * destruct (Hall v1) as (op & Hop & Hc);
          [apply list_elem_of_further, list_elem_of_here|].
        exists op. split; [by apply Hold|done].
      * exists V0. split; [|by right]. unfold h2.
        rewrite lookup_insert_ne by done. apply lookup_insert_eq.
      * exists V0. split; [apply lookup_insert_eq|by right].
      * by apply elem_of_nil in Hp'.
    + rewrite Hos in Hos'. injection Hos' as <-. done.
Qed.

(** ** Growing a Body from a Surface and an apex *)

Lemma same_but_children_refl h : same_but_children h h.
Proof. using_none. intros b o Ho. by exists o. Qed.

Lemma same_but_children_trans h1 h2 h3 :
  same_but_children h1 h2 -> same_but_children h2 h3 -> same_but_children h1 h3.
Proof. using_none.
  intros H1 H2 b o Ho. destruct (H1 b o Ho) as (o2 & Ho2 & E1 & E2 & E3 & E4 & E5).
  destruct (H2 b o2 Ho2) as (o3 & Ho3 & G1 & G2 & G3 & G4 & G5).
  exists o3. split; [done|]. repeat split; congruence.
Qed.

Lemma new_composite_spec k sound ps w :
  exists w1 os,
    new_composite k sound ps w = (Some (fresh_addr (objs (w_state w))), w1) /\
    w_pos w1 = w_pos w /\ msh (w_state w1) = msh (w_state w) /\
    objs (w_state w1) !! fresh_addr (objs (w_state w)) = Some os /\
    parents os = ps /\ objId os = -1 /\ mesh os = None /\ objType os = k /\
    validate os = sound /\
    same_but_children (objs (w_state w)) (objs (w_state w1)).
Proof. using_none.
  unfold new_composite.
  set (h := objs (w_state w)). set (a := fresh_addr h).
  set (O0 := mkMeshObj (-1) None k ps [] sound).
  destruct (foldl_addChild_lookup a ps (<[a := O0]> h) a O0 (lookup_insert_eq _ _ _))
    as (os & Hos & E1 & E2 & E3 & E4 & E5).
  eexists _, os. split; [reflexivity|]. simpl. do 3 (split; [done|]).
  do 5 (split; [done|]). intros b o Hb.
  apply foldl_addChild_lookup. rewrite lookup_insert_ne; [done|].
  apply not_eq_sym. by eapply lookup_Some_not_fresh.
Qed.

Lemma extend_triangles_spec base vNew idxs w :
  (forall i, i ∈ idxs -> (i < length base)%nat) ->
  exists tris w1,
    extend_triangles base vNew idxs w = (Some tris, w1) /\
    w_pos w1 = w_pos w /\ msh (w_state w1) = msh (w_state w) /\
    same_but_children (objs (w_state w)) (objs (w_state w1)) /\
    length tris = length idxs /\
    forall k i, idxs !! k = Some i ->
      exists s os v0 v1,
        tris !! k = Some s /\ objs (w_state w) !! s = None /\
        objs (w_state w1) !! s = Some os /\ objType os = SURFACE /\
        base !! i = Some v0 /\ base !! next_index (length base) i = Some v1 /\
        parents os = [v0; v1; vNew].
Proof. using_none.
  revert w. induction idxs as [|i idxs IH]; intros w Hin.
  { exists [], w. split; [done|]. do 2 (split; [done|]).
    split; [apply same_but_children_refl|]. split; [done|]. intros k i Hk.
    by rewrite lookup_nil in Hk. }
  cbn [extend_triangles].
  destruct (edge_lookup base i) as (v0 & v1 & Hv0 & Hv1 & Hn);
    [apply Hin, list_elem_of_here|].
  rewrite Hv0, Hv1.
  change (omap id [Some v0; Some v1] ++ [vNew]) with [v0; v1; vNew].
  unfold SurfaceType_call.
  destruct (new_composite_spec SURFACE (3 <=? length [v0; v1; vNew])%nat [v0; v1; vNew] w)
    as (w1 & os & Hrun & Hpos & Hmsh & Hos & Hp & _ & _ & Hty & _ & Hsame).
  rewrite Hrun.
  destruct (IH w1) as (tris & w2 & Hrest & Hpos2 & Hmsh2 & Hsame2 & Hlen & Htris).
  { intros j Hj. apply Hin. by apply list_elem_of_further. }
  rewrite Hrest. simpl. exists (fresh_addr (objs (w_state w)) :: tris), w2.
  split; [done|]. split; [congruence|]. split; [congruence|].
  split; [by eapply same_but_children_trans|]. split; [simpl; by rewrite Hlen|].
  intros [|k] j Hk; simpl in Hk.
  - injection Hk as <-.
    destruct (Hsame2 _ _ Hos) as (os2 & Hos2 & _ & _ & Hty2 & Hp2 & _).
    exists (fresh_addr (objs (w_state w))), os2, v0, v1. simpl.
    split; [done|]. split; [apply fresh_addr_fresh|]. split; [done|].
    split; [congruence|]. do 2 (split; [done|]). congruence.
  - destruct (Htris k j Hk) as (s & os' & u0 & u1 & H1 & H2 & H3 & H4 & H5 & H6 & H7).
    exists s, os', u0, u1. simpl. split; [done|]. split; [|done].
    destruct (objs (w_state w) !! s) as [x|] eqn:E; [|done].
    destruct (Hsame s x E) as (x' & Hx' & _). congruence.
Qed.

Lemma add_types_all :
  (forall a s q, type_at (add_Vertex a s).2 q = type_at s q) /\
  (forall a s q, type_at (add_Surface a s).2 q = type_at s q) /\
  (forall a s q, type_at (add_Body a s).2 q = type_at s q) /\
  (forall fuel a s q, type_at (add_Structure fuel a s).2 q = type_at s q).
Proof. using_none.
  destruct (add_rel (fun s s' => forall q, type_at s' q = type_at s q))
    as (HV & HS & HB & HT).
  - done.
  - intros s1 s2 s3 H1 H2 q. by rewrite H2, H1.
  - done.
  - intros k a s q. apply Mesh_addObj_types.
  - done.
Qed.

(** X23.  [Mesh::extend] from a Surface to a Body builds a fan around
    one new vertex placed at [pos]: the call returns a new Body whose
    surface list is the base followed by one new triangle per boundary
    index, the triangle at index [i] being on the base vertex at [i], its
    cyclic successor and the new vertex; no other position changes and
    every object that was there keeps its parents. *)
Theorem extend_Body_fan base pos w bo :
  objs (w_state w) !! base = Some bo ->
  exists b vNew tris w' ob,
    extend_Body base pos w = (Done (Some b), w') /\
    objs (w_state w) !! vNew = None /\ objs (w_state w) !! b = None /\
    w_pos w' vNew = pos /\ (forall u, u <> vNew -> w_pos w' u = w_pos w u) /\
    objs (w_state w') !! b = Some ob /\ objType ob = BODY /\
    parents ob = base :: tris /\ length tris = length (parents bo) /\
    (forall i, (i < length (parents bo))%nat ->
       exists s os v0 v1,
         tris !! i = Some s /\ objs (w_state w) !! s = None /\
         objs (w_state w') !! s = Some os /\ objType os = SURFACE /\
         parents bo !! i = Some v0 /\
         parents bo !! next_index (length (parents bo)) i = Some v1 /\
         parents os = [v0; v1; vNew]) /\
    (forall a o, objs (w_state w) !! a = Some o ->
       exists o', objs (w_state w') !! a = Some o' /\ parents o' = parents o).
Proof. using_codes.
  intros Hbase. unfold extend_Body. rewrite Hbase. cbn [from_option].
  unfold new_Vertex. cbv beta iota zeta.
  set (h := objs (w_state w)). set (vNew := fresh_addr h).
  set (V0 := mkMeshObj (-1) None VERTEX [] [] true).
  set (w1 := mkWorld (mkState (<[vNew := V0]> h) (msh (w_state w))) _).
  assert (Hold : forall a o, h !! a = Some o -> objs (w_state w1) !! a = Some o).
  { intros a o Ha. simpl. rewrite lookup_insert_ne; [done|].
    apply not_eq_sym. by eapply lookup_Some_not_fresh. }
  destruct (extend_triangles_spec (parents bo) vNew (seq 0 (length (parents bo))) w1)
    as (tris & w2 & Hrun & Hpos2 & _ & Hsame2 & Hlen & Htris).
  { intros i Hi. apply elem_of_seq in Hi. lia. }
  rewrite Hrun. cbv beta iota. unfold BodyType_call.
  destruct (new_composite_spec BODY true (base :: tris) w2)
    as (w3 & ob3 & Hrun3 & Hpos3 & _ & Hob3 & Hp3 & _ & _ & Hty3 & _ & Hsame3).
  rewrite Hrun3. cbv beta iota zeta. set (b := fresh_addr (objs (w_state w2))) in *.
  destruct add_frame_all as (_ & _ & HB & _).
  destruct (HB b (w_state w3)) as [_ Hrel].
  destruct add_types_all as (_ & _ & HTB & _).
  assert (Hfinal : forall a o, objs (w_state w3) !! a = Some o ->
            exists o', objs (add_Body b (w_state w3)).2 !! a = Some o' /\
                       parents o' = parents o /\ objType o' = objType o).
  { intros a o Ha. destruct (Hrel a o Ha) as (o' & Ho' & Hp' & _).
    exists o'. split; [done|]. split; [done|].
    pose proof (HTB b (w_state w3) a) as Ht. unfold type_at in Ht.
    rewrite Ho', Ha in Ht. simpl in Ht. congruence. }
  assert (Hchain : forall a o, h !! a = Some o ->
            exists o3, objs (w_state w3) !! a = Some o3 /\ parents o3 = parents o).
  { intros a o Ha. apply Hold in Ha.
    destruct (Hsame2 a o Ha) as (o2 & Ho2 & _ & _ & _ & Hp2 & _).
    destruct (Hsame3 a o2 Ho2) as (o3 & Ho3 & _ & _ & _ & Hp3' & _).
    exists o3. split; [done|]. congruence. }
  destruct (Hfinal b ob3 Hob3) as (obF & HobF & HpF & HtF).
  eexists b, vNew, tris, _, obF. split; [reflexivity|]. simpl.
  split; [apply fresh_addr_fresh|].
  split.
  { destruct (h !! b) as [x|] eqn:E; [|done]. apply Hold in E.
    destruct (Hsame2 b x E) as (x2 & Hx2 & _). unfold b in Hx2.
    by rewrite fresh_addr_fresh in Hx2. }
  rewrite Hpos3, Hpos2. simpl.
  split; [by rewrite decide_True|].
  split; [intros u Hu; by rewrite decide_False|].
  split; [done|]. split; [congruence|]. split; [congruence|].
  split; [by rewrite Hlen, length_seq|].
  split.
  - intros i Hi.
    destruct (Htris i i) as (s & os & v0 & v1 & H1 & H2 & H3 & H4 & H5 & H6 & H7).
    { by apply lookup_seq_lt. }
    destruct (Hsame3 s os H3) as (os3 & Hos3 & _ & _ & Ht3 & Hp3' & _).
    destruct (Hfinal s os3 Hos3) as (osF & HosF & HpF' & HtF').
    exists s, osF, v0, v1. split; [done|]. split.
    { destruct (h !! s) as [x|] eqn:E; [|done]. apply Hold in E. congruence. }
    split; [done|]. split; [congruence|]. do 2 (split; [done|]). congruence.
  - intros a o Ha. destruct (Hchain a o Ha) as (o3 & Ho3 & Hp3').
    destruct (Hfinal a o3 Ho3) as (oF & HoF & HpF' & _).
    exists oF. split; [done|]. congruence.
Qed.

(** ** Extrusion of a Surface into a Body: the prism *)

Lemma extrude_ring_spec disp vs w :
  (forall v, v ∈ vs -> is_Some (objs (w_state w) !! v)) ->
  exists nvs w1,
    extrude_ring disp vs w = (nvs, w1) /\
    msh (w_state w1) = msh (w_state w) /\ length nvs = length vs /\ NoDup nvs /\
    (forall a o, objs (w_state w) !! a = Some o -> objs (w_state w1) !! a = Some o) /\
    (forall u, u ∉ nvs -> w_pos w1 u = w_pos w u) /\
    (forall nv, nv ∈ nvs ->
       objs (w_state w) !! nv = None /\
       objs (w_state w1) !! nv = Some (mkMeshObj (-1) None VERTEX [] [] true)) /\
    (forall i v, vs !! i = Some v ->
       exists nv, nvs !! i = Some nv /\ w_pos w1 nv = vadd (w_pos w v) disp).
Proof. using_none.
  revert w. induction vs as [|v vs IH]; intros w Hex.
  { exists [], w. split; [done|]. do 2 (split; [done|]). split; [apply NoDup_nil_2|].
    split; [done|]. split; [done|]. split.
    - intros nv Hnv. by apply elem_of_nil in Hnv.
    - intros i x Hi. by rewrite lookup_nil in Hi. }
  cbn [extrude_ring]. unfold new_Vertex at 1. cbv beta iota zeta.
  set (h := objs (w_state w)). set (a := fresh_addr h).
  set (V0 := mkMeshObj (-1) None VERTEX [] [] true).
  set (w' := mkWorld (mkState (<[a := V0]> h) (msh (w_state w))) _).
  assert (Hold : forall b o, h !! b = Some o -> objs (w_state w') !! b = Some o).
  { intros b o Hb. simpl. rewrite lookup_insert_ne; [done|].
    apply not_eq_sym. by eapply lookup_Some_not_fresh. }
  destruct (IH w') as (nvs & w1 & Hrun & Hmsh & Hlen & Hnd & Hkeep & Hpos & Hnew & Hat).
  { intros u Hu. destruct (Hex u) as [x Hx]; [by apply list_elem_of_further|].
    exists x. by apply Hold. }
  rewrite Hrun. exists (a :: nvs), w1. split; [done|]. split; [done|].
  split; [simpl; by rewrite Hlen|].
  assert (Ha : a ∉ nvs).
  { intros Hin. destruct (Hnew a Hin) as [Hn _]. simpl in Hn.
    by rewrite lookup_insert_eq in Hn. }
  split; [by apply NoDup_cons|].
  split; [intros b o Hb; by apply Hkeep, Hold|].
  split.
  { intros u Hu. apply not_elem_of_cons in Hu as [Hne Hu].
    rewrite (Hpos u Hu). simpl. by rewrite decide_False. }
  split.
  { intros nv [->|Hnv]%elem_of_cons.
    - split; [apply fresh_addr_fresh|]. apply Hkeep. simpl. apply lookup_insert_eq.
    - destruct (Hnew nv Hnv) as [Hn Hs]. split; [|done].
      destruct (h !! nv) as [x|] eqn:E; [|done]. apply Hold in E. congruence. }
  intros [|i] u Hi; simpl in Hi.
  - injection Hi as <-. exists a. split; [done|]. rewrite (Hpos a Ha). simpl.
    by rewrite decide_True.
  - destruct (Hat i u Hi) as (nv & Hnv & Hp). exists nv. split; [done|].
    rewrite Hp. simpl. rewrite decide_False; [done|].
    destruct (Hex u) as [x Hx]; [eapply list_elem_of_further, list_elem_of_lookup_2; eauto|].
    by eapply lookup_Some_not_fresh.
Qed.

Lemma extrude_laterals_spec base nvs idxs w :
  (forall i, i ∈ idxs -> (i < length base)%nat) -> length nvs = length base ->
  exists lats w1,
    extrude_laterals base nvs idxs w = (Some lats, w1) /\
    w_pos w1 = w_pos w /\ msh (w_state w1) = msh (w_state w) /\
    same_but_children (objs (w_state w)) (objs (w_state w1)) /\
    length lats = length idxs /\
    forall k i, idxs !! k = Some i ->
      exists s os bi bj nj ni,
        lats !! k = Some s /\ objs (w_state w) !! s = None /\
        objs (w_state w1) !! s = Some os /\ objType os = SURFACE /\
        base !! i = Some bi /\ base !! next_index (length base) i = Some bj /\
        nvs !! next_index (length base) i = Some nj /\ nvs !! i = Some ni /\
        parents os = [bi; bj; nj; ni].
Proof. using_none.
  intros Hin Hlen. revert w Hin. induction idxs as [|i idxs IH]; intros w Hin.
  { exists [], w. split; [done|]. do 2 (split; [done|]).
    split; [apply same_but_children_refl|]. split; [done|]. intros k i Hk.
    by rewrite lookup_nil in Hk. }
  cbn [extrude_laterals].
  assert (Hi : (i < length base)%nat) by apply Hin, list_elem_of_here.
  assert (Hj : (next_index (length base) i < length base)%nat).
  { unfold next_index. destruct (Nat.leb_spec (length base) (i + 1)); lia. }
  destruct (lookup_lt_is_Some_2 base i Hi) as [bi Hbi].
  destruct (lookup_lt_is_Some_2 base _ Hj) as [bj Hbj].
  destruct (lookup_lt_is_Some_2 nvs i) as [ni Hni]; [lia|].
  destruct (lookup_lt_is_Some_2 nvs (next_index (length base) i)) as [nj Hnj]; [lia|].
  rewrite Hbi, Hbj, Hni, Hnj.
  change (omap id [Some bi; Some bj; Some nj; Some ni]) with [bi; bj; nj; ni].
  unfold SurfaceType_call.
  destruct (new_composite_spec SURFACE (3 <=? length [bi; bj; nj; ni])%nat [bi; bj; nj; ni] w)
    as (w1 & os & Hrun & Hpos & Hmsh & Hos & Hp & _ & _ & Hty & _ & Hsame).
  rewrite Hrun.
  destruct (IH w1) as (lats & w2 & Hrest & Hpos2 & Hmsh2 & Hsame2 & Hlen2 & Hlats).
  { intros j Hj'. apply Hin. by apply list_elem_of_further. }
  rewrite Hrest. simpl. exists (fresh_addr (objs (w_state w)) :: lats), w2.
  split; [done|]. split; [congruence|]. split; [congruence|].
  split; [by eapply same_but_children_trans|]. split; [simpl; by rewrite Hlen2|].
  intros [|k] j Hk; simpl in Hk.
  - injection Hk as <-.
    destruct (Hsame2 _ _ Hos) as (os2 & Hos2 & _ & _ & Hty2 & Hp2 & _).
    exists (fresh_addr (objs (w_state w))), os2, bi, bj, nj, ni. simpl.
    split; [done|]. split; [apply fresh_addr_fresh|]. split; [done|].
    split; [congruence|]. do 4 (split; [done|]). congruence.
  - destruct (Hlats k j Hk)
      as (s & os' & x1 & x2 & x3 & x4 & H1 & H2 & H3 & H4 & H5 & H6 & H7 & H8 & H9).
    exists s, os', x1, x2, x3, x4. simpl. split; [done|]. split; [|done].
    destruct (objs (w_state w) !! s) as [x|] eqn:E; [|done].
    destruct (Hsame s x E) as (x' & Hx' & _). congruence.
Qed.

Lemma extrude_build_spec base normal normLen w bo :
  objs (w_state w) !! base = Some bo ->
  (forall v, v ∈ parents bo -> is_Some (objs (w_state w) !! v)) ->
  exists b nvs lats cap w' ob oc,
    extrude_build base normal normLen w = (Done (Some b), w') /\
    length nvs = length (parents bo) /\ NoDup nvs /\
    (forall nv, nv ∈ nvs -> objs (w_state w) !! nv = None) /\
    (forall i v, parents bo !! i = Some v ->
       exists nv, nvs !! i = Some nv /\
         w_pos w' nv = vadd (w_pos w v) (vscale normal normLen)) /\
    (forall u, u ∉ nvs -> w_pos w' u = w_pos w u) /\
    objs (w_state w') !! b = Some ob /\ objType ob = BODY /\
    parents ob = lats ++ [base; cap] /\ length lats = length (parents bo) /\
    objs (w_state w') !! cap = Some oc /\ objType oc = SURFACE /\ parents oc = nvs /\
    (forall i, (i < length (parents bo))%nat ->
       exists s os bi bj nj ni,
         lats !! i = Some s /\ objs (w_state w') !! s = Some os /\
         objType os = SURFACE /\
         parents bo !! i = Some bi /\
         parents bo !! next_index (length (parents bo)) i = Some bj /\
         nvs !! next_index (length (parents bo)) i = Some nj /\ nvs !! i = Some ni /\
         parents os = [bi; bj; nj; ni]) /\
    (forall a o, objs (w_state w) !! a = Some o ->
       exists o', objs (w_state w') !! a = Some o' /\ parents o' = parents o).
Proof. using_codes.
  intros Hbase Hex. unfold extrude_build. rewrite Hbase. cbn [from_option].
  cbv beta zeta.
  destruct (extrude_ring_spec (vscale normal normLen) (parents bo) w Hex)
    as (nvs & w1 & Hring & _ & Hlen & Hnd & Hkeep1 & Hpos1 & Hnew & Hat).
  rewrite Hring. cbv beta iota.
  destruct (extrude_laterals_spec (parents bo) nvs (seq 0 (length (parents bo))) w1)
    as (lats & w2 & Hlat & Hpos2 & _ & Hsame2 & Hlen2 & Hlats); [|done|].
  { intros i Hi. apply elem_of_seq in Hi. lia. }
  rewrite Hlat. cbv beta iota. unfold SurfaceType_call at 1.
  destruct (new_composite_spec SURFACE (3 <=? length nvs)%nat nvs w2)
    as (w3 & oc3 & Hcap & Hpos3 & _ & Hoc3 & Hpc3 & _ & _ & Htc3 & _ & Hsame3).
  rewrite Hcap. cbv beta iota zeta. set (cap := fresh_addr (objs (w_state w2))) in *.
  change (omap id [Some cap]) with [cap]. unfold BodyType_call.
  destruct (new_composite_spec BODY true (lats ++ [base; cap]) w3)
    as (w4 & ob4 & Hbody & Hpos4 & _ & Hob4 & Hpb4 & _ & _ & Htb4 & _ & Hsame4).
  rewrite Hbody. cbv beta iota zeta. set (b := fresh_addr (objs (w_state w3))) in *.
  destruct add_frame_all as (_ & _ & HB & _).
  destruct (HB b (w_state w4)) as [_ Hrel].
  destruct add_types_all as (_ & _ & HTB & _).
  assert (Hfinal : forall a o, objs (w_state w4) !! a = Some o ->
            exists o', objs (add_Body b (w_state w4)).2 !! a = Some o' /\
                       parents o' = parents o /\ objType o' = objType o).
  { intros a o Ha. destruct (Hrel a o Ha) as (o' & Ho' & Hp' & _).
    exists o'. split; [done|]. split; [done|].
    pose proof (HTB b (w_state w4) a) as Ht. unfold type_at in Ht.
    rewrite Ho', Ha in Ht. simpl in Ht. congruence. }
  assert (Hfrom2 : forall a o, objs (w_state w2) !! a = Some o ->
            exists o', objs (add_Body b (w_state w4)).2 !! a = Some o' /\
                       parents o' = parents o /\ objType o' = objType o).
  { intros a o Ha.
    destruct (Hsame3 a o Ha) as (o3 & Ho3 & _ & _ & Ht3 & Hp3 & _).
    destruct (Hsame4 a o3 Ho3) as (o4 & Ho4 & _ & _ & Ht4 & Hp4 & _).
    destruct (Hfinal a o4 Ho4) as (oF & HoF & HpF & HtF).
    exists oF. split; [done|]. split; congruence. }
  destruct (Hfinal b ob4 Hob4) as (obF & HobF & HpF & HtF).
  destruct (Hsame4 cap oc3 Hoc3) as (oc4 & Hoc4 & _ & _ & Htc4 & Hpc4 & _).
  destruct (Hfinal cap oc4 Hoc4) as (ocF & HocF & HpcF & HtcF).
  eexists b, nvs, lats, cap, _, obF, ocF. split; [reflexivity|]. simpl.
  split; [done|]. split; [done|].
  split; [intros nv Hnv; by destruct (Hnew nv Hnv)|].
  rewrite Hpos4, Hpos3, Hpos2.
  split; [exact Hat|]. split; [exact Hpos1|].
  split; [done|]. split; [congruence|]. split; [congruence|].
  split; [by rewrite Hlen2, length_seq|].
  split; [done|]. split; [congruence|]. split; [congruence|].
  split.
  - intros i Hi.
    destruct (Hlats i i)
      as (s & os & x1 & x2 & x3 & x4 & H1 & H2 & H3 & H4 & H5 & H6 & H7 & H8 & H9).
    { by apply lookup_seq_lt. }
    destruct (Hfrom2 s os H3) as (osF & HosF & HpsF & HtsF).
    exists s, osF, x1, x2, x3, x4. split; [done|]. split; [done|].
    split; [congruence|]. do 4 (split; [done|]). congruence.
  - intros a o Ha. apply Hkeep1 in Ha.
    destruct (Hsame2 a o Ha) as (o2 & Ho2 & _ & _ & _ & Hp2 & _).
    destruct (Hfrom2 a o2 Ho2) as (oF & HoF & HpoF & _).
    exists oF. split; [done|]. congruence.
Qed.

(** X24.  [Mesh::extrude] of a Surface that bounds at most one Body
    builds a prism.  Along the outward normal (the Surface normal, negated
    when only the second Body slot is taken) times [normLen] it creates one
    new vertex over each boundary vertex, one lateral quadrilateral per
    edge on the two base vertices of the edge and the two new vertices
    over them (in the order base [i], base [j], new [j], new [i]) and a
    cap on the new vertices in base order, and returns a new Body whose
    surfaces are the laterals, the base and the cap; no old position
    changes and every object that was there keeps its parents. *)
Theorem extrude_Body_prism base normLen w bo b1 b2 :
  objs (w_state w) !! base = Some bo ->
  (forall v, v ∈ parents bo -> is_Some (objs (w_state w) !! v)) ->
  Surface_bodies (objs (w_state w)) base = (b1, b2) ->
  b1 = None \/ b2 = None ->
  let normal :=
    match b1, b2 with
    | None, Some _ => vneg (Surface_getNormal w base)
    | _, _ => Surface_getNormal w base
    end in
  exists b nvs lats cap w' ob oc,
    extrude_Body base normLen w = (Done (Some b), w') /\
    length nvs = length (parents bo) /\ NoDup nvs /\
    (forall nv, nv ∈ nvs -> objs (w_state w) !! nv = None) /\
    (forall i v, parents bo !! i = Some v ->
       exists nv, nvs !! i = Some nv /\
         w_pos w' nv = vadd (w_pos w v) (vscale normal normLen)) /\
    (forall u, u ∉ nvs -> w_pos w' u = w_pos w u) /\
    objs (w_state w') !! b = Some ob /\ objType ob = BODY /\
    parents ob = lats ++ [base; cap] /\ length lats = length (parents bo) /\
    objs (w_state w') !! cap = Some oc /\ objType oc = SURFACE /\ parents oc = nvs /\
    (forall i, (i < length (parents bo))%nat ->
       exists s os bi bj nj ni,
         lats !! i = Some s /\ objs (w_state w') !! s = Some os /\
         objType os = SURFACE /\
         parents bo !! i = Some bi /\
         parents bo !! next_index (length (parents bo)) i = Some bj /\
         nvs !! next_index (length (parents bo)) i = Some nj /\ nvs !! i = Some ni /\
         parents os = [bi; bj; nj; ni]) /\
    (forall a o, objs (w_state w) !! a = Some o ->
       exists o', objs (w_state w') !! a = Some o' /\ parents o' = parents o).
Proof. using_codes.
  intros Hbase Hex Hb Hone normal.
  assert (Hrun : extrude_Body base normLen w = extrude_build base normal normLen w).
  { unfold extrude_Body, Mesh_surfaceOutwardNormal. rewrite Hb. subst normal.
    destruct b1 as [x1|], b2 as [x2|]; try (by rewrite eqb_S_OK).
    by destruct Hone. }
  rewrite Hrun. by apply extrude_build_spec.
Qed.

(** ** Termination: the cascade returns, the add of a Structure may not *)

Lemma remove_each_outcome rm cs s :
  (forall c s', (rm c s').1 = Done S_OK \/ (rm c s').1 = Done E_FAIL \/
                (rm c s').1 = OutOfFuel) ->
  (remove_each rm cs s).1 = Done S_OK \/ (remove_each rm cs s).1 = Done E_FAIL \/
  (remove_each rm cs s).1 = OutOfFuel.
Proof. using_none.
  intros Hrm. revert s. induction cs as [|c cs IH]; intros s; simpl; [by left|].
  pose proof (Hrm c s) as H. destruct (rm c s) as [[r| |] s']; simpl in *.
  - destruct (r =? S_OK); [apply IH|]. right. by left.
  - destruct H as [?|[?|?]]; done.
  - right. by right.
Qed.

Lemma removeObj_outcome fuel a s :
  (removeObj fuel a s).1 = Done S_OK \/ (removeObj fuel a s).1 = Done E_FAIL \/
  (removeObj fuel a s).1 = OutOfFuel.
Proof. using_none.
  revert a s. induction fuel as [|fuel IH]; intros a s; simpl; [by right; right|].
  destruct (negb _); [right; by left|].
  destruct (objs s !! a) as [o|]; [|right; by left].
  destruct (_ <=? _)%nat; [right; by left|].
  apply remove_each_outcome. intros c s'. apply IH.
Qed.

(** X25.  [removeObj] always returns.  With a recursion budget above the
    number of objects registered with this mesh the call ends with [S_OK]
    or [E_FAIL], whatever the children lists are, cyclic ones included:
    each level unregisters its object before it descends, and a child
    pointer is checked before it is used. *)
Theorem removeObj_returns fuel a s :
  (size (registered_addrs s) < fuel)%nat ->
  (removeObj fuel a s).1 = Done S_OK \/ (removeObj fuel a s).1 = Done E_FAIL.
Proof. using_codes.
  intros Hsz. pose proof (removeObj_terminates fuel a s Hsz) as Hterm.
  destruct (removeObj_outcome fuel a s) as [?|[?|?]]; [by left|by right|done].
Qed.

(** X26.  [Mesh::add] on a Structure does not return on a cycle of
    unregistered Structures.  When, within a set of objects, the parents
    of each start with an unregistered Structure of the set, the call on
    any of them exhausts every recursion budget: the parent is added
    before the object itself gets its identifier, so nothing stops the
    descent. *)
Theorem add_Structure_cycle_diverges (C : addr -> Prop) st :
  (forall a, C a -> exists p, C p /\ first_unregistered_parent (objs st) a p) ->
  forall fuel a, C a -> (add_Structure fuel a st).1 = OutOfFuel.
Proof. using_none.
  intros Hcyc fuel. revert st Hcyc.
  induction fuel as [|fuel IH]; intros st Hcyc a Ha; [done|].
  destruct (Hcyc a Ha) as (p & Hp & o & rest & op & Ho & Hps & Hop & Hty & Hid).
  cbn [add_Structure]. rewrite Ho, Hps. cbn [add_unstored].
  change (objs (mark_dirty st)) with (objs st). rewrite Hop.
  rewrite (proj2 (Z.ltb_lt _ _) Hid). cbn [fmap option_fmap option_map]. rewrite Hty.
  pose proof (IH (mark_dirty st) Hcyc p Hp) as Hrec.
  destruct (add_Structure fuel p (mark_dirty st)) as [[r| |] s']; simpl in Hrec; done.
Qed.

(** ** Vertices that already hold an identifier *)

Lemma add_unstored_skips addp ps st :
  (forall p, p ∈ ps -> has_id st p) -> add_unstored addp ps st = (Done S_OK, st).
Proof. using_none.
  induction ps as [|p ps IH]; intros Hall; simpl; [done|].
  destruct (Hall p) as (op & Hop & Hid); [apply list_elem_of_here|].
  rewrite Hop. destruct (Z.ltb_spec (objId op) 0) as [|_]; [lia|].
  apply IH. intros q Hq. apply Hall. by apply list_elem_of_further.
Qed.

(** X27.  [Mesh::add] on a Surface takes a vertex that holds an
    identifier as it is, without looking at the mesh it refers to: when
    every vertex of an unregistered, sound Surface holds an identifier, of
    this mesh or of another, the call returns [S_OK], registers the
    Surface with this mesh, and leaves every other object and the
    inventories of vertices, bodies and structures exactly as they are. *)
Theorem add_Surface_skips_registered_vertices a st o :
  objs st !! a = Some o -> objId o < 0 -> mesh o = None -> validate o = true ->
  (forall p, p ∈ parents o -> has_id st p) ->
  exists st',
    add_Surface a st = (Done S_OK, st') /\
    (exists o', objs st' !! a = Some o' /\ registered o') /\
    (forall b, b <> a -> objs st' !! b = objs st !! b) /\
    (forall k, k <> SURFACE -> inventory k (msh st') = inventory k (msh st)).
Proof. using_codes.
  intros Ho Hneg Hm Hv Hall. unfold add_Surface. rewrite Ho.
  rewrite add_unstored_skips by done. simpl. rewrite eqb_S_OK.
  pose proof (Mesh_addObj_accepts SURFACE a (mark_dirty st) o Ho Hneg Hm Hv) as Hok.
  destruct (Mesh_addObj_S_OK SURFACE a (mark_dirty st) Hok)
    as (o' & id & I' & h1 & Ho' & _ & _ & _ & _ & Hobjs & Hinvs).
  simpl in Ho'. rewrite Ho in Ho'. injection Ho' as <-.
  destruct (Mesh_addObj SURFACE a (mark_dirty st)) as [r2 st2]. simpl in *. subst r2.
  rewrite eqb_S_OK. exists st2. split; [done|]. split; [|split].
  - rewrite Hobjs, lookup_insert_eq. eexists. split; [done|]. split; simpl; [lia|done].
  - intros b Hb. by rewrite Hobjs, lookup_insert_ne.
  - intros k Hk. rewrite Hinvs, decide_False by done. apply inventory_set_isDirty.
Qed.

(** ** Failing calls: what is written before the failure *)

Lemma isDirty_notify f m : isDirty (notify f m) = isDirty m.
Proof. using_none. reflexivity. Qed.

Lemma isDirty_set_inventory k I m : isDirty (set_inventory k I m) = isDirty m.
Proof. using_none. by destruct k. Qed.

Lemma Mesh_addObj_dirty k a s :
  isDirty (msh s) = true -> isDirty (msh (Mesh_addObj k a s).2) = true.
Proof. using_none.
  intros Hd. unfold Mesh_addObj. destruct (_ || _); [done|].
  destruct (Mesh_invIdAndAlloc _ _ _) as [[id I'] h1]. simpl.
  destruct (_ !! a); by destruct k.
Qed.

Lemma add_Vertex_dirty a s : isDirty (msh (add_Vertex a s).2) = true.
Proof. using_none. rewrite add_Vertex_unfold. simpl. by apply Mesh_addObj_dirty. Qed.

Lemma add_composite_dirty k addp a st ps :
  (forall p s, isDirty (msh s) = true -> isDirty (msh (addp p s).2) = true) ->
  isDirty (msh (add_self k a (add_unstored addp ps (mark_dirty st))).2) = true.
Proof. using_none.
  intros Hp.
  apply (add_self_rel (fun s s' => isDirty (msh s) = true -> isDirty (msh s') = true)
           k a _ (mark_dirty st)); [by auto|intros s; apply Mesh_addObj_dirty| |done].
  apply (add_unstored_rel (fun s s' => isDirty (msh s) = true -> isDirty (msh s') = true));
    by auto.
Qed.

Lemma add_Surface_dirty a s : isDirty (msh (add_Surface a s).2) = true.
Proof. using_none.
  unfold add_Surface. destruct (objs s !! a) as [o|]; [|done].
  apply add_composite_dirty. intros p s' _. apply add_Vertex_dirty.
Qed.

Lemma add_Body_dirty a s : isDirty (msh (add_Body a s).2) = true.
Proof. using_none.
  unfold add_Body. destruct (objs s !! a) as [o|]; [|done].
  apply add_composite_dirty. intros p s' _. apply add_Surface_dirty.
Qed.

Lemma add_Structure_keeps_dirty fuel a s :
  isDirty (msh s) = true -> isDirty (msh (add_Structure fuel a s).2) = true.
Proof. using_none.
  revert a s. induction fuel as [|fuel IH]; intros a s Hd; simpl; [done|].
  destruct (objs s !! a) as [o|]; [|done].
  apply add_composite_dirty. intros p s' Hd'.
  destruct (objType <$> objs s' !! p) as [[| | |]|]; simpl; try done;
    [apply add_Body_dirty | by apply IH].
Qed.

Lemma add_Structure_dirty fuel a s :
  isDirty (msh (add_Structure (S fuel) a s).2) = true.
Proof. using_none.
  simpl. destruct (objs s !! a) as [o|]; [|done].
  apply add_composite_dirty. intros p s' Hd'.
  destruct (objType <$> objs s' !! p) as [[| | |]|]; simpl; try done;
    [apply add_Body_dirty | by apply add_Structure_keeps_dirty].
Qed.

Lemma isDirty_unstore a o s : isDirty (msh (unstore a o s)) = isDirty (msh s).
Proof. using_none.
  unfold unstore, clear_slot. simpl. apply isDirty_set_inventory.
Qed.

Lemma removeObj_keeps_dirty fuel a s :
  isDirty (msh s) = true -> isDirty (msh (removeObj fuel a s).2) = true.
Proof. using_codes.
  revert fuel a s.
  refine (removeObj_rel (fun s s' => isDirty (msh s) = true -> isDirty (msh s') = true)
            _ _ _ _); [by auto|by auto|done|].
  intros s a o _ _ _ _ Hd. by rewrite isDirty_unstore.
Qed.

Lemma removeObj_dirty fuel a s : isDirty (msh (removeObj (S fuel) a s).2) = true.
Proof. using_codes.
  simpl. destruct (negb _); [done|]. destruct (objs s !! a) as [o|]; [|done].
  destruct (_ <=? _)%nat; [done|].
  apply (remove_each_rel (fun s s' => isDirty (msh s) = true -> isDirty (msh s') = true));
    [by auto|by auto|intros c s'; apply removeObj_keeps_dirty|].
  by rewrite isDirty_unstore.
Qed.

Lemma run_op_dirty op st :
  (run_op op st).1 <> OutOfFuel -> isDirty (msh (run_op op st).2) = true.
Proof. using_codes.
  destruct op as [[| | |] fuel a|fuel a]; simpl.
  - intros _. apply add_Vertex_dirty.
  - intros _. apply add_Surface_dirty.
  - intros _. apply add_Body_dirty.
  - destruct fuel as [|fuel]; [done|]. intros _. apply add_Structure_dirty.
  - destruct fuel as [|fuel]; [done|]. intros _. apply removeObj_dirty.
Qed.

Lemma add_rel_flags (R : State -> State -> Prop) :
  (forall s, R s s) -> (forall s1 s2 s3, R s1 s2 -> R s2 s3 -> R s1 s3) ->
  (forall s, R s (mark_dirty s)) ->
  (forall s f, R s (mkState (objs s) (notify f (set_isDirty true (msh s))))) ->
  (forall k a s, R s (Mesh_addObj k a s).2) ->
  (forall a s, R s (add_Vertex a s).2) /\
  (forall a s, R s (add_Surface a s).2) /\
  (forall a s, R s (add_Body a s).2) /\
  (forall fuel a s, R s (add_Structure fuel a s).2).
Proof. using_none.
  intros Hr Ht Hd Hf HA.
  assert (HV : forall a s, R s (add_Vertex a s).2).
  { intros a s. rewrite add_Vertex_unfold. simpl. eapply Ht; [apply Hf|apply HA]. }
  assert (Hcomp : forall k addp a s o,
            (forall p s', R s' (addp p s').2) ->
            R s (add_self k a (add_unstored addp (parents o) (mark_dirty s))).2).
  { intros k addp a s o Hp. apply add_self_rel; [done|apply HA|].
    apply Ht with (mark_dirty s); [apply Hd|]. by apply add_unstored_rel. }
  assert (HS : forall a s, R s (add_Surface a s).2).
  { intros a s. unfold add_Surface. destruct (objs s !! a) as [o|]; [|apply Hd].
    by apply Hcomp. }
  assert (HB : forall a s, R s (add_Body a s).2).
  { intros a s. unfold add_Body. destruct (objs s !! a) as [o|]; [|apply Hd].
    by apply Hcomp. }
  do 3 (split; [done|]).
  intros fuel. induction fuel as [|fuel IH]; intros a s; simpl; [apply Hr|].
  destruct (objs s !! a) as [o|]; [|apply Hd].
  apply Hcomp. intros p s'. destruct (objType <$> objs s' !! p) as [[| | |]|]; simpl;
    try apply Hr; [apply HB | apply IH].
Qed.

Lemma add_effect_all :
  (forall a s, add_effect s (add_Vertex a s).2) /\
  (forall a s, add_effect s (add_Surface a s).2) /\
  (forall a s, add_effect s (add_Body a s).2) /\
  (forall fuel a s, add_effect s (add_Structure fuel a s).2).
Proof. using_codes.
  assert (Hsame : forall s m, (forall k, inventory k m = inventory k (msh s)) ->
            keeps_registered s (mkState (objs s) m) /\ add_effect s (mkState (objs s) m)).
  { intros s m Hm. split; [by intros b o|]. left. done. }
  destruct (add_rel_flags (fun s s' => keeps_registered s s' /\ add_effect s s'))
    as (HV & HS & HB & HT).
  - intros s. split; [by intros b o|]. by left.
  - intros s1 s2 s3 [K1 E1] [K2 E2]. split; [by eapply keeps_registered_trans|].
    destruct E1 as [[Ho1 Hi1]|(b & o & o' & Hb & Hneg & Hb' & Hid)].
    + destruct E2 as [[Ho2 Hi2]|(b & o & o' & Hb & Hneg & Hb' & Hid)].
      * left. split; [congruence|]. intros k. by rewrite Hi2, Hi1.
      * right. exists b, o, o'. by rewrite <- Ho1.
    + right. exists b, o, o'. split; [done|]. split; [done|]. split; [|done].
      by apply K2.
  - intros s. apply Hsame. intros k. apply inventory_set_isDirty.
  - intros s f. apply Hsame. intros k. by rewrite inventory_notify, inventory_set_isDirty.
  - intros k a s. split; [apply Mesh_addObj_keeps|].
    destruct (decide ((Mesh_addObj k a s).1 = S_OK)) as [Hr|Hr].
    + destruct (Mesh_addObj_S_OK k a s Hr)
        as (o & id & I' & h1 & Ho & Hneg & _ & _ & _ & Hobjs & _).
      right. exists a, o, (with_mesh (Some this) (with_objId (Z.of_nat id) o)).
      split; [done|]. split; [done|]. split; [by rewrite Hobjs, lookup_insert_eq|].
      simpl. lia.
    + rewrite Mesh_addObj_rejects by done. by left.
  - split; [intros a s; apply HV|]. split; [intros a s; apply HS|].
    split; [intros a s; apply HB|]. intros fuel a s. apply HT.
Qed.

Lemma Mesh_addObj_bad k a st o :
  objs st !! a = Some o -> 0 <= objId o \/ mesh o <> None \/ validate o = false ->
  Mesh_addObj k a st = (E_FAIL, st).
Proof. using_codes.
  intros Ho Hbad. apply Mesh_addObj_rejects. intros Hr.
  apply Mesh_addObj_S_OK in Hr as (o' & _ & _ & _ & Ho' & ? & ? & ? & _).
  rewrite Ho in Ho'. injection Ho' as <-.
  destruct Hbad as [?|[?|?]]; [lia|done|congruence].
Qed.

Lemma add_Surface_rejected_after_vertices a st o :
  objs st !! a = Some o ->
  (forall p, p ∈ parents o -> exists op, objs st !! p = Some op /\
     (0 <= objId op \/ (mesh op = None /\ validate op = true))) ->
  0 <= objId o \/ mesh o <> None \/ validate o = false ->
  exists st', add_Surface a st = (Done E_FAIL, st') /\
    forall p, p ∈ parents o -> has_id st' p.
Proof. using_codes.
  intros Ho Hall Hbad. unfold add_Surface. rewrite Ho.
  destruct (add_unstored_Vertex_accepts (parents o) (mark_dirty st) Hall)
    as (s1 & Hrun & Hframe).
  assert (Hids : forall p, p ∈ parents o -> has_id s1 p).
  { apply (add_unstored_registers add_Vertex (parents o) (mark_dirty st) s1);
      [apply add_Vertex_has_id | intros p s; apply add_frame_all | exact Hrun]. }
  rewrite Hrun. simpl. rewrite eqb_S_OK.
  assert (Hrej : Mesh_addObj SURFACE a s1 = (E_FAIL, s1)).
  { destruct (decide (a ∈ parents o)) as [Hin|Hnotin].
    - destruct (Hids a Hin) as (oa & Hoa & Hid). eapply Mesh_addObj_bad; [exact Hoa|by left].
    - eapply Mesh_addObj_bad; [apply (Hframe a o Hnotin Ho)|exact Hbad]. }
  rewrite Hrej, eqb_E_FAIL. by exists s1.
Qed.

Lemma removeObj_unregisters_first fuel a st o :
  Mesh_checkStoredObj (objs st) a this = S_OK -> objs st !! a = Some o ->
  (Z.to_nat (objId o) < length (inv (inventory (objType o) (msh st))))%nat ->
  objs (removeObj (S fuel) a st).2 !! a = Some (unregistered o) /\
  inv (inventory (objType o) (msh (removeObj (S fuel) a st).2)) !! Z.to_nat (objId o)
    = Some None /\
  forall c rest, children o = c :: rest ->
    c = a \/ Mesh_checkStoredObj (objs st) c this <> S_OK ->
    (removeObj (S (S fuel)) a st).1 = Done E_FAIL.
Proof. using_codes.
  intros Hc Ho Hlt.
  assert (Hstep : forall n, removeObj (S n) a st =
            remove_each (removeObj n) (children o) (unstore a o (mark_dirty st))).
  { intros n. simpl. rewrite Hc, Z.eqb_refl, Ho. simpl. rewrite inventory_set_isDirty.
    destruct (Nat.leb_spec (length (inv (inventory (objType o) (msh st))))
                (Z.to_nat (objId o))); [lia|done]. }
  set (s0 := unstore a o (mark_dirty st)).
  pose proof (removal_frame_remove_each fuel (children o) s0) as Hf.
  rewrite Hstep. fold s0. split; [|split].
  - eapply removal_frame_unregistered; [exact Hf|]. apply lookup_insert_eq.
  - destruct Hf as (_ & _ & Hnull). apply Hnull. unfold s0.
    rewrite inventory_unstore, decide_True by done. simpl.
    apply list_lookup_insert_eq. by rewrite inventory_set_isDirty.
  - intros c rest Hch Hbad. rewrite Hstep, Hch. fold s0. cbn [remove_each].
    rewrite (removeObj_check_failure fuel c s0).
    + by rewrite eqb_E_FAIL.
    + left. intros Hok. apply Mesh_checkStoredObj_ok in Hok as (oc & Hoc & Hid & Hm).
      destruct (decide (c = a)) as [->|Hne].
      * unfold s0 in Hoc. simpl in Hoc. rewrite lookup_insert_eq in Hoc.
        injection Hoc as <-. simpl in Hid. lia.
      * destruct Hbad as [?|Hbad]; [done|]. apply Hbad.
        apply Mesh_checkStoredObj_ok. exists oc. split; [|done].
        unfold s0 in Hoc. simpl in Hoc. by rewrite lookup_insert_ne in Hoc.
Qed.

(** C9, as the code has it.  Every add and every remove raises the dirty
    flag, whatever it returns.  Apart from the flag: a failing add of a
    Vertex, and a remove that fails the checks on the object passed
    (unstored, other mesh, identifier outside the inventory), leave the
    objects, the inventories and the available-id sets exactly as before;
    every add, of any overload and whatever it returns, touches no object
    that holds an identifier and no parents or children list, and either
    leaves objects and inventories exactly as before or has given an
    identifier to an object that had none, so that a failing composite add
    that stored no part has written nothing.  Nothing is rolled back: an
    add of a Surface whose vertices can all be added but which is itself
    rejected returns [E_FAIL] with every vertex stored; a remove that
    passes the checks on its object has unregistered it and nulled its
    slot whatever it returns, and returns [E_FAIL] when its first child is
    not stored. *)
Theorem add_remove_validate_before_inventory :
  (forall op st,
     (run_op op st).1 <> OutOfFuel -> isDirty (msh (run_op op st).2) = true) /\
  (forall a st r st',
     add_Vertex a st = (r, st') -> r <> Done S_OK ->
     objs st' = objs st /\
     (forall k, inventory k (msh st') = inventory k (msh st)) /\
     isDirty (msh st') = true) /\
  (forall fuel a st,
     Mesh_checkStoredObj (objs st) a this <> S_OK \/
     (exists o, objs st !! a = Some o /\
        (length (inv (inventory (objType o) (msh st))) <= Z.to_nat (objId o))%nat) ->
     exists st', removeObj (S fuel) a st = (Done E_FAIL, st') /\
       objs st' = objs st /\
       (forall k, inventory k (msh st') = inventory k (msh st)) /\
       isDirty (msh st') = true) /\
  (forall k fuel a st,
     add_frame st (run_op (OpAdd k fuel a) st).2 /\
     add_effect st (run_op (OpAdd k fuel a) st).2) /\
  (forall a st o,
     objs st !! a = Some o ->
     (forall p, p ∈ parents o -> exists op, objs st !! p = Some op /\
        (0 <= objId op \/ (mesh op = None /\ validate op = true))) ->
     0 <= objId o \/ mesh o <> None \/ validate o = false ->
     exists st', add_Surface a st = (Done E_FAIL, st') /\
       forall p, p ∈ parents o -> has_id st' p) /\
  (forall fuel a st o,
     Mesh_checkStoredObj (objs st) a this = S_OK -> objs st !! a = Some o ->
     (Z.to_nat (objId o) < length (inv (inventory (objType o) (msh st))))%nat ->
     objs (removeObj (S fuel) a st).2 !! a = Some (unregistered o) /\
     inv (inventory (objType o) (msh (removeObj (S fuel) a st).2)) !! Z.to_nat (objId o)
       = Some None /\
     forall c rest, children o = c :: rest ->
       c = a \/ Mesh_checkStoredObj (objs st) c this <> S_OK ->
       (removeObj (S (S fuel)) a st).1 = Done E_FAIL).
Proof. using_codes.
  split; [apply run_op_dirty|]. split; [|split; [|split; [|split]]].
  - intros a st r st' Hrun Hr.
    destruct (add_Vertex_failure a st r st' Hrun Hr) as [_ ->]. simpl.
    split; [done|]. split; [|done].
    intros k. by rewrite inventory_notify, inventory_set_isDirty.
  - intros fuel a st H. exists (mark_dirty st).
    split; [by apply removeObj_check_failure|]. simpl.
    split; [done|]. split; [|done]. intros k. apply inventory_set_isDirty.
  - intros k fuel a st.
    destruct add_frame_all as (FV & FS & FB & FT).
    destruct add_effect_all as (EV & ES & EB & ET).
    destruct k; simpl; split; auto.
  - apply add_Surface_rejected_after_vertices.
  - apply removeObj_unregisters_first.
Qed.

End TissueForge.

Local Close Scope Z_scope.
Local Open Scope nat_scope.

(** * Sample runs *)

Abbreviation sample_add_Surface :=
  (add_Surface sample_S_OK sample_E_FAIL sample_INCR sample_mesh).
Abbreviation sample_add_Vertex :=
  (add_Vertex sample_S_OK sample_E_FAIL sample_INCR sample_mesh).
Abbreviation sample_removeObj :=
  (removeObj sample_S_OK sample_E_FAIL sample_mesh).
Abbreviation sample_run :=
  (run_op sample_S_OK sample_E_FAIL sample_INCR sample_mesh).

(** The sample codes and increment meet the assumptions on the parameters. *)
Lemma sample_codes_differ : sample_S_OK <> sample_E_FAIL.
Proof. discriminate. Defined.

Lemma sample_INCR_pos : (0 < sample_INCR)%nat.
Proof. unfold sample_INCR. lia. Defined.

(** A store none of whose objects refers to the sample mesh, under an empty
    mesh, is a fresh state; both conditions are decided by evaluation. *)
Lemma sample_fresh (h : Store) :
  bool_decide (map_Forall (fun _ o => mesh o ≠ Some sample_mesh) h) = true ->
  bool_decide (map_Forall
     (fun _ o => Forall (fun p => from_option (parent_type_ok (objType o)) true
                                    (objType <$> h !! p) = true) (parents o)) h) = true ->
  fresh_state sample_mesh (mkState h emptyMesh).
Proof.
  intros H1 H2. split; [intros []; reflexivity|]. split.
  - by apply bool_decide_eq_true in H1.
  - by apply bool_decide_eq_true in H2.
Defined.

(** C6 on a run: the triangle is added, its Vertex 2 removed (which takes
    Surface 10 with it) and added again. *)
Lemma Mesh_identifiers_unique_witness :
  let st0 := mkState triangle_store emptyMesh in
  let st1 := (sample_run (OpAdd SURFACE 0 10) st0).2 in
  let st2 := (sample_run (OpRemove 5 2) st1).2 in
  let st3 := (sample_run (OpAdd VERTEX 0 2) st2).2 in
  fresh_state sample_mesh st0 /\
  ids_unique sample_mesh st3 /\ slots_exact sample_mesh st3 /\
  ids_index_slots sample_mesh st3.
Proof.
  intros st0 st1 st2 st3.
  assert (Hf : fresh_state sample_mesh st0) by (apply sample_fresh; vm_compute; reflexivity).
  split; [exact Hf|].
  apply (Mesh_identifiers_unique sample_S_OK sample_E_FAIL sample_INCR sample_mesh
           sample_codes_differ sample_INCR_pos st0 st3 Hf).
  apply (rtc_l _ _ st1).
  { apply (step_op _ _ _ _ (OpAdd SURFACE 0 10) st0 (sample_run (OpAdd SURFACE 0 10) st0).1).
    - intros o Ho. vm_compute in Ho. by injection Ho as <-.
    - apply surjective_pairing. }
  apply (rtc_l _ _ st2).
  { apply (step_op _ _ _ _ (OpRemove 5 2) st1 (sample_run (OpRemove 5 2) st1).1).
    - exact I.
    - apply surjective_pairing. }
  apply rtc_once.
  apply (step_op _ _ _ _ (OpAdd VERTEX 0 2) st2 (sample_run (OpAdd VERTEX 0 2) st2).1).
  - intros o Ho. vm_compute in Ho. by injection Ho as <-.
  - apply surjective_pairing.
Defined.

(** Over the rationals a vector minus itself is zero. *)
Lemma Q_isZero_diag (p : FVector3 Q) : Q_isZero (vsub Q Qminus p p) = true.
Proof.
  unfold Q_isZero, vsub. simpl.
  assert (H : forall x : Q, Qeq_bool (x - x) 0 = true).
  { intros x. apply Qeq_bool_iff. ring. }
  by rewrite !H.
Qed.

(** C10 on a run: once Vertex 2 of the stored triangle is removed, slot 1
    is null and a query with a negative tolerance calls through it. *)
Lemma findVertex_null_slot_witness :
  let st1 := (sample_add_Surface 10 (mkState triangle_store emptyMesh)).2 in
  let st2 := (sample_removeObj 5 2 st1).2 in
  let w := mkWorld st2 square_positions in
  let pos := mkFVector3 0%Q 0%Q 0%Q in
  vertices (msh st2) !! 1 = Some None /\
  findVertex Q Qle_bool Q_relativeLength w pos (-1)%Q = FindNullDeref.
Proof.
  intros st1 st2 w pos.
  destruct (findVertex_null_slot sample_S_OK sample_E_FAIL sample_mesh Q Qle_bool
              Q_relativeLength sample_codes_differ) as (_ & Hnull & Hremoved & _).
  assert (Hslot : vertices (msh st2) !! 1 = Some None).
  { apply (Hremoved 5 2 st1 st2
             (mkMeshObj 1%Z (Some sample_mesh) VERTEX [] [10] true)); vm_compute; reflexivity. }
  split; [exact Hslot|].
  apply (Hnull w pos (-1)%Q 1 Hslot).
  intros j v Hj Hv. assert (j = 0) as -> by lia.
  vm_compute in Hv. injection Hv as <-. vm_compute. reflexivity.
Defined.

(** C8 on the stored triangle (three vertices) and on a quadrilateral
    collapsed onto one point (the neighbours of Vertex 1 coincide): no
    contribution. *)
Lemma ConvexPolygonConstraint_inactive_witness :
  let tri := mkWorld (sample_add_Surface 10 (mkState triangle_store emptyMesh)).2
                     square_positions in
  let flat := mkWorld (sample_add_Surface 10 (mkState quad_store emptyMesh)).2
                      (fun _ => mkFVector3 0%Q 0%Q 0%Q) in
  let lam := (5 # 1)%Q in
  let getMass := fun _ : addr => 1%Q in
  let centroid := fun (_ : World Q) (_ : addr) => mkFVector3 (2 # 3)%Q (1 # 3)%Q 0%Q in
  let e := (3 # 1)%Q in
  let f := mkFVector3 1%Q 2%Q 3%Q in
  let energy := ConvexPolygonConstraint_energy Q id Qplus Qminus Qmult Qdiv id Qltb Q_isZero
                  cyclic_neighbours getMass (1 # 100)%Q centroid lam in
  let force := ConvexPolygonConstraint_force Q id Qplus Qminus Qmult Qdiv id Qltb Q_isZero
                 cyclic_neighbours getMass (1 # 100)%Q centroid lam in
  (energy tri 10 2 e = Done e /\ force tri 10 2 f = Done f) /\
  (energy flat 10 1 e = Done e /\ force flat 10 1 f = Done f).
Proof.
  intros tri flat lam getMass centroid e f energy force. split.
  - apply (ConvexPolygonConstraint_inactive Q id Qplus Qminus Qmult Qdiv id Qltb Q_isZero
             cyclic_neighbours getMass (1 # 100)%Q centroid lam tri 10 2 e f).
    left. vm_compute. lia.
  - apply (ConvexPolygonConstraint_inactive Q id Qplus Qminus Qmult Qdiv id Qltb Q_isZero
             cyclic_neighbours getMass (1 # 100)%Q centroid lam flat 10 1 e f).
    right. exists 2, 4. repeat split; vm_compute; reflexivity.
Defined.

Abbreviation quad_world :=
  (mkWorld (sample_add_Surface 10 (mkState quad_store emptyMesh)).2 square_positions).

(** C5 on the stored quadrilateral: the second coefficient is 3/2. *)
Lemma replace_Vertex_rejects_witness :
  replace_Vertex sample_S_OK sample_E_FAIL sample_INCR sample_mesh Q id Qplus Qminus Qmult
    Qle_bool vertex_neighbours 5 1 [(1 # 2)%Q; (3 # 2)%Q] quad_world = (Done None, quad_world).
Proof.
  apply replace_Vertex_rejects. right. exists (3 # 2)%Q. split.
  - right. left.
  - right. vm_compute. reflexivity.
Defined.

Abbreviation tri_world :=
  (mkWorld (sample_add_Surface 10 (mkState triangle_store emptyMesh)).2 square_positions).


(** C1 on the stored triangle, bounded by two Bodies: with the success
    code 0 the guard is passed and the Body at address 18 is built and
    stored. *)
Lemma extrude_Body_twice_bound_witness :
  let r := extrude_Body sample_S_OK sample_E_FAIL sample_INCR sample_mesh Q id Qplus Qmult
             Qopp twice_bound unit_normal 10 1%Q tri_world in
  r = extrude_build sample_S_OK sample_E_FAIL sample_INCR sample_mesh Q Qplus Qmult 10
        (vzero Q id) 1%Q tri_world /\
  r.1 = Done (Some 18) /\ bodies (msh (w_state r.2)) !! 0 = Some (Some 18).
Proof.
  intros r. split.
  - by apply (extrude_Body_twice_bound _ _ _ _ _ _ _ _ _ _ _ _ _ _ 20 21).
  - vm_compute. split; reflexivity.
Defined.

(** C3 on the stored quadrilateral: the vertices 1 and 4 hold the first
    and the last index of Surface 10. *)
Lemma merge_Vertex_rejects_wrap_witness :
  cyclically_adjacent [1; 2; 3; 4] 1 4 /\
  merge_Vertex sample_S_OK sample_E_FAIL sample_mesh Q Qplus Qminus Qmult 5 1 4 (1 # 2)%Q
    quad_world = (Done sample_E_FAIL, quad_world).
Proof.
  apply (merge_Vertex_rejects_wrap sample_S_OK sample_E_FAIL sample_mesh Q Qplus Qminus Qmult
           5 1 4 (1 # 2)%Q quad_world
           (mkMeshObj 0%Z (Some sample_mesh) VERTEX [] [10] true)
           (mkMeshObj 3%Z (Some sample_mesh) VERTEX [] [10] true)
           10 []
           (mkMeshObj 0%Z (Some sample_mesh) SURFACE [1; 2; 3; 4] [] true) 2 [3]);
    try (vm_compute; reflexivity); lia.
Defined.

Abbreviation hinge_state :=
  (sample_add_Surface 11 (sample_add_Surface 10 (mkState hinge_store emptyMesh)).2).2.

(** C2 on the hinge: Surface 11 shares the run 3, 2 with the replaced
    Surface 10; the call reports success, the boundary of Surface 11 is
    unchanged, Vertex 5 bounds no Surface, and Vertex 1, left on no
    remaining Surface, is still stored. *)
Lemma replace_Surface_splices_nothing_witness :
  let r := replace_Surface sample_S_OK sample_E_FAIL sample_INCR sample_mesh hinge_labels
             5 5 10 hinge_state in
  same_relations (objs hinge_state) (objs r.2) /\
  r.1 = Done sample_S_OK /\
  parents <$> objs r.2 !! 11 = Some [3; 2; 4] /\
  children <$> objs r.2 !! 5 = Some [] /\
  objId <$> objs r.2 !! 1 = Some 0%Z /\
  vertices (msh r.2) !! 0 = Some (Some 1).
Proof.
  intros r. split.
  - apply (replace_Surface_splices_nothing sample_S_OK sample_E_FAIL sample_INCR sample_mesh
             hinge_labels sample_codes_differ 5 5 10 hinge_state).
  - vm_compute. repeat split; reflexivity.
Defined.

(** The stored quadrilateral satisfies the inventory invariant. *)
Lemma quad_world_inventory_inv : inventory_inv sample_mesh (w_state quad_world).
Proof.
  assert (Hf : mesh_inv sample_mesh (mkState quad_store emptyMesh)).
  { apply fresh_state_mesh_inv, sample_fresh; vm_compute; reflexivity. }
  apply (add_Surface_ok sample_S_OK sample_E_FAIL sample_INCR sample_mesh
           sample_codes_differ sample_INCR_pos 10 _ Hf).
  intros o Ho. vm_compute in Ho. by injection Ho as <-.
Qed.

(** With exact scalars and coefficient one half, the kept vertex lands on
    the midpoint. *)
Lemma merge_Vertex_midpoint S_OK E_FAIL this fuel toKeep toRemove w w' :
  S_OK <> E_FAIL ->
  merge_Vertex S_OK E_FAIL this Q Qplus Qminus Qmult fuel toKeep toRemove (1 # 2)%Q w
    = (Done S_OK, w') ->
  let pk := getPosition Q w toKeep in
  let pr := getPosition Q w toRemove in
  let p := getPosition Q w' toKeep in
  (vx p == (vx pk + vx pr) / 2 /\ vy p == (vy pk + vy pr) / 2 /\
   vz p == (vz pk + vz pr) / 2)%Q.
Proof.
  intros Hc Hrun pk pr p.
  destruct (merge_Vertex_success S_OK E_FAIL this Q Qplus Qminus Qmult Hc fuel toKeep toRemove
              (1 # 2)%Q w w' Hrun) as [Hp _].
  unfold p. rewrite Hp. simpl. fold pk pr. repeat split; field.
Qed.

(** C4, as the code has it.  Whatever the scalar type and its operations,
    after a successful merge of two vertices the kept vertex sits at
    [keep + (remove - keep) * lenCf], each component evaluated by one
    subtraction, one multiplication and one addition of that arithmetic on
    the positions the two had before the call; the removed vertex has
    identifier -1 and no mesh, and from a state that satisfies the
    inventory invariant, as every state that add and remove reach does, no
    slot of any inventory holds it.  With coefficient one half the
    position is exactly the midpoint when the arithmetic is exact, as on
    the rationals. *)
Theorem merge_Vertex_result S_OK E_FAIL this :
  S_OK <> E_FAIL ->
  (forall F fadd fsub fmul fuel toKeep toRemove lenCf (w w' : World F),
     merge_Vertex S_OK E_FAIL this F fadd fsub fmul fuel toKeep toRemove lenCf w
       = (Done S_OK, w') ->
     getPosition F w' toKeep =
       vadd F fadd (getPosition F w toKeep)
         (vscale F fmul (vsub F fsub (getPosition F w toRemove) (getPosition F w toKeep))
            lenCf) /\
     (exists o', objs (w_state w') !! toRemove = Some o' /\
                 objId o' = (-1)%Z /\ mesh o' = None) /\
     (inventory_inv this (w_state w) ->
      forall k i, inv (inventory k (msh (w_state w'))) !! i <> Some (Some toRemove))) /\
  (forall fuel toKeep toRemove (w w' : World Q),
     merge_Vertex S_OK E_FAIL this Q Qplus Qminus Qmult fuel toKeep toRemove (1 # 2)%Q w
       = (Done S_OK, w') ->
     let pk := getPosition Q w toKeep in
     let pr := getPosition Q w toRemove in
     let p := getPosition Q w' toKeep in
     (vx p == (vx pk + vx pr) / 2 /\ vy p == (vy pk + vy pr) / 2 /\
      vz p == (vz pk + vz pr) / 2)%Q).
Proof.
  intros Hc. split.
  - intros F fadd fsub fmul. apply merge_Vertex_success, Hc.
  - intros fuel toKeep toRemove w w'. apply merge_Vertex_midpoint, Hc.
Qed.

(** C4 on the stored quadrilateral, over the rationals: Vertex 2, at
    (1, 0, 0), is merged into Vertex 1, at the origin, with coefficient one
    half. *)
Lemma merge_Vertex_result_witness :
  let r := merge_Vertex sample_S_OK sample_E_FAIL sample_mesh Q Qplus Qminus Qmult 5 1 2
             (1 # 2)%Q quad_world in
  sample_S_OK <> sample_E_FAIL /\
  r.1 = Done sample_S_OK /\
  getPosition Q r.2 1 =
    vadd Q Qplus (square_positions 1)
      (vscale Q Qmult (vsub Q Qminus (square_positions 2) (square_positions 1)) (1 # 2)%Q) /\
  (exists o', objs (w_state r.2) !! 2 = Some o' /\ objId o' = (-1)%Z /\ mesh o' = None) /\
  (forall k i, inv (inventory k (msh (w_state r.2))) !! i <> Some (Some 2)) /\
  (vx (getPosition Q r.2 1%nat) == (0 + 1) / 2)%Q.
Proof.
  intros r. split; [exact sample_codes_differ|]. split; [vm_compute; reflexivity|].
  destruct (merge_Vertex_result sample_S_OK sample_E_FAIL sample_mesh sample_codes_differ)
    as [Hgen Hmid].
  destruct (Hgen Q Qplus Qminus Qmult 5 1 2 (1 # 2)%Q quad_world r.2) as (Hp & Hun & Habs).
  { vm_compute. reflexivity. }
  split; [exact Hp|]. split; [exact Hun|]. split; [exact (Habs quad_world_inventory_inv)|].
  destruct (Hmid 5 1 2 quad_world r.2) as (Hx & _); [vm_compute; reflexivity|]. exact Hx.
Defined.

(** C4 as stated fails in floating point.  On the stored quadrilateral
    with Vertex 1 at [x = -1] and Vertex 2 at [x = 1 + 2^-52], the merge
    with coefficient one half returns [S_OK] and leaves the kept vertex at
    [x = 0]: the difference [2 + 2^-52] rounds to 2.  The midpoint of the
    two positions is [2^-53], itself a binary64 number and what
    [(keep + remove) * 0.5] evaluates to.  The same happens in binary32
    with [1 + 2^-23] and [2^-24]. *)
Lemma merge_Vertex_misses_midpoint :
  (let r := merge_Vertex sample_S_OK sample_E_FAIL sample_mesh SpecFloat.spec_float
              binary64_add binary64_sub binary64_mul 5 1 2 binary64_half
              (mkWorld (w_state quad_world) binary64_positions) in
   let pk := vx (binary64_positions 1) in
   let pr := vx (binary64_positions 2) in
   let p := vx (getPosition SpecFloat.spec_float r.2 1) in
   let mid := SpecFloat.S754_finite false (2 ^ 52) (-105) in
   r.1 = Done sample_S_OK /\
   (SF2Q pk == -1)%Q /\ (SF2Q pr == 1 + 1 / inject_Z (2 ^ 52))%Q /\
   p = SpecFloat.S754_zero false /\
   binary64_mul (binary64_add pk pr) binary64_half = mid /\
   (SF2Q mid == (SF2Q pk + SF2Q pr) / 2)%Q /\
   ~ (SF2Q p == (SF2Q pk + SF2Q pr) / 2)%Q) /\
  (let r := merge_Vertex sample_S_OK sample_E_FAIL sample_mesh SpecFloat.spec_float
              binary32_add binary32_sub binary32_mul 5 1 2 binary32_half
              (mkWorld (w_state quad_world) binary32_positions) in
   let pk := vx (binary32_positions 1) in
   let pr := vx (binary32_positions 2) in
   let p := vx (getPosition SpecFloat.spec_float r.2 1) in
   let mid := SpecFloat.S754_finite false (2 ^ 23) (-47) in
   r.1 = Done sample_S_OK /\
   (SF2Q pk == -1)%Q /\ (SF2Q pr == 1 + 1 / inject_Z (2 ^ 23))%Q /\
   p = SpecFloat.S754_zero false /\
   binary32_mul (binary32_add pk pr) binary32_half = mid /\
   (SF2Q mid == (SF2Q pk + SF2Q pr) / 2)%Q /\
   ~ (SF2Q p == (SF2Q pk + SF2Q pr) / 2)%Q).
Proof.
  split; vm_compute; repeat split; try reflexivity; intros H; discriminate H.
Qed.

(** C9 on the faulty store: the add of Surface 10, whose own validation
    fails, returns [E_FAIL] after storing its three vertices, with the
    dirty flag raised; the remove of the stored Vertex 5, whose child
    Surface 11 is not stored, fails after unregistering the Vertex. *)
Lemma add_remove_validate_before_inventory_witness :
  let clean := mkState faulty_store emptyMesh in
  let stored := (sample_add_Vertex 5 clean).2 in
  sample_S_OK <> sample_E_FAIL /\
  (exists st', sample_add_Surface 10 clean = (Done sample_E_FAIL, st') /\
     forall p, p ∈ [2; 3; 4] -> has_id st' p) /\
  isDirty (msh (sample_add_Surface 10 clean).2) = true /\
  add_effect clean (sample_add_Surface 10 clean).2 /\
  (sample_removeObj 2 5 stored).1 = Done sample_E_FAIL /\
  vertices (msh (sample_removeObj 1 5 stored).2) !! 0 = Some None.
Proof.
  intros clean stored. split; [exact sample_codes_differ|].
  destruct (add_remove_validate_before_inventory sample_S_OK sample_E_FAIL sample_INCR
              sample_mesh sample_codes_differ) as (Hd & _ & _ & Hadd & Hsurf & Hrm).
  split; [|split; [|split; [|split]]].
  - apply (Hsurf 10 clean (unstored SURFACE [2; 3; 4] [] false)).
    + vm_compute; reflexivity.
    + intros p Hp. exists (unstored VERTEX [] [10] true).
      split; [|right; split; reflexivity].
      simpl in Hp. rewrite !elem_of_cons, elem_of_nil in Hp.
      destruct Hp as [-> | [-> | [-> | []]]]; vm_compute; reflexivity.
    + right; right; reflexivity.
  - apply (Hd (OpAdd SURFACE 0 10) clean). vm_compute. discriminate.
  - apply (Hadd SURFACE 0 10 clean).
  - destruct (Hrm 0 5 stored (mkMeshObj 0%Z (Some sample_mesh) VERTEX [] [11] true))
      as (_ & _ & Hfail); [vm_compute; reflexivity | vm_compute; reflexivity | vm_compute; lia |].
    apply (Hfail 11 []); [reflexivity|]. right. vm_compute. discriminate.
  - destruct (Hrm 0 5 stored (mkMeshObj 0%Z (Some sample_mesh) VERTEX [] [11] true))
      as (_ & Hnull & _); [vm_compute; reflexivity | vm_compute; reflexivity | vm_compute; lia |]. exact Hnull.
Defined.

(** C9 as stated fails on three calls of the sample mesh: a failing add of
    a Vertex raises the dirty flag of a clean mesh; a failing add of a
    Surface has stored its vertices; a failing remove has nulled the slot
    of the object before the cascade failed. *)
Lemma add_remove_mutate_before_failing :
  let clean := mkState faulty_store emptyMesh in
  (let r := sample_add_Vertex 1 clean in
   r.1 = Done sample_E_FAIL /\ isDirty (msh clean) = false /\ isDirty (msh r.2) = true) /\
  (let r := sample_add_Surface 10 clean in
   r.1 = Done sample_E_FAIL /\ vertices (msh clean) = [] /\
   vertices (msh r.2) = [Some 2; Some 3; Some 4; None]) /\
  (let stored := (sample_add_Vertex 5 clean).2 in
   let r := sample_removeObj 5 5 stored in
   r.1 = Done sample_E_FAIL /\ vertices (msh stored) !! 0 = Some (Some 5) /\
   vertices (msh r.2) !! 0 = Some None).
Proof. vm_compute. repeat split; reflexivity. Qed.

(** C7 on a sample: area 3, target 1, stiffness 1 and a running total of
    10 leave 4, not 14. *)
Lemma SurfaceAreaConstraint_energy_sample :
  let area := fun (_ : World Q) (_ : addr) => (3 # 1)%Q in
  let e := (10 # 1)%Q in
  let after := SurfaceAreaConstraint_energy Q Qminus Qmult area 1%Q 1%Q tri_world 18 1 e in
  (after == 4 /\ ~ after == e + 4)%Q.
Proof. vm_compute. split; [reflexivity | discriminate]. Qed.

(** ** Sample runs of the further properties *)

Abbreviation tri_fresh := (mkState triangle_store emptyMesh).
Abbreviation tri_state := (sample_add_Surface 10 tri_fresh).2.

Lemma tri_fresh_inventory_inv : inventory_inv sample_mesh tri_fresh.
Proof. apply fresh_state_mesh_inv, sample_fresh; vm_compute; reflexivity. Qed.

Lemma tri_state_inventory_inv : inventory_inv sample_mesh tri_state.
Proof.
  assert (Hf : mesh_inv sample_mesh tri_fresh).
  { apply fresh_state_mesh_inv, sample_fresh; vm_compute; reflexivity. }
  apply (add_Surface_ok sample_S_OK sample_E_FAIL sample_INCR sample_mesh
           sample_codes_differ sample_INCR_pos 10 _ Hf).
  intros o Ho. vm_compute in Ho. by injection Ho as <-.
Qed.

(** X1 on an inventory with the identifiers 1 and 3 free: Vertex 2 gets
    the identifier 1. *)
Lemma Mesh_invIdAndAlloc_least_available_witness :
  let I := mkInventory [Some 1; None; Some 3; None] {[1; 3]} in
  (forall i, i ∈ availIds I <-> inv I !! i = Some None) /\
  availIds I ≠ ∅ /\
  (Mesh_invIdAndAlloc sample_INCR I (Some 2) triangle_store).1.1 = 1 /\
  exists id I',
    Mesh_invIdAndAlloc sample_INCR I (Some 2) triangle_store =
      (id, I', alter (with_objId (Z.of_nat id)) 2 triangle_store) /\
    id ∈ availIds I /\ (forall y, y ∈ availIds I -> id <= y) /\
    inv I !! id = Some None /\ inv I' !! id = Some (Some 2) /\
    (forall j, j <> id -> inv I' !! j = inv I !! j) /\
    length (inv I') = length (inv I) /\
    availIds I' = availIds I ∖ {[id]} /\
    (forall i, i ∈ availIds I' <-> inv I' !! i = Some None).
Proof.
  intros I.
  assert (Hav : forall i, i ∈ availIds I <-> inv I !! i = Some None).
  { intros i. simpl. destruct i as [|[|[|[|i]]]]; simpl; split; intros H;
      try discriminate H; try set_solver; set_unfold; lia. }
  assert (H : availIds I ≠ ∅) by (apply (bool_decide_unpack _); vm_compute; reflexivity).
  split; [exact Hav|]. split; [exact H|]. split; [vm_compute; reflexivity|].
  exact (Mesh_invIdAndAlloc_least_available sample_INCR I 2 triangle_store Hav H).
Defined.

(** X2 on a full inventory of one slot, with blocks of four. *)
Lemma Mesh_invIdAndAlloc_grows_block_witness :
  let I := mkInventory [Some 1] ∅ in
  availIds I = ∅ /\
  exists I',
    Mesh_invIdAndAlloc sample_INCR I (Some 2) triangle_store =
      (length (inv I), I', alter (with_objId (Z.of_nat (length (inv I)))) 2 triangle_store) /\
    inv I' = inv I ++ Some 2 :: replicate (sample_INCR - 1) None /\
    (forall i, i ∈ availIds I' <-> length (inv I) < i < length (inv I) + sample_INCR).
Proof.
  intros I. split; [reflexivity|].
  exact (Mesh_invIdAndAlloc_grows_block sample_INCR sample_INCR_pos I 2 triangle_store
           eq_refl).
Defined.

(** X3 on the fresh triangle: Vertex 1 is added. *)
Lemma add_Vertex_then_getVertex_witness :
  let o := unstored VERTEX [] [10] true in
  exists id st',
    sample_add_Vertex 1 tri_fresh = (Done sample_S_OK, st') /\
    objs st' = <[1 := with_mesh (Some sample_mesh) (with_objId (Z.of_nat id) o)]>
                 (objs tri_fresh) /\
    getVertex (msh st') id = Some 1 /\
    (forall i b, getVertex (msh tri_fresh) i = Some b ->
       i <> id /\ getVertex (msh st') i = Some b).
Proof.
  intros o.
  apply (add_Vertex_then_getVertex sample_S_OK sample_E_FAIL sample_INCR sample_mesh
           sample_codes_differ sample_INCR_pos 1 tri_fresh o tri_fresh_inventory_inv);
    vm_compute; reflexivity.
Defined.

(** X4 on the fresh triangle: Vertex 1 is added twice. *)
Lemma add_Vertex_twice_witness :
  let st' := (sample_add_Vertex 1 tri_fresh).2 in
  sample_add_Vertex 1 tri_fresh = (Done sample_S_OK, st') /\
  sample_add_Vertex 1 st' =
  (Done sample_E_FAIL,
   mkState (objs st') (notify (solver_setDirty true) (set_isDirty true (msh st')))).
Proof.
  intros st'.
  assert (H : sample_add_Vertex 1 tri_fresh = (Done sample_S_OK, st'))
    by (vm_compute; reflexivity).
  split; [exact H|].
  exact (add_Vertex_twice sample_S_OK sample_E_FAIL sample_INCR sample_mesh
           sample_codes_differ 1 tri_fresh st' H).
Defined.

(** X5 on the stored triangle: removing Vertex 2 takes Surface 10 with
    it. *)
Lemma removeObj_unregisters_descendants_witness :
  let st' := (sample_removeObj 5 2 tri_state).2 in
  let o := mkMeshObj 0%Z (Some sample_mesh) SURFACE [1; 2; 3] [] true in
  sample_removeObj 5 2 tri_state = (Done sample_S_OK, st') /\
  descendant (objs tri_state) 2 10 /\
  objs st' !! 10 = Some (unregistered o).
Proof.
  intros st' o.
  assert (H : sample_removeObj 5 2 tri_state = (Done sample_S_OK, st'))
    by (vm_compute; reflexivity).
  assert (Hd : descendant (objs tri_state) 2 10).
  { apply rtc_once. exists (mkMeshObj 1%Z (Some sample_mesh) VERTEX [] [10] true).
    split; [vm_compute; reflexivity|]. simpl. apply list_elem_of_here. }
  split; [exact H|]. split; [exact Hd|].
  apply (removeObj_unregisters_descendants sample_S_OK sample_E_FAIL sample_mesh
           sample_codes_differ 5 2 tri_state st' 10 o H Hd).
  vm_compute. reflexivity.
Defined.

(** X6 on the stored triangle: removing Surface 10 leaves its Vertex 1
    registered. *)
Lemma removeObj_leaves_the_rest_witness :
  let o := mkMeshObj 0%Z (Some sample_mesh) VERTEX [] [10] true in
  ~ descendant (objs tri_state) 10 1 /\
  objs (sample_removeObj 5 10 tri_state).2 !! 1 = Some o.
Proof.
  intros o.
  assert (Hd : ~ descendant (objs tri_state) 10 1).
  { intros [E|(c & (x & Hx & Hc) & _)]%rtc_inv; [discriminate E|].
    vm_compute in Hx. injection Hx as <-. simpl in Hc. by apply elem_of_nil in Hc. }
  split; [exact Hd|].
  apply (removeObj_leaves_the_rest sample_S_OK sample_E_FAIL sample_mesh
           sample_codes_differ 5 10 tri_state 1 o); [vm_compute; reflexivity|exact Hd].
Defined.

(** X7 on the stored triangle: Surface 10 is removed twice. *)
Lemma removeObj_twice_witness :
  let st' := (sample_removeObj 5 10 tri_state).2 in
  sample_removeObj 5 10 tri_state = (Done sample_S_OK, st') /\
  sample_removeObj 5 10 st' = (Done sample_E_FAIL, mark_dirty st').
Proof.
  intros st'.
  assert (H : sample_removeObj 5 10 tri_state = (Done sample_S_OK, st'))
    by (vm_compute; reflexivity).
  split; [exact H|].
  exact (removeObj_twice sample_S_OK sample_E_FAIL sample_mesh sample_codes_differ
           5 4 10 tri_state st' H).
Defined.

(** X8 on the stored triangle: Vertex 1, identifier 0, is removed and
    added again. *)
Lemma remove_then_add_reuses_witness :
  let o := mkMeshObj 0%Z (Some sample_mesh) VERTEX [] [10] true in
  let st1 := (sample_removeObj 5 1 tri_state).2 in
  sample_removeObj 5 1 tri_state = (Done sample_S_OK, st1) /\
  exists id st2,
    sample_add_Vertex 1 st1 = (Done sample_S_OK, st2) /\
    getVertex (msh st2) id = Some 1 /\
    id <= Z.to_nat (objId o) /\
    length (vertices (msh st2)) = length (vertices (msh st1)).
Proof.
  intros o st1.
  assert (H : sample_removeObj 5 1 tri_state = (Done sample_S_OK, st1))
    by (vm_compute; reflexivity).
  split; [exact H|].
  apply (remove_then_add_reuses sample_S_OK sample_E_FAIL sample_INCR sample_mesh
           sample_codes_differ sample_INCR_pos 5 1 1 tri_state st1 o (unregistered o)
           tri_state_inventory_inv); try exact H; vm_compute; reflexivity.
Defined.


(** X10 on the fresh triangle: the add of Surface 10 registers the
    vertices 1, 2 and 3. *)
Lemma add_composite_registers_parts_witness :
  sample_add_Surface 10 tri_fresh = (Done sample_S_OK, tri_state) /\
  exists o, objs tri_fresh !! 10 = Some o /\
    (exists o', objs tri_state !! 10 = Some o' /\ registered sample_mesh o') /\
    forall p, p ∈ parents o -> has_id tri_state p.
Proof.
  assert (H : sample_add_Surface 10 tri_fresh = (Done sample_S_OK, tri_state))
    by (vm_compute; reflexivity).
  split; [exact H|].
  exact (proj1 (add_composite_registers_parts sample_S_OK sample_E_FAIL sample_INCR
                  sample_mesh sample_codes_differ) 10 tri_fresh tri_state H).
Defined.

(** X11 on the stored triangle: the fourth vertex slot is null. *)
Lemma Mesh_validate_null_slot_witness :
  (forall k i a, inv (inventory k (msh tri_state)) !! i = Some (Some a) ->
     exists o, objs tri_state !! a = Some o /\ validate o = true) /\
  Mesh_validate tri_state = NullDeref /\
  ((Mesh_validate tri_state = Done true /\
    forall k i, inv (inventory k (msh tri_state)) !! i <> Some None) \/
   (Mesh_validate tri_state = NullDeref /\
    exists k i, inv (inventory k (msh tri_state)) !! i = Some None)).
Proof.
  assert (Hs : forall k i a, inv (inventory k (msh tri_state)) !! i = Some (Some a) ->
             exists o, objs tri_state !! a = Some o /\ validate o = true).
  { intros k i a Hslot.
    destruct tri_state_inventory_inv as (Hok & _).
    destruct (Hok k i a Hslot) as (o & Ho & _). exists o. split; [exact Ho|].
    assert (Hall : map_Forall (fun _ o => validate o = true) (objs tri_state))
      by (apply (bool_decide_unpack _); vm_compute; reflexivity).
    exact (Hall a o Ho). }
  split; [exact Hs|]. split; [vm_compute; reflexivity|].
  exact (Mesh_validate_null_slot tri_state Hs).
Defined.

(** X12 on the fresh triangle, with blocks of four: Vertex 1 is added. *)
Lemma Mesh_validate_after_growth_witness :
  vertexIdsAvail (msh tri_fresh) = ∅ /\ 2 <= sample_INCR /\
  exists st', sample_add_Vertex 1 tri_fresh = (Done sample_S_OK, st') /\
              Mesh_validate st' = NullDeref.
Proof.
  split; [reflexivity|]. split; [unfold sample_INCR; lia|].
  apply (Mesh_validate_after_growth sample_S_OK sample_E_FAIL sample_INCR sample_mesh
           sample_codes_differ sample_INCR_pos 1 tri_fresh (unstored VERTEX [] [10] true)
           tri_fresh_inventory_inv).
  - reflexivity.
  - intros i b ob Hi. vm_compute in Hi. destruct i; discriminate Hi.
  - unfold sample_INCR. lia.
  - vm_compute. reflexivity.
  - vm_compute. reflexivity.
  - reflexivity.
  - reflexivity.
Defined.

(** X13 on the stored triangle with its corners on the unit square: the
    origin is within distance 2 of all three vertices and the answer is
    Vertex 1, in slot 0. *)
Lemma findVertex_first_match_witness :
  let pos := mkFVector3 0%Q 0%Q 0%Q in
  findVertex Q Qle_bool Q_relativeLength tri_world pos (2 # 1)%Q = Found 1 /\
  exists i, vertices (msh (w_state tri_world)) !! i = Some (Some 1) /\
    Qle_bool (Q_relativeLength (w_pos tri_world 1) pos) (2 # 1)%Q = true /\
    forall j, j < i ->
      exists u, vertices (msh (w_state tri_world)) !! j = Some (Some u) /\
                Qle_bool (Q_relativeLength (w_pos tri_world u) pos) (2 # 1)%Q = false.
Proof.
  intros pos.
  assert (H : findVertex Q Qle_bool Q_relativeLength tri_world pos (2 # 1)%Q = Found 1)
    by (vm_compute; reflexivity).
  split; [exact H|].
  exact (proj1 (proj1 (findVertex_first_match Q Qle_bool Q_relativeLength tri_world pos
                         (2 # 1)%Q) 1) H).
Defined.


(** X15 on the hinge: Vertex 5 is inserted between the vertices 2 and 3,
    the edge the Surfaces 10 and 11 share. *)
Lemma Mesh_insert_splices_witness :
  let o1 := mkMeshObj 1%Z (Some sample_mesh) VERTEX [] [10; 11] true in
  let run := Mesh_insert sample_S_OK sample_E_FAIL sample_INCR sample_mesh 5 2 3 hinge_state in
  NoDup (children o1) /\
  run.1 = Done sample_S_OK /\
  parents <$> objs run.2 !! 10 = Some [1; 2; 5; 3] /\
  parents <$> objs run.2 !! 11 = Some [3; 5; 2; 4] /\
  (forall s so, objs hinge_state !! s = Some so ->
     exists so', objs run.2 !! s = Some so' /\
       parents so' = if bool_decide (s ∈ children o1)
                     then splice_between 5 2 3 (parents so) else parents so) /\
  (run.1 = Done sample_S_OK -> exists ox, objs run.2 !! 5 = Some ox /\ registered sample_mesh ox).
Proof.
  intros o1 run.
  assert (Hnd : NoDup (children o1)) by (apply (bool_decide_unpack _); vm_compute; reflexivity).
  split; [exact Hnd|]. split; [vm_compute; reflexivity|].
  split; [vm_compute; reflexivity|]. split; [vm_compute; reflexivity|].
  apply (Mesh_insert_splices sample_S_OK sample_E_FAIL sample_INCR sample_mesh
           sample_codes_differ 5 2 3 hinge_state o1 run.1 run.2);
    [vm_compute; reflexivity | exact Hnd | apply surjective_pairing].
Defined.

(** X16 on a quadrilateral boundary: the vertices 2 and 3 follow each
    other. *)
Lemma merge_rejects_consecutive_witness :
  let vs := [1; 2; 3; 4] in
  NoDup vs /\ 2 ∈ vs /\ 3 ∈ vs /\
  (merge_rejects 2 3 vs = false <-> consecutive vs 2 3).
Proof.
  intros vs.
  assert (Hnd : NoDup vs) by (apply (bool_decide_unpack _); vm_compute; reflexivity).
  assert (H2 : 2 ∈ vs) by (apply (bool_decide_unpack _); vm_compute; reflexivity).
  assert (H3 : 3 ∈ vs) by (apply (bool_decide_unpack _); vm_compute; reflexivity).
  split; [exact Hnd|]. split; [exact H2|]. split; [exact H3|].
  apply (merge_rejects_consecutive 2 3 vs Hnd H2 H3). discriminate.
Defined.

(** X17 on the stored quadrilateral: Vertex 2 is merged into Vertex 1 and
    Surface 10 stays registered. *)
Lemma merge_Vertex_unregisters_only_toRemove_witness :
  let r := merge_Vertex sample_S_OK sample_E_FAIL sample_mesh Q Qplus Qminus Qmult 5 1 2
             (1 # 2)%Q quad_world in
  let o := mkMeshObj 0%Z (Some sample_mesh) SURFACE [1; 2; 3; 4] [] true in
  r.1 = Done sample_S_OK /\
  exists o', objs (w_state r.2) !! 10 = Some o' /\
    objId o' = objId o /\ mesh o' = mesh o /\ objType o' = objType o.
Proof.
  intros r o. split; [vm_compute; reflexivity|].
  apply (merge_Vertex_unregisters_only_toRemove sample_S_OK sample_E_FAIL sample_mesh Q
           Qplus Qminus Qmult sample_codes_differ 5 1 2 (1 # 2)%Q quad_world r.2 10 o).
  - vm_compute. reflexivity.
  - discriminate.
  - vm_compute. reflexivity.
Defined.

(** X18 on the triangle: the vertices 1 and 2 follow each other on
    Surface 10. *)
Lemma connected_Vertex_consecutive_witness :
  exists b, connected_Vertex triangle_store 1 2 = Done b /\
    (b = true <->
     exists s so, s ∈ [10] /\ triangle_store !! s = Some so /\
                  consecutive (parents so) 1 2).
Proof.
  apply (connected_Vertex_consecutive triangle_store 1 2 (unstored VERTEX [] [10] true)).
  - vm_compute. reflexivity.
  - intros s Hs. simpl in Hs. apply elem_of_cons in Hs as [->|Hs];
      [|by apply elem_of_nil in Hs].
    exists (unstored SURFACE [1; 2; 3] [] true). split; [vm_compute; reflexivity|].
    discriminate.
Defined.

(** X19 on the quadrilateral: the vertices 1 and 4 hold the first and the
    last index of Surface 10. *)
Lemma connected_Vertex_misses_closing_edge_witness :
  connected_Vertex quad_store 1 4 = Done false /\
  (forall s so, s ∈ [10] -> quad_store !! s = Some so ->
     cyclically_adjacent (parents so) 1 4 /\
     is_Some (insert_scan 1 4 (parents so) (seq 0 (length (parents so))))).
Proof.
  apply (connected_Vertex_misses_closing_edge quad_store 1 4 (unstored VERTEX [] [10] true)).
  - vm_compute. reflexivity.
  - intros s Hs. simpl in Hs. apply elem_of_cons in Hs as [->|Hs];
      [|by apply elem_of_nil in Hs].
    exists (unstored SURFACE [1; 2; 3; 4] [] true), 2, [3].
    split; [vm_compute; reflexivity|]. split; [reflexivity|].
    apply (bool_decide_unpack _). vm_compute. reflexivity.
Defined.

(** X20 on the unit square: the vertices 1 and 2 of the kept Surface are
    matched to the vertices 4 and 3 of the removed one, the nearest free
    ones. *)
Lemma match_vertices_injective_witness :
  let w := mkWorld (mkState quad_store emptyMesh) square_positions in
  let run := match_vertices Q id Qplus Qminus Qmult id Qltb w [3; 4] [1; 2] [] in
  run = Some [4; 3] /\
  (forall l, run = Some l ->
     length l = length [1; 2] /\ NoDup l /\ (forall x, x ∈ l -> x ∈ [3; 4])) /\
  is_Some run.
Proof.
  intros w run. split; [vm_compute; reflexivity|].
  destruct (match_vertices_injective Q id Qplus Qminus Qmult id Qltb w [3; 4] [1; 2])
    as [H1 H2].
  split; [exact H1|]. apply H2.
  - apply (bool_decide_unpack _). vm_compute. reflexivity.
  - simpl. lia.
Defined.

(** X21 on the stored triangle: Surface 10 is extended from its closing
    edge, from Vertex 3 back to Vertex 1; index 7 is past the boundary. *)
Lemma extend_Surface_on_edge_witness :
  let pos := mkFVector3 (5 # 1)%Q (5 # 1)%Q (5 # 1)%Q in
  let extend := extend_Surface sample_S_OK sample_E_FAIL sample_INCR sample_mesh Q 10 in
  extend 7 pos tri_world = (Done None, tri_world) /\
  exists s vert w' os,
    extend 2 pos tri_world = (Done (Some s), w') /\
    objs (w_state w') !! s = Some os /\ parents os = [3; 1; vert] /\
    w_pos w' vert = pos /\ registered sample_mesh os /\ has_id (w_state w') vert.
Proof.
  intros pos extend.
  destruct (extend_Surface_on_edge sample_S_OK sample_E_FAIL sample_INCR sample_mesh Q
              sample_codes_differ 10 7 pos tri_world
              (mkMeshObj 0%Z (Some sample_mesh) SURFACE [1; 2; 3] [] true))
    as [Hout _]; [vm_compute; reflexivity|].
  split; [apply Hout; simpl; lia|].
  destruct (extend_Surface_on_edge sample_S_OK sample_E_FAIL sample_INCR sample_mesh Q
              sample_codes_differ 10 2 pos tri_world
              (mkMeshObj 0%Z (Some sample_mesh) SURFACE [1; 2; 3] [] true))
    as [_ Hin]; [vm_compute; reflexivity|].
  destruct Hin as (s & vert & v0 & v1 & w' & os & Hrun & _ & _ & Hv0 & Hv1 & Hos & Hp &
                   Hpos & _ & _ & Hreg); [simpl; lia|].
  vm_compute in Hv0, Hv1. injection Hv0 as <-. injection Hv1 as <-.
  destruct Hreg as [Hr Hids].
  { intros p Hp'. apply elem_of_cons in Hp' as [->|Hp'].
    - exists (mkMeshObj 2%Z (Some sample_mesh) VERTEX [] [10] true).
      split; [vm_compute; reflexivity|]. left. simpl. lia.
    - apply elem_of_cons in Hp' as [->|Hp']; [|by apply elem_of_nil in Hp'].
      exists (mkMeshObj 0%Z (Some sample_mesh) VERTEX [] [10] true).
      split; [vm_compute; reflexivity|]. left. simpl. lia. }
  exists s, vert, w', os. do 4 (split; [assumption|]). split; [exact Hr|].
  apply Hids. do 2 apply list_elem_of_further. apply list_elem_of_here.
Defined.

(** X22 on the stored triangle: Surface 10 is extruded from its closing
    edge by twice the unit normal along z. *)
Lemma extrude_Surface_on_edge_witness :
  let extrude := extrude_Surface sample_S_OK sample_E_FAIL sample_INCR sample_mesh Q
                   Qplus Qmult unit_normal 10 in
  let disp := vscale Q Qmult (unit_normal tri_world 10) (2 # 1)%Q in
  extrude 7 (2 # 1)%Q tri_world = (Done None, tri_world) /\
  exists s v2 v3 w' os,
    extrude 2 (2 # 1)%Q tri_world = (Done (Some s), w') /\
    objs (w_state w') !! s = Some os /\ parents os = [3; 1; v2; v3] /\
    w_pos w' v2 = vadd Q Qplus (square_positions 3) disp /\
    w_pos w' v3 = vadd Q Qplus (square_positions 1) disp /\
    registered sample_mesh os.
Proof.
  intros extrude disp.
  destruct (extrude_Surface_on_edge sample_S_OK sample_E_FAIL sample_INCR sample_mesh Q
              Qplus Qmult unit_normal sample_codes_differ 10 7 (2 # 1)%Q tri_world
              (mkMeshObj 0%Z (Some sample_mesh) SURFACE [1; 2; 3] [] true))
    as [Hout _]; [vm_compute; reflexivity|].
  split; [apply Hout; simpl; lia|].
  destruct (extrude_Surface_on_edge sample_S_OK sample_E_FAIL sample_INCR sample_mesh Q
              Qplus Qmult unit_normal sample_codes_differ 10 2 (2 # 1)%Q tri_world
              (mkMeshObj 0%Z (Some sample_mesh) SURFACE [1; 2; 3] [] true))
    as [_ Hin]; [vm_compute; reflexivity|].
  destruct Hin as (s & v0 & v1 & v2 & v3 & w' & os & Hrun & _ & _ & _ & _ & Hv0 & Hv1 &
                   Hos & Hp & Hp2 & Hp3 & _ & Hreg); [simpl; lia|].
  vm_compute in Hv0, Hv1. injection Hv0 as <-. injection Hv1 as <-.
  destruct Hreg as [Hr _].
  { intros p Hp'. apply elem_of_cons in Hp' as [->|Hp'].
    - exists (mkMeshObj 2%Z (Some sample_mesh) VERTEX [] [10] true).
      split; [vm_compute; reflexivity|]. left. simpl. lia.
    - apply elem_of_cons in Hp' as [->|Hp']; [|by apply elem_of_nil in Hp'].
      exists (mkMeshObj 0%Z (Some sample_mesh) VERTEX [] [10] true).
      split; [vm_compute; reflexivity|]. left. simpl. lia. }
  exists s, v2, v3, w', os. do 3 (split; [assumption|]).
  split; [exact Hp2|]. split; [exact Hp3|exact Hr].
Defined.

(** X23 on the stored triangle: a Body is grown from Surface 10 and an
    apex; it has four surfaces. *)
Lemma extend_Body_fan_witness :
  let pos := mkFVector3 0%Q 0%Q (1 # 1)%Q in
  exists b vNew tris w' ob,
    extend_Body sample_S_OK sample_E_FAIL sample_INCR sample_mesh Q 10 pos tri_world
      = (Done (Some b), w') /\
    w_pos w' vNew = pos /\
    objs (w_state w') !! b = Some ob /\ parents ob = 10 :: tris /\ length tris = 3 /\
    (forall i, i < 3 ->
       exists s os v0 v1,
         tris !! i = Some s /\ objs (w_state w') !! s = Some os /\
         [1; 2; 3] !! i = Some v0 /\ [1; 2; 3] !! next_index 3 i = Some v1 /\
         parents os = [v0; v1; vNew]).
Proof.
  intros pos.
  destruct (extend_Body_fan sample_S_OK sample_E_FAIL sample_INCR sample_mesh Q
              sample_codes_differ 10 pos tri_world
              (mkMeshObj 0%Z (Some sample_mesh) SURFACE [1; 2; 3] [] true))
    as (b & vNew & tris & w' & ob & Hrun & _ & _ & Hpos & _ & Hob & _ & Hp & Hlen & Htris & _);
    [vm_compute; reflexivity|].
  exists b, vNew, tris, w', ob. do 5 (split; [assumption|]).
  intros i Hi. destruct (Htris i Hi) as (s & os & v0 & v1 & H1 & _ & H3 & _ & H5 & H6 & H7).
  by exists s, os, v0, v1.
Defined.

(** X24 on the stored triangle, which bounds no Body: the extrusion by
    the unit normal along z builds a prism of five surfaces. *)
Lemma extrude_Body_prism_witness :
  let free := fun (_ : Store) (_ : addr) => (@None addr, @None addr) in
  let disp := vscale Q Qmult (unit_normal tri_world 10) 1%Q in
  exists b nvs lats cap w' ob oc,
    extrude_Body sample_S_OK sample_E_FAIL sample_INCR sample_mesh Q id Qplus Qmult Qopp
      free unit_normal 10 1%Q tri_world = (Done (Some b), w') /\
    length nvs = 3 /\ NoDup nvs /\
    (forall i v, [1; 2; 3] !! i = Some v ->
       exists nv, nvs !! i = Some nv /\
         w_pos w' nv = vadd Q Qplus (square_positions v) disp) /\
    objs (w_state w') !! b = Some ob /\ parents ob = lats ++ [10; cap] /\
    length lats = 3 /\
    objs (w_state w') !! cap = Some oc /\ parents oc = nvs.
Proof.
  intros free disp.
  destruct (extrude_Body_prism sample_S_OK sample_E_FAIL sample_INCR sample_mesh Q id
              Qplus Qmult Qopp free unit_normal sample_codes_differ 10 1%Q tri_world
              (mkMeshObj 0%Z (Some sample_mesh) SURFACE [1; 2; 3] [] true) None None)
    as (b & nvs & lats & cap & w' & ob & oc & Hrun & Hlen & Hnd & _ & Hat & _ & Hob & _ &
        Hp & Hlen2 & Hoc & _ & Hpc & _).
  - vm_compute. reflexivity.
  - intros v Hv. apply (bool_decide_unpack _).
    repeat (apply elem_of_cons in Hv as [->|Hv]); [vm_compute; reflexivity..|].
    by apply elem_of_nil in Hv.
  - reflexivity.
  - by left.
  - exists b, nvs, lats, cap, w', ob, oc. by do 8 (split; [assumption|]).
Defined.

(** X25 on the stored triangle: four objects are registered and a budget
    of five is enough to remove Vertex 2. *)
Lemma removeObj_returns_witness :
  size (registered_addrs sample_mesh tri_state) < 5 /\
  ((sample_removeObj 5 2 tri_state).1 = Done sample_S_OK \/
   (sample_removeObj 5 2 tri_state).1 = Done sample_E_FAIL).
Proof.
  assert (Hsz : size (registered_addrs sample_mesh tri_state) < 5).
  { assert (E : size (registered_addrs sample_mesh tri_state) = 4)
      by (vm_compute; reflexivity).
    rewrite E. lia. }
  split; [exact Hsz|].
  exact (removeObj_returns sample_S_OK sample_E_FAIL sample_mesh sample_codes_differ
           5 2 tri_state Hsz).
Defined.

(** X26 on two unregistered Structures that are each other's parent. *)
Lemma add_Structure_cycle_diverges_witness :
  let h : Store := <[20 := unstored STRUCTURE [21] [] true]>
                   (<[21 := unstored STRUCTURE [20] [] true]> ∅) in
  (add_Structure sample_S_OK sample_E_FAIL sample_INCR sample_mesh 1000 20
     (mkState h emptyMesh)).1 = OutOfFuel.
Proof.
  intros h.
  apply (add_Structure_cycle_diverges sample_S_OK sample_E_FAIL sample_INCR sample_mesh
           (fun a => a = 20 \/ a = 21) (mkState h emptyMesh)); [|by left].
  intros a [-> | ->].
  - exists 21. split; [by right|].
    exists (unstored STRUCTURE [21] [] true), [], (unstored STRUCTURE [20] [] true).
    repeat split; vm_compute; reflexivity.
  - exists 20. split; [by left|].
    exists (unstored STRUCTURE [20] [] true), [], (unstored STRUCTURE [21] [] true).
    repeat split; vm_compute; reflexivity.
Defined.

(** X27 on a triangle whose vertices are registered with another mesh,
    the one at address 9. *)
Lemma add_Surface_skips_registered_vertices_witness :
  let h : Store :=
    <[1 := mkMeshObj 0%Z (Some 9) VERTEX [] [10] true]>
    (<[2 := mkMeshObj 1%Z (Some 9) VERTEX [] [10] true]>
    (<[3 := mkMeshObj 2%Z (Some 9) VERTEX [] [10] true]>
    (<[10 := unstored SURFACE [1; 2; 3] [] true]> ∅))) in
  let st := mkState h emptyMesh in
  exists st',
    sample_add_Surface 10 st = (Done sample_S_OK, st') /\
    (exists o', objs st' !! 10 = Some o' /\ registered sample_mesh o') /\
    (forall b, b <> 10 -> objs st' !! b = objs st !! b) /\
    (forall k, k <> SURFACE -> inventory k (msh st') = inventory k (msh st)).
Proof.
  intros h st.
  apply (add_Surface_skips_registered_vertices sample_S_OK sample_E_FAIL sample_INCR
           sample_mesh sample_codes_differ 10 st (unstored SURFACE [1; 2; 3] [] true));
    try (vm_compute; reflexivity).
  intros p Hp. simpl in Hp.
  apply elem_of_cons in Hp as [->|Hp];
    [exists (mkMeshObj 0%Z (Some 9) VERTEX [] [10] true); split; [vm_compute; reflexivity|simpl; lia]|].
  apply elem_of_cons in Hp as [->|Hp];
    [exists (mkMeshObj 1%Z (Some 9) VERTEX [] [10] true); split; [vm_compute; reflexivity|simpl; lia]|].
  apply elem_of_cons in Hp as [->|Hp];
    [exists (mkMeshObj 2%Z (Some 9) VERTEX [] [10] true); split; [vm_compute; reflexivity|simpl; lia]|].
  by apply elem_of_nil in Hp.
Defined.
